(** * RetroChat backend: the real-time messaging gateway

    A shallow embedding of the gateway ([events.gateway.ts]), the presence
    adapter ([redis.service.ts]), the persistence calls it makes
    ([chat.service.ts], [group-message.service.ts], [groups.service.ts]) and
    the two style schedulers and generators ([style-profile.service.ts],
    [ai-friend.service.ts], [group-ai-profile.service.ts],
    [group-ai.service.ts]).  Beside the gateway path: the queries and read
    receipts of [chat.service.ts] and [group-message.service.ts] that the
    REST controllers call, the membership methods of [groups.service.ts],
    the agent ids of [group-ai-init.service.ts], and the weighting and the
    contribution count of [group-ai-style-analysis.service.ts].

    Conventions.
    - An [async] method is a computation in the monad [M]: it reads and
      writes the [World], may throw an [Exn], and appends to the list of
      emitted socket events.  A handler runs from start to end without
      another handler interleaving at its [await]s.
    - [Logger] calls have no effect on the world and are left out.
    - Strings are byte strings; JavaScript truthiness of a string is
      non-emptiness. *)

From Stdlib Require Import ZArith Lia Ascii Floats Uint63.
From stdpp Require Import gmap strings pretty sorting.

(** ** JavaScript values *)

Module JS.
(** [if (s)] on a string. *)
Definition truthy (s : string) : bool :=
  match s with
  | EmptyString => false
  | String _ _ => true
  end.

(** [if (x)] on a [string | null]. *)
Definition truthyOpt (x : option string) : bool :=
  match x with
  | Some s => truthy s
  | None => false
  end.

(** [xs.join(sep)]. *)
Fixpoint join (sep : string) (xs : list string) : string :=
  match xs with
  | [] => ""
  | [x] => x
  | x :: rest => x +:+ sep +:+ join sep rest
  end.

(** [fullResponse += chunk] over every chunk, from the empty string. *)
Definition concat (xs : list string) : string :=
  foldl (fun acc chunk => acc +:+ chunk) "" xs.
End JS.

(** ** The Upstash Redis REST client

    A key holds a value and the instant at which it expires ([set] with
    [{ ex }]).  [reachable] says whether the REST endpoint answers; when it
    does not, every command throws. *)

Module Redis.
Record entry := Entry { value : string; expiresAt : Z }.

Record client := Client { kv : gmap string entry; reachable : bool }.

Inductive error := RequestFailed.

Definition read (now : Z) (e : entry) : option string :=
  if (now <? expiresAt e)%Z then Some (value e) else None.

(** [redis.get<string>(key)] at time [now] (milliseconds). *)
Definition get (now : Z) (c : client) (key : string) : error + option string :=
  if reachable c then inr (kv c !! key ≫= read now) else inl RequestFailed.

(** [redis.set(key, v, { ex })], [ex] in seconds. *)
Definition set (now : Z) (c : client) (key v : string) (ex : Z) : error + client :=
  if reachable c
  then inr (Client (<[key := Entry v (now + ex * 1000)]> (kv c)) (reachable c))
  else inl RequestFailed.

(** [redis.del(key)]. *)
Definition del (c : client) (key : string) : error + client :=
  if reachable c
  then inr (Client (delete key (kv c)) (reachable c))
  else inl RequestFailed.

Definition fresh : client := Client ∅ true.
End Redis.

(** ** The relational store (db/schema.ts)

    A table is the list of its rows in insertion order; a [select] returns
    the matching rows in that order and [limit(1)] keeps the first. *)

Module Db.
Record tone := Tone { casual : Z; formal : Z; enthusiastic : Z }.

(** [StyleAnalysis] of ai-style-analysis.service.ts. *)
Record styleAnalysis := StyleAnalysis {
  commonPhrases : list string;
  emojiUsage : list (string * Z);
  averageMessageLength : Z;
  toneIndicators : tone }.

Definition emptyAnalysis : styleAnalysis :=
  StyleAnalysis [] [] 0 (Tone 0 0 0).

(** Table [messages]. *)
Record message := Message {
  id : string;
  fromUserId : string;
  toUserId : string;
  content : string;
  timestamp : Z;
  isRead : bool;
  isAIGenerated : bool }.

(** Table [group_messages]. *)
Record groupMessage := GroupMessage {
  gm_id : string;
  gm_groupId : string;
  gm_fromUserId : string;
  gm_content : string;
  gm_timestamp : Z;
  gm_isAIGenerated : bool;
  gm_mentionedUserIds : list string }.

(** Table [style_profiles]; [stylePrompt] is a nullable column. *)
Record styleProfile := StyleProfile {
  sp_userId : string;
  sp_messageCount : Z;
  sp_analysis : styleAnalysis;
  sp_stylePrompt : option string;
  sp_lastUpdated : Z }.

(** Table [group_style_profiles]. *)
Record groupStyleProfile := GroupStyleProfile {
  gsp_groupId : string;
  gsp_messageCount : Z;
  gsp_memberContributions : list (string * Z);
  gsp_analysis : styleAnalysis;
  gsp_stylePrompt : option string;
  gsp_lastUpdated : Z }.

(** Table [groups]; only the key is read by the gateway. *)
Record group := Group { g_id : string; g_name : string }.

(** Table [group_members]. *)
Record groupMember := GroupMember {
  mb_id : string;
  mb_groupId : string;
  mb_userId : string;
  mb_isAdmin : bool;
  mb_joinedAt : Z;
  mb_notificationsMuted : bool }.

(** Table [user_profile], the columns the gateway path selects. *)
Record userProfileRow := UserProfileRow {
  up_userId : string;
  up_username : string;
  up_displayName : string }.

Record tables := Tables {
  messages : list message;
  groupMessages : list groupMessage;
  styleProfiles : list styleProfile;
  groupStyleProfiles : list groupStyleProfile;
  groups : list group;
  groupMembers : list groupMember;
  userProfile : list userProfileRow;
  (** source of [defaultRandom()] primary keys *)
  nextId : N }.

Definition empty : tables := Tables [] [] [] [] [] [] [] 0.

Definition freshId (t : tables) : string := pretty (nextId t).

(** [insert(messages).values(..).returning()]: the key and the timestamp
    are the column defaults. *)
Definition insertMessage (from to text : string) (ai : bool)
    (t : tables) (now : Z) : message * tables :=
  let row := Message (freshId t) from to text now false ai in
  (row, Tables (messages t ++ [row]) (groupMessages t) (styleProfiles t)
          (groupStyleProfiles t) (groups t) (groupMembers t) (userProfile t)
          (N.succ (nextId t))).

Definition insertGroupMessage (group from text : string) (ai : bool)
    (mentions : list string) (t : tables) (now : Z) : groupMessage * tables :=
  let row := GroupMessage (freshId t) group from text now ai mentions in
  (row, Tables (messages t) (groupMessages t ++ [row]) (styleProfiles t)
          (groupStyleProfiles t) (groups t) (groupMembers t) (userProfile t)
          (N.succ (nextId t))).

Definition withStyleProfiles (t : tables) (ps : list styleProfile) : tables :=
  Tables (messages t) (groupMessages t) ps (groupStyleProfiles t)
         (groups t) (groupMembers t) (userProfile t) (nextId t).

Definition withGroupStyleProfiles (t : tables) (ps : list groupStyleProfile) : tables :=
  Tables (messages t) (groupMessages t) (styleProfiles t) ps
         (groups t) (groupMembers t) (userProfile t) (nextId t).
End Db.

(** ** Socket events *)

(** Where an emission goes: [client.emit], [server.to(room).emit] (the room
    of a socket id holds that socket alone) or [server.emit]. *)
Inductive Target :=
| ToClient (socketId : string)
| ToRoom (socketId : string)
| ToAll.

Inductive Payload :=
| Status (userId status : string)
| StatusBatch (statuses : list (string * string))
| DirectMessage (message : Db.message)
| GroupMsg (message : Db.groupMessage)
| ErrorMsg (error : string)
| StreamStart (messageId : string)
| StreamChunk (chunk fullResponse : string)
| StreamEnd (message : Db.message)
| GroupStreamStart (groupId messageId : string)
| GroupStreamChunk (groupId chunk fullResponse : string)
| GroupStreamEnd (groupId : string) (message : Db.groupMessage).

Record Emission := Emit { target : Target; event : string; data : Payload }.

(** The socket id an emission is delivered to, if it is not a broadcast. *)
Definition recipient (e : Emission) : option string :=
  match target e with
  | ToClient s | ToRoom s => Some s
  | ToAll => None
  end.

(** The events named [ev] in a trace, and the sockets they are sent to. *)
Definition named (ev : string) (trace : list Emission) : list Emission :=
  filter (fun e => event e = ev) trace.


(** What socket [s] is sent under the name [ev], in emission order. *)
Definition receivedBy (s : string) (ev : string) (trace : list Emission) : list Payload :=
  data <$> filter (fun e => recipient e = Some s) (named ev trace).

(** ** The generation provider

    One streamed completion: the [delta.content] of each chunk in arrival
    order, and whether the call or the stream then throws. *)
Record Completion := { deltas : list (option string); fails : bool }.

(** ** The world a handler runs in *)

(** A promise a handler starts and does not await. *)
Inductive Task :=
| StyleUpdate (userId : string)
| GroupStyleUpdate (groupId : string).

Record World := {
  (** [RedisService.redis]: [None] when the configuration is missing *)
  redis : option Redis.client;
  (** [Date.now()], milliseconds *)
  clock : Z;
  db : Db.tables;
  (** the coming database statements, in issue order: [true] throws;
      past the end of the list every statement succeeds *)
  dbFaults : list bool;
  (** what the provider answers to the coming calls; none left: it throws *)
  openaiReplies : list Completion;
  (** the (system prompt, user message) of every call made so far *)
  openaiCalls : list (string * string);
  (** the promises started and not awaited, oldest first *)
  background : list Task }.

Definition withRedis (w : World) (r : option Redis.client) : World :=
  {| redis := r; clock := clock w; db := db w; dbFaults := dbFaults w;
     openaiReplies := openaiReplies w; openaiCalls := openaiCalls w;
     background := background w |}.

Definition withClock (w : World) (now : Z) : World :=
  {| redis := redis w; clock := now; db := db w; dbFaults := dbFaults w;
     openaiReplies := openaiReplies w; openaiCalls := openaiCalls w;
     background := background w |}.

Definition withDb (w : World) (t : Db.tables) (faults : list bool) : World :=
  {| redis := redis w; clock := clock w; db := t; dbFaults := faults;
     openaiReplies := openaiReplies w; openaiCalls := openaiCalls w;
     background := background w |}.

Definition withOpenai (w : World) (replies : list Completion)
    (calls : list (string * string)) : World :=
  {| redis := redis w; clock := clock w; db := db w; dbFaults := dbFaults w;
     openaiReplies := replies; openaiCalls := calls;
     background := background w |}.

Definition withBackground (w : World) (tasks : list Task) : World :=
  {| redis := redis w; clock := clock w; db := db w; dbFaults := dbFaults w;
     openaiReplies := openaiReplies w; openaiCalls := openaiCalls w;
     background := tasks |}.

(** ** The handler monad: state, exceptions and emitted events *)

Inductive Exn :=
| DbError
| SessionError
| NotFoundException (message : string)
| ProviderError.

Definition M (A : Type) : Type := World → (Exn + A) * World * list Emission.

Definition ret {A} (a : A) : M A := fun w => (inr a, w, []).

Definition bind {A B} (m : M A) (k : A → M B) : M B := fun w =>
  match m w with
  | (inl e, w1, out1) => (inl e, w1, out1)
  | (inr a, w1, out1) =>
      match k a w1 with
      | (r, w2, out2) => (r, w2, out1 ++ out2)
      end
  end.

Definition throw {A} (e : Exn) : M A := fun w => (inl e, w, []).

(** [try { body } catch (error) { handler }]. *)
Definition tryCatch {A} (body : M A) (handler : Exn → M A) : M A := fun w =>
  match body w with
  | (inl e, w1, out1) =>
      match handler e w1 with
      | (r, w2, out2) => (r, w2, out1 ++ out2)
      end
  | ok => ok
  end.

Definition emit (t : Target) (ev : string) (p : Payload) : M unit :=
  fun w => (inr tt, w, [Emit t ev p]).

Definition gets {A} (f : World → A) : M A := fun w => (inr (f w), w, []).

Definition modify (f : World → World) : M unit := fun w => (inr tt, f w, []).

Notation "'let*' x ':=' m 'in' k" := (bind m (fun x => k))
  (at level 10, x pattern, m at level 100, k at level 200).
Notation "m ';;;' k" := (bind m (fun _ => k))
  (at level 100, k at level 200, right associativity).

(** [for (const x of xs) { await body(x) }]. *)
Fixpoint forEach {A} (xs : list A) (body : A → M unit) : M unit :=
  match xs with
  | [] => ret tt
  | x :: rest => body x ;;; forEach rest body
  end.

(** One database statement: it consumes the next fault of the oracle. *)
Definition statement {A} (q : Db.tables → Z → A * Db.tables) : M A := fun w =>
  match dbFaults w with
  | true :: rest => (inl DbError, withDb w (db w) rest, [])
  | false :: rest =>
      match q (db w) (clock w) with
      | (a, t) => (inr a, withDb w t rest, [])
      end
  | [] =>
      match q (db w) (clock w) with
      | (a, t) => (inr a, withDb w t [], [])
      end
  end.

Definition select {A} (q : Db.tables → A) : M A :=
  statement (fun t _ => (q t, t)).

(** Start a promise without awaiting it. *)
Definition spawn (task : Task) : M unit :=
  modify (fun w => withBackground w (background w ++ [task])).

(** [for await (const chunk of chunks) { fullResponse += chunk; body }]:
    returns the final [fullResponse].

    An async generator is given here by the list of the chunks it yields.
    Both generators of the source issue all their database statements before
    their first [yield]; after it they only pull from the provider's stream
    and catch its error.  The loop bodies only emit and read the registry.
    Running the generator to its end and then the body on each chunk thus
    gives the world and the order of events of the interleaved execution. *)
Fixpoint forAwait (chunks : list string) (fullResponse : string)
    (body : string → string → M unit) : M string :=
  match chunks with
  | [] => ret fullResponse
  | chunk :: rest =>
      let full := fullResponse +:+ chunk in
      body chunk full ;;; forAwait rest full body
  end.

(** [await] each computation in turn and collect the results. *)
Fixpoint mapM {A B} (f : A → M B) (xs : list A) : M (list B) :=
  match xs with
  | [] => ret []
  | x :: rest =>
      let* y := f x in
      let* ys := mapM f rest in
      ret (y :: ys)
  end.

(** A handler as the gateway runs it: whatever it returns is dropped. *)
Definition run {A} (m : M A) (w : World) : World * list Emission :=
  match m w with
  | (_, w', out) => (w', out)
  end.

(** ** redis.service.ts *)

Module RedisService.
Definition userKey (userId : string) : string := "user:" +:+ userId +:+ ":socket".
Definition socketKey (socketId : string) : string := "socket:" +:+ socketId +:+ ":user".

(** 24 hours, in seconds. *)
Definition ttl : Z := 86400.

Definition setUserOnline (userId socketId : string) (w : World) : World :=
  match redis w with
  | None => w
  | Some c =>
      match Redis.set (clock w) c (userKey userId) socketId ttl with
      | inl _ => w
      | inr c1 =>
          match Redis.set (clock w) c1 (socketKey socketId) userId ttl with
          | inl _ => withRedis w (Some c1)
          | inr c2 => withRedis w (Some c2)
          end
      end
  end.

Definition setUserOffline (userId : string) (w : World) : World :=
  match redis w with
  | None => w
  | Some c =>
      match Redis.get (clock w) c (userKey userId) with
      | inl _ => w
      | inr socketId =>
          let afterSocketKey :=
            match socketId with
            | Some s => if JS.truthy s then Redis.del c (socketKey s) else inr c
            | None => inr c
            end in
          match afterSocketKey with
          | inl _ => w
          | inr c1 =>
              match Redis.del c1 (userKey userId) with
              | inl _ => withRedis w (Some c1)
              | inr c2 => withRedis w (Some c2)
              end
          end
      end
  end.

Definition getUserBySocket (w : World) (socketId : string) : option string :=
  match redis w with
  | None => None
  | Some c =>
      match Redis.get (clock w) c (socketKey socketId) with
      | inl _ => None
      | inr v => v
      end
  end.

Definition getSocketByUser (w : World) (userId : string) : option string :=
  match redis w with
  | None => None
  | Some c =>
      match Redis.get (clock w) c (userKey userId) with
      | inl _ => None
      | inr v => v
      end
  end.

Definition isUserOnline (w : World) (userId : string) : bool :=
  match redis w with
  | None => false
  | Some c =>
      match Redis.get (clock w) c (userKey userId) with
      | inl _ => false
      | inr socketId => JS.truthyOpt socketId
      end
  end.
End RedisService.

(** ** A socket.io connection as the gateway sees it *)

(** What [auth.api.getSession] answers for the handshake headers. *)
Inductive SessionLookup :=
| SessionThrows
| NoSession
| SessionOf (userId : string).

Module Socket.
Record t := Make {
  id : string;
  handshake : SessionLookup;
  (** [client.data.userId] *)
  userId : option string;
  connected : bool }.

Definition setUserId (c : t) (u : string) : t :=
  Make (id c) (handshake c) (Some u) (connected c).

Definition disconnect (c : t) : t :=
  Make (id c) (handshake c) (userId c) false.

(** A socket that has just connected. *)
Definition incoming (sid : string) (session : SessionLookup) : t :=
  Make sid session None true.

(** [client.data.userId] when it passes the [if (!userId)] guards. *)
Definition authenticated (c : t) : option string :=
  match userId c with
  | Some u => if JS.truthy u then Some u else None
  | None => None
  end.
End Socket.

Definition getSession (h : SessionLookup) : M (option string) :=
  match h with
  | SessionThrows => throw SessionError
  | NoSession => ret None
  | SessionOf u => ret (Some u)
  end.

(** ** chat.service.ts *)

Module ChatService.
Definition sendMessage (fromUserId toUserId content : string)
    (isAIGenerated : bool) : M Db.message :=
  statement (Db.insertMessage fromUserId toUserId content isAIGenerated).
End ChatService.

(** ** groups.service.ts and group-ai-init.service.ts *)

Module GroupsService.
(** A row of [getGroupMembers]: the member joined with its profile. *)
Record member := Member {
  memberId : string;
  userId : string;
  isAdmin : bool;
  joinedAt : Z;
  notificationsMuted : bool;
  username : string;
  displayName : string }.

Definition membersOf (groupId : string) (t : Db.tables) : list Db.groupMember :=
  filter (fun m => Db.mb_groupId m = groupId) (Db.groupMembers t).

Definition isUserInGroup (groupId user : string) : M bool :=
  select (fun t =>
    match filter (fun m => Db.mb_userId m = user) (membersOf groupId t) with
    | [] => false
    | _ :: _ => true
    end).

(** The left join on [user_profile], whose key is the user id. *)
Definition joinProfile (t : Db.tables) (m : Db.groupMember) : member :=
  let profile :=
    head (filter (fun p => Db.up_userId p = Db.mb_userId m) (Db.userProfile t)) in
  Member (Db.mb_id m) (Db.mb_userId m) (Db.mb_isAdmin m) (Db.mb_joinedAt m)
         (Db.mb_notificationsMuted m)
         (from_option Db.up_username "" profile)
         (from_option Db.up_displayName "" profile).

Definition getGroupMembers (groupId : string) : M (list member) :=
  let* group := select (fun t => head (filter (fun g => Db.g_id g = groupId) (Db.groups t))) in
  match group with
  | None => throw (NotFoundException "Group not found")
  | Some _ => select (fun t => joinProfile t <$> membersOf groupId t)
  end.
End GroupsService.

Module GroupAIInitService.
Definition getGroupAIUserId (groupId : string) : string := "group-ai-" +:+ groupId.
End GroupAIInitService.

(** ** group-message.service.ts *)

Module GroupMessageService.
(** [\w] *)
Definition isWordChar (a : ascii) : bool :=
  let n := nat_of_ascii a in
  ((48 <=? n) && (n <=? 57) || (65 <=? n) && (n <=? 90)
   || (97 <=? n) && (n <=? 122) || (n =? 95))%nat.

Definition flush (cur : option string) : list string :=
  match cur with
  | Some name => if JS.truthy name then [name] else []
  | None => []
  end.

Definition afterAt (a : ascii) : option string :=
  if decide (a = "@"%char) then Some "" else None.

(** The successive matches of [/@(\w+)/g]: [cur] is the name being read
    after an [@]. *)
Fixpoint scanMentions (s : string) (cur : option string) : list string :=
  match s with
  | EmptyString => flush cur
  | String a rest =>
      match cur with
      | Some name =>
          if isWordChar a
          then scanMentions rest (Some (name +:+ String a ""))
          else flush cur ++ scanMentions rest (afterAt a)
      | None => scanMentions rest (afterAt a)
      end
  end.

(** [[...new Set(xs)]]: first occurrences, in order. *)
Definition unique (xs : list string) : list string :=
  foldl (fun seen x => if decide (x ∈ seen) then seen else seen ++ [x]) [] xs.

Definition extractMentions (content : string) : list string :=
  unique (scanMentions content None).

Definition sendGroupMessage (groupId fromUserId content : string)
    (isAIGenerated : bool) : M Db.groupMessage :=
  let mentionedUserIds := extractMentions content in
  statement (Db.insertGroupMessage groupId fromUserId content isAIGenerated
               mentionedUserIds).
End GroupMessageService.

(** ** Style analysis

    The feature extraction of ai-style-analysis.service.ts and
    group-ai-style-analysis.service.ts (phrase counts, emoji histogram, mean
    length, tone percentages in floating point) is a pure function of the
    messages; the services receive it by injection and nothing below depends
    on which features it finds. *)

Class StyleAnalyzer := {
  (** [analyzeMessages] on the (content, timestamp) of each message *)
  analyzeMessages : list (string * Z) → Db.styleAnalysis;
  (** [analyzeGroupMessages]: the analysis and [memberContributions] *)
  analyzeGroupMessages : list Db.groupMessage → Db.styleAnalysis * list (string * Z) }.

(** The analyzer that extracts nothing ([getEmptyAnalysis]). *)
Definition emptyAnalyzer : StyleAnalyzer :=
  {| analyzeMessages := fun _ => Db.emptyAnalysis;
     analyzeGroupMessages := fun _ => (Db.emptyAnalysis, []) |}.

Definition newline : string := String (ascii_of_nat 10) "".

Definition describeEmoji (e : string * Z) : string :=
  e.1 +:+ " (" +:+ pretty e.2 +:+ " times)".

Definition toneDescriptions (t : Db.tone) : list string :=
  (if (30 <? Db.casual t)%Z then [pretty (Db.casual t) +:+ "% casual"] else [])
  ++ (if (30 <? Db.formal t)%Z then [pretty (Db.formal t) +:+ "% formal"] else [])
  ++ (if (30 <? Db.enthusiastic t)%Z
      then [pretty (Db.enthusiastic t) +:+ "% enthusiastic"] else []).

(** [parts.push(label + xs.join(', '))] guarded by [xs.length > 0]. *)
Definition listedLine (label : string) (xs : list string) : list string :=
  match xs with
  | [] => []
  | _ :: _ => [label +:+ JS.join ", " xs]
  end.

(** ** style-profile.service.ts *)

Module StyleProfileService.
Definition UPDATE_INTERVAL : Z := 10.

Definition generateStylePrompt (analysis : Db.styleAnalysis) : string :=
  JS.join newline
    (["You are mimicking the chat style of a user. Here are their characteristics:"; ""]
     ++ listedLine "Common phrases: " (Db.commonPhrases analysis)
     ++ listedLine "Frequently used emojis: "
          (describeEmoji <$> take 10 (Db.emojiUsage analysis))
     ++ ["Average message length: "
           +:+ pretty (Db.averageMessageLength analysis) +:+ " characters"]
     ++ listedLine "Tone: " (toneDescriptions (Db.toneIndicators analysis))
     ++ [""; "Respond to messages in this user's style, keeping responses natural and conversational."]).

Definition getStyleProfile (userId : string) : M (option Db.styleProfile) :=
  select (fun t => head (filter (fun p => Db.sp_userId p = userId) (Db.styleProfiles t))).

(** The user's own messages that are not model-generated. *)
Definition sentDirect (userId : string) (t : Db.tables) : list Db.message :=
  filter (fun m => Db.fromUserId m = userId ∧ Db.isAIGenerated m = false)
         (Db.messages t).

Definition sentInGroups (userId : string) (t : Db.tables) : list Db.groupMessage :=
  filter (fun m => Db.gm_fromUserId m = userId ∧ Db.gm_isAIGenerated m = false)
         (Db.groupMessages t).

Definition shouldUpdateProfile (userId : string) : M bool :=
  let* profile := getStyleProfile userId in
  match profile with
  | None => ret true
  | Some profile =>
      let* userDirectMessages := select (sentDirect userId) in
      let* userGroupMessages := select (sentInGroups userId) in
      let currentCount :=
        (Z.of_nat (length userDirectMessages) + Z.of_nat (length userGroupMessages))%Z in
      let lastCount := Db.sp_messageCount profile in
      ret (lastCount + 10 <=? currentCount)%Z
  end.

Definition updateStyleProfile `{StyleAnalyzer} (userId : string) : M Db.styleProfile :=
  let* userDirectMessages := select (fun t =>
    filter (fun m => (Db.fromUserId m = userId ∨ Db.toUserId m = userId)
                     ∧ Db.isAIGenerated m = false) (Db.messages t)) in
  let* userGroupMessages := select (sentInGroups userId) in
  let sentMessages :=
    ((fun m => (Db.content m, Db.timestamp m))
       <$> filter (fun m => Db.fromUserId m = userId) userDirectMessages)
    ++ ((fun m => (Db.gm_content m, Db.gm_timestamp m)) <$> userGroupMessages) in
  let analysis := analyzeMessages sentMessages in
  let stylePrompt := generateStylePrompt analysis in
  let* existingProfile := select (fun t =>
    take 1 (filter (fun p => Db.sp_userId p = userId) (Db.styleProfiles t))) in
  let* now := gets clock in
  let profileData :=
    Db.StyleProfile userId (Z.of_nat (length sentMessages)) analysis
                    (Some stylePrompt) now in
  match existingProfile with
  | _ :: _ =>
      statement (fun t _ =>
        (profileData,
         Db.withStyleProfiles t
           ((fun p => if decide (Db.sp_userId p = userId) then profileData else p)
              <$> Db.styleProfiles t)))
  | [] =>
      statement (fun t _ =>
        (profileData, Db.withStyleProfiles t (Db.styleProfiles t ++ [profileData])))
  end.

Definition resetStyleProfile (userId : string) : M unit :=
  statement (fun t now =>
    (tt, Db.withStyleProfiles t
           ((fun p => if decide (Db.sp_userId p = userId)
                      then Db.StyleProfile userId 0 Db.emptyAnalysis (Some "") now
                      else p) <$> Db.styleProfiles t))).
End StyleProfileService.

(** ** group-ai-profile.service.ts *)

Module GroupAIProfileService.
Definition UPDATE_INTERVAL : Z := 20.

(** The group's messages that are not model-generated. *)
Definition eligible (groupId : string) (t : Db.tables) : list Db.groupMessage :=
  filter (fun m => Db.gm_groupId m = groupId ∧ Db.gm_isAIGenerated m = false)
         (Db.groupMessages t).

Definition withMessageCount (p : Db.groupStyleProfile) (n : Z) : Db.groupStyleProfile :=
  Db.GroupStyleProfile (Db.gsp_groupId p) n (Db.gsp_memberContributions p)
    (Db.gsp_analysis p) (Db.gsp_stylePrompt p) (Db.gsp_lastUpdated p).

Definition storedProfile (groupId : string) (t : Db.tables) : option Db.groupStyleProfile :=
  head (filter (fun p => Db.gsp_groupId p = groupId) (Db.groupStyleProfiles t)).

Definition getGroupStyleProfile (groupId : string) : M (option Db.groupStyleProfile) :=
  let* profile := select (storedProfile groupId) in
  match profile with
  | None => ret None
  | Some profile =>
      let* messages := select (eligible groupId) in
      ret (Some (withMessageCount profile (Z.of_nat (length messages))))
  end.

Definition shouldUpdateProfile (groupId : string) : M bool :=
  let* profile := getGroupStyleProfile groupId in
  let* messages := select (eligible groupId) in
  let currentCount := Z.of_nat (length messages) in
  match profile with
  | None => ret (UPDATE_INTERVAL <=? currentCount)%Z
  | Some profile =>
      let lastCount := Db.gsp_messageCount profile in
      ret (lastCount + UPDATE_INTERVAL <=? currentCount)%Z
  end.

Definition generateGroupStylePrompt (analysis : Db.styleAnalysis)
    (members : list Db.userProfileRow) : string :=
  JS.join newline
    (["You are an AI member of a group chat. You should mimic the collective chat style of the group members."; ""]
     ++ match members with
        | [] => []
        | _ :: _ =>
            ["Group has " +:+ pretty (length members) +:+ " members: "
               +:+ JS.join ", " (Db.up_displayName <$> members); ""]
        end
     ++ listedLine "Common group phrases: " (Db.commonPhrases analysis)
     ++ listedLine "Frequently used emojis: "
          (describeEmoji <$> take 10 (Db.emojiUsage analysis))
     ++ ["Average message length: "
           +:+ pretty (Db.averageMessageLength analysis) +:+ " characters"]
     ++ listedLine "Group tone: " (toneDescriptions (Db.toneIndicators analysis))
     ++ [""; "Respond naturally as a member of this group, reflecting the group's collective style."]).

Definition updateGroupStyleProfile `{StyleAnalyzer} (groupId : string)
    : M Db.groupStyleProfile :=
  let* messages := select (eligible groupId) in
  let '(analysis, memberContributions) := analyzeGroupMessages messages in
  let memberIds := fst <$> memberContributions in
  let* found := mapM (fun memberId =>
    select (fun t => head (filter (fun p => Db.up_userId p = memberId) (Db.userProfile t))))
    memberIds in
  let allMembers := omap (fun m => m) found in
  let stylePrompt := generateGroupStylePrompt analysis allMembers in
  let* existingProfile := select (fun t =>
    take 1 (filter (fun p => Db.gsp_groupId p = groupId) (Db.groupStyleProfiles t))) in
  let* now := gets clock in
  let profileData :=
    Db.GroupStyleProfile groupId (Z.of_nat (length messages)) memberContributions
                         analysis (Some stylePrompt) now in
  match existingProfile with
  | _ :: _ =>
      statement (fun t _ =>
        (profileData,
         Db.withGroupStyleProfiles t
           ((fun p => if decide (Db.gsp_groupId p = groupId) then profileData else p)
              <$> Db.groupStyleProfiles t)))
  | [] =>
      statement (fun t _ =>
        (profileData,
         Db.withGroupStyleProfiles t (Db.groupStyleProfiles t ++ [profileData])))
  end.
End GroupAIProfileService.

(** ** The provider's client *)

Module OpenAI.
(** [chat.completions.create({ messages: [system, user], stream: true })]. *)
Definition create (system user : string) : M Completion := fun w =>
  let calls := openaiCalls w ++ [(system, user)] in
  match openaiReplies w with
  | [] => (inl ProviderError, withOpenai w [] calls, [])
  | reply :: rest => (inr reply, withOpenai w rest calls, [])
  end.

(** What [if (content) yield content] lets through of a stream. *)
Definition contents (c : Completion) : list string :=
  filter (fun s => JS.truthy s = true) (omap (fun d => d) (deltas c)).
End OpenAI.

(** [try { stream = create(..); for await (chunk of stream) yield .. }
     catch { yield apology }]: what is yielded. *)
Definition streamOrApologise (stylePrompt userMessage apology : string) : M (list string) :=
  let* stream := tryCatch (let* s := OpenAI.create stylePrompt userMessage in ret (Some s))
                          (fun _ => ret None) in
  match stream with
  | None => ret [apology]
  | Some s => ret (OpenAI.contents s ++ (if fails s then [apology] else []))
  end.

Definition APOLOGY : string := "Oops! Something went wrong. Let's try that again!".

(** ** ai-friend.service.ts *)

Module AIFriendService.
Definition AI_FRIEND_USER_ID : string := "kirhost".
Definition MINIMUM_MESSAGES_REQUIRED : Z := 10.

Definition STILL_LEARNING : string :=
  "I'm still learning your chat style! Keep chatting with your friends, and after 10 messages, I'll be able to chat just like you! 😊".
Definition STILL_ANALYZING : string :=
  "I'm still analyzing your chat style. Send me a few more messages!".

Definition hasMinimumData (userId : string) : M bool :=
  let* profile := StyleProfileService.getStyleProfile userId in
  match profile with
  | None => ret false
  | Some profile => ret (MINIMUM_MESSAGES_REQUIRED <=? Db.sp_messageCount profile)%Z
  end.

(** The chunks the generator yields, in order. *)
Definition generateAIResponseStream (userId userMessage : string) : M (list string) :=
  let* enough := hasMinimumData userId in
  if negb enough then ret [STILL_LEARNING]
  else
    let* styleProfile := StyleProfileService.getStyleProfile userId in
    match styleProfile ≫= Db.sp_stylePrompt with
    | None => ret [STILL_ANALYZING]
    | Some stylePrompt =>
        if JS.truthy stylePrompt
        then streamOrApologise stylePrompt userMessage APOLOGY
        else ret [STILL_ANALYZING]
    end.

Definition getAIFriendUserId : string := AI_FRIEND_USER_ID.
End AIFriendService.

(** ** group-ai.service.ts *)

Module GroupAIService.
Definition MINIMUM_MESSAGES_REQUIRED : Z := 20.

Definition STILL_LEARNING : string :=
  "I'm still learning your group's chat style! Keep chatting, and after 20 messages, I'll be able to chat just like you all! ðŸ˜Š".
Definition STILL_ANALYZING : string :=
  "I'm still analyzing your group's chat style. Send a few more messages!".

Definition hasMinimumData (groupId : string) : M bool :=
  let* profile := GroupAIProfileService.getGroupStyleProfile groupId in
  match profile with
  | None => ret false
  | Some profile => ret (MINIMUM_MESSAGES_REQUIRED <=? Db.gsp_messageCount profile)%Z
  end.

Definition generateGroupAIResponseStream (groupId userMessage : string)
    : M (list string) :=
  let* enough := hasMinimumData groupId in
  if negb enough then ret [STILL_LEARNING]
  else
    let* styleProfile := GroupAIProfileService.getGroupStyleProfile groupId in
    match styleProfile ≫= Db.gsp_stylePrompt with
    | None => ret [STILL_ANALYZING]
    | Some stylePrompt =>
        if JS.truthy stylePrompt
        then streamOrApologise stylePrompt userMessage APOLOGY
        else ret [STILL_ANALYZING]
    end.

Definition sendGroupAIMessage (groupId content : string) : M Db.groupMessage :=
  let aiUserId := GroupAIInitService.getGroupAIUserId groupId in
  GroupMessageService.sendGroupMessage groupId aiUserId content true.
End GroupAIService.

(** ** events.gateway.ts *)

Module Gateway.
Definition handleConnection (client : Socket.t) : M Socket.t :=
  tryCatch
    (let* session := getSession (Socket.handshake client) in
     match session with
     | None => ret (Socket.disconnect client)
     | Some userId =>
         let client := Socket.setUserId client userId in
         modify (RedisService.setUserOnline userId (Socket.id client)) ;;;
         emit ToAll "user:status" (Status userId "online") ;;;
         ret client
     end)
    (fun _ => ret (Socket.disconnect client)).

Definition handleDisconnect (client : Socket.t) : M unit :=
  match Socket.authenticated client with
  | Some userId =>
      modify (RedisService.setUserOffline userId) ;;;
      emit ToAll "user:status" (Status userId "offline")
  | None => ret tt
  end.

Definition emitToUser (userId event : string) (data : Payload) : M bool :=
  let* socketId := gets (fun w => RedisService.getSocketByUser w userId) in
  match socketId with
  | Some socketId =>
      if JS.truthy socketId
      then emit (ToRoom socketId) event data ;;; ret true
      else ret false
  | None => ret false
  end.

Definition handleMessageSend (client : Socket.t) (toUserId content : string) : M unit :=
  match Socket.authenticated client with
  | None => ret tt
  | Some fromUserId =>
      tryCatch
        (let* message := ChatService.sendMessage fromUserId toUserId content false in
         spawn (StyleUpdate fromUserId) ;;;
         let* sent := emitToUser toUserId "message:receive" (DirectMessage message) in
         emit (ToClient (Socket.id client)) "message:sent" (DirectMessage message))
        (fun _ =>
           emit (ToClient (Socket.id client)) "message:error"
                (ErrorMsg "Failed to send message"))
  end.

Definition handleCheckStatus (client : Socket.t) (userIds : list string) : M unit :=
  match Socket.authenticated client with
  | None => ret tt
  | Some _ =>
      tryCatch
        (let* statuses := mapM (fun userId =>
           let* isOnline := gets (fun w => RedisService.isUserOnline w userId) in
           ret (userId, if isOnline then "online" else "offline")) userIds in
         emit (ToClient (Socket.id client)) "user:status-batch" (StatusBatch statuses))
        (fun _ => ret tt)
  end.

Definition handleAIFriendMessage (client : Socket.t) (content : string) : M unit :=
  match Socket.authenticated client with
  | None => ret tt
  | Some userId =>
      let me := ToClient (Socket.id client) in
      tryCatch
        (let AI_FRIEND_USER_ID := AIFriendService.getAIFriendUserId in
         let* userMessage :=
           ChatService.sendMessage userId AI_FRIEND_USER_ID content false in
         emit me "ai-friend:user-message-sent" (DirectMessage userMessage) ;;;
         spawn (StyleUpdate userId) ;;;
         emit me "ai-friend:stream-start" (StreamStart (Db.id userMessage)) ;;;
         let* chunks := AIFriendService.generateAIResponseStream userId content in
         let* fullResponse := forAwait chunks "" (fun chunk fullResponse =>
           emit me "ai-friend:stream-chunk" (StreamChunk chunk fullResponse)) in
         let* aiMessage :=
           ChatService.sendMessage AI_FRIEND_USER_ID userId fullResponse true in
         emit me "ai-friend:stream-end" (StreamEnd aiMessage))
        (fun _ =>
           emit me "ai-friend:error" (ErrorMsg "Failed to generate AI response"))
  end.

(** [for (const member of groupMembers) await emitToUser(member.userId, ..)],
    skipping [except] when given. *)
Definition emitToMembers (groupMembers : list GroupsService.member)
    (except : option string) (event : string) (data : Payload) : M unit :=
  forEach groupMembers (fun member =>
    if decide (Some (GroupsService.userId member) = except) then ret tt
    else let* _ := emitToUser (GroupsService.userId member) event data in ret tt).

Definition handleGroupMessageSend (client : Socket.t) (groupId content : string)
    : M unit :=
  match Socket.authenticated client with
  | None => ret tt
  | Some fromUserId =>
      let me := ToClient (Socket.id client) in
      tryCatch
        (let* isMember := GroupsService.isUserInGroup groupId fromUserId in
         if negb isMember
         then emit me "group:message:error"
                   (ErrorMsg "You are not a member of this group")
         else
           let* message :=
             GroupMessageService.sendGroupMessage groupId fromUserId content false in
           let* groupMembers := GroupsService.getGroupMembers groupId in
           emitToMembers groupMembers (Some fromUserId) "group:message:receive"
                         (GroupMsg message) ;;;
           emit me "group:message:sent" (GroupMsg message) ;;;
           spawn (GroupStyleUpdate groupId))
        (fun _ => emit me "group:message:error" (ErrorMsg "Failed to send message"))
  end.

Definition handleGroupAIMention `{StyleAnalyzer} (client : Socket.t)
    (groupId content : string) : M unit :=
  match Socket.authenticated client with
  | None => ret tt
  | Some mentionedBy =>
      let me := ToClient (Socket.id client) in
      tryCatch
        (let* isMember := GroupsService.isUserInGroup groupId mentionedBy in
         if negb isMember
         then emit me "group:ai:error" (ErrorMsg "You are not a member of this group")
         else
           let* shouldUpdate := GroupAIProfileService.shouldUpdateProfile groupId in
           (if shouldUpdate
            then let* _ := GroupAIProfileService.updateGroupStyleProfile groupId in ret tt
            else ret tt) ;;;
           let* groupMembers := GroupsService.getGroupMembers groupId in
           let* now := gets clock in
           let messageId := "temp-" +:+ pretty now in
           emitToMembers groupMembers None "group:ai:stream-start"
                         (GroupStreamStart groupId messageId) ;;;
           let* chunks :=
             GroupAIService.generateGroupAIResponseStream groupId content in
           let* fullResponse := forAwait chunks "" (fun chunk fullResponse =>
             emitToMembers groupMembers None "group:ai:stream-chunk"
                           (GroupStreamChunk groupId chunk fullResponse)) in
           let* aiMessage := GroupAIService.sendGroupAIMessage groupId fullResponse in
           emitToMembers groupMembers None "group:ai:stream-end"
                         (GroupStreamEnd groupId aiMessage))
        (fun _ => emit me "group:ai:error" (ErrorMsg "Failed to generate AI response"))
  end.

(** The promise a handler started, when the event loop gets to it:
    [shouldUpdateProfile(..).then(update).catch(log)]. *)
Definition runTask `{StyleAnalyzer} (task : Task) : M unit :=
  tryCatch
    match task with
    | StyleUpdate userId =>
        let* shouldUpdate := StyleProfileService.shouldUpdateProfile userId in
        if shouldUpdate
        then let* _ := StyleProfileService.updateStyleProfile userId in ret tt
        else ret tt
    | GroupStyleUpdate groupId =>
        let* shouldUpdate := GroupAIProfileService.shouldUpdateProfile groupId in
        if shouldUpdate
        then let* _ := GroupAIProfileService.updateGroupStyleProfile groupId in ret tt
        else ret tt
    end
    (fun _ => ret tt).
End Gateway.

(** ** What the specification's sentences say, in its own words *)

(** §4.4 and §8: a recompute is due iff
    [currentCount - lastComputedCount >= INTERVAL]. *)
Definition specShouldRecompute (interval currentCount lastComputedCount : Z) : bool :=
  (interval <=? currentCount - lastComputedCount)%Z.

(** The presence registry's events.  [Deregister u h] is the disconnect of
    the socket [h] that had authenticated as [u]. *)
Inductive PresenceEvent :=
| Register (userId handle : string)
| Deregister (userId handle : string).

Definition eventUser (ev : PresenceEvent) : string :=
  match ev with
  | Register u _ | Deregister u _ => u
  end.

Definition eventHandle (ev : PresenceEvent) : string :=
  match ev with
  | Register _ h | Deregister _ h => h
  end.

(** §8: the handle [u] is online with, when a deregister counts only if it
    is for the handle of the most recent register (or a newer one, of which
    there is none). *)
Definition specHandleStep (u : string) (cur : option string) (ev : PresenceEvent)
    : option string :=
  match ev with
  | Register v h => if decide (v = u) then Some h else cur
  | Deregister v h =>
      if decide (v = u) then (if decide (cur = Some h) then None else cur) else cur
  end.

Definition specIsOnline (evs : list PresenceEvent) (u : string) : bool :=
  bool_decide (is_Some (foldl (specHandleStep u) None evs)).

(** The gateway's reaction to a presence event. *)
Definition applyEvent (w : World) (ev : PresenceEvent) : World :=
  match ev with
  | Register u h =>
      (run (Gateway.handleConnection (Socket.incoming h (SessionOf u))) w).1
  | Deregister u h =>
      (run (Gateway.handleDisconnect (Socket.Make h (SessionOf u) (Some u) true)) w).1
  end.

(** Events that follow each other within one instant: the clock does not
    move.  [happenAll] below lets time pass between them. *)
Definition applyEvents (evs : list PresenceEvent) (w : World) : World :=
  foldl applyEvent w evs.

(** The most recent event about [u]. *)
Definition lastFor (u : string) (evs : list PresenceEvent) : option PresenceEvent :=
  last (filter (fun ev => eventUser ev = u) evs).

(** Socket and user ids are never empty. *)
Definition wellFormed (ev : PresenceEvent) : Prop :=
  JS.truthy (eventUser ev) = true ∧ JS.truthy (eventHandle ev) = true.

(** ** Observations on a trace *)

(** The [chunk] field of a stream-chunk payload. *)
Definition chunkOf (p : Payload) : option string :=
  match p with
  | StreamChunk chunk _ => Some chunk
  | GroupStreamChunk _ chunk _ => Some chunk
  | _ => None
  end.

(** The chunks socket [s] is sent under the name [ev], in emission order. *)
Definition chunksReceived (s ev : string) (trace : list Emission) : list string :=
  omap chunkOf (receivedBy s ev trace).

(** The handle the registry resolves [userId] to, when [emitToUser] would
    use it. *)
Definition onlineHandle (w : World) (userId : string) : option string :=
  match RedisService.getSocketByUser w userId with
  | Some s => if JS.truthy s then Some s else None
  | None => None
  end.

(** Whether the next database statement throws. *)
Definition nextFault (w : World) : bool :=
  match dbFaults w with
  | f :: _ => f
  | [] => false
  end.

(** The user's eligible message count, as [shouldUpdateProfile] counts it. *)
Definition userCurrentCount (t : Db.tables) (userId : string) : Z :=
  (Z.of_nat (length (StyleProfileService.sentDirect userId t))
   + Z.of_nat (length (StyleProfileService.sentInGroups userId t)))%Z.

Definition storedUserProfile (t : Db.tables) (userId : string) : option Db.styleProfile :=
  head (filter (fun p => Db.sp_userId p = userId) (Db.styleProfiles t)).

Definition groupCurrentCount (t : Db.tables) (groupId : string) : Z :=
  Z.of_nat (length (GroupAIProfileService.eligible groupId t)).

(** ** Derived notions and the example worlds used below *)

(** Worlds with a healthy, configured store and nothing else. *)
Definition blankWorld (t : Db.tables) : World :=
  {| redis := Some Redis.fresh; clock := 0; db := t; dbFaults := [];
     openaiReplies := []; openaiCalls := []; background := [] |}.

(** [n] direct messages written by [u]. *)
Definition directFrom (u : string) (n : nat) : list Db.message :=
  replicate n (Db.Message "m" u "friend" "hello" 0 false false).

(** A user who has sent nine messages and has no profile row yet. *)
Definition nineNoProfile : World :=
  blankWorld (Db.Tables (directFrom "u" 9) [] [] [] [] [] [] 9).

(** A user whose profile was computed on no message and who has sent [n]. *)
Definition sentSinceEmptyProfile (n : nat) : World :=
  blankWorld (Db.Tables (directFrom "u" n) []
                [Db.StyleProfile "u" 0 Db.emptyAnalysis (Some "prompt") 0]
                [] [] [] [] (N.of_nat n)).

(** The count recorded at the last recompute; none recorded counts as 0. *)
Definition userLastCount (t : Db.tables) (u : string) : Z :=
  from_option Db.sp_messageCount 0%Z (storedUserProfile t u).

(** A group whose row still holds the count 0 of its creation and which has
    twenty-one messages by now. *)
Definition staleGroupProfile : World :=
  blankWorld (Db.Tables [] (replicate 21 (Db.GroupMessage "m" "g" "u" "hi" 0 false []))
                [] [Db.GroupStyleProfile "g" 0 [] Db.emptyAnalysis None 0]
                [] [] [] 21).

(** The generator yields the single chunk [canned], returns, and has not
    called the provider. *)
Definition cannedOnly (gen : M (list string)) (w : World) (canned : string) : Prop :=
  ∃ w', gen w = (inr [canned], w', []) ∧ openaiCalls w' = openaiCalls w.

(** A gateway started without the Redis configuration. *)
Definition noRedis : World :=
  {| redis := None; clock := 0; db := Db.empty; dbFaults := [];
     openaiReplies := []; openaiCalls := []; background := [] |}.

(** The error event of [handleMessageSend]. *)
Definition messageError (client : Socket.t) : Emission :=
  Emit (ToClient (Socket.id client)) "message:error" (ErrorMsg "Failed to send message").

(** Alice's admitted socket. *)
Definition aliceSocket : Socket.t := Socket.Make "s1" (SessionOf "alice") (Some "alice") true.

(** Alice on socket s1 and Bob on socket s2, both registered. *)
Definition twoOnline : World :=
  applyEvents [Register "alice" "s1"; Register "bob" "s2"] (blankWorld Db.empty).

(** The same, with a database whose next statement throws. *)
Definition twoOnlineDbDown : World := withDb twoOnline Db.empty [true].

(** The world after a database statement that left the tables alone. *)
Definition advance (w : World) : World := withDb w (db w) (tail (dbFaults w)).

(** What [emitToMembers] emits in world [w]. *)
Definition emitsTo (w : World) (groupMembers : list GroupsService.member)
    (except : option string) (ev : string) (d : Payload) : list Emission :=
  omap (fun member =>
          if decide (Some (GroupsService.userId member) = except) then None
          else (fun s => Emit (ToRoom s) ev d) <$> onlineHandle w (GroupsService.userId member))
       groupMembers.

(** Bob's membership of the group g. *)
Definition bobRow : Db.groupMember := Db.GroupMember "m2" "g" "bob" false 0 false.

(** A group of Alice, Bob and Carol; Alice and Bob are connected. *)
Definition groupWorld : World :=
  applyEvents [Register "alice" "s1"; Register "bob" "s2"]
    (blankWorld (Db.Tables [] [] [] [] [Db.Group "g" "friends"]
                   [Db.GroupMember "m1" "g" "alice" true 0 false; bobRow;
                    Db.GroupMember "m3" "g" "carol" false 0 false]
                   [] 0)).

(** The store is configured and its endpoint answers. *)
Definition configured (w : World) : Prop :=
  ∃ c, redis w = Some c ∧ Redis.reachable c = true.

(** Bob reconnects on socket s2 before his first socket s1 disconnects. *)
Definition reconnectRace : list PresenceEvent :=
  [Register "bob" "s1"; Register "bob" "s2"; Deregister "bob" "s1"].

(** Bob registered at time 0. *)
Definition bobRegistered : World :=
  applyEvents [Register "bob" "s1"] (blankWorld Db.empty).

(** A computation that emits nothing and leaves the registry and the clock
    as they were, however it ends. *)
Definition Quiet {A} (m : M A) : Prop :=
  ∀ w r w' out, m w = (r, w', out) →
    out = [] ∧ redis w' = redis w ∧ clock w' = clock w.

(** The payloads of the chunk events of a stream: each chunk with the
    response accumulated so far. *)
Fixpoint chunkPayloads (mk : string → string → Payload) (fullResponse : string)
    (chunks : list string) : list Payload :=
  match chunks with
  | [] => []
  | chunk :: rest =>
      mk chunk (fullResponse +:+ chunk)
      :: chunkPayloads mk (fullResponse +:+ chunk) rest
  end.

(** How many of the member rows [ms] resolve to socket [s]. *)
Definition rowsOn (w : World) (ms : list GroupsService.member) (s : string) : nat :=
  length (filter (fun m => onlineHandle w (GroupsService.userId m) = Some s) ms).

(** Alice has a style model computed on twelve messages; the provider will
    answer her next request with the given completion. *)
Definition aliceAsks (reply : Completion) : World :=
  {| redis := Some Redis.fresh; clock := 0;
     db := Db.Tables [] [] [Db.StyleProfile "alice" 12 Db.emptyAnalysis (Some "be alice") 0]
             [] [] [] [] 0;
     dbFaults := []; openaiReplies := [reply]; openaiCalls := []; background := [] |}.


(** The provider streams "Hel", then throws. *)
Definition failsAfterHel : World :=
  aliceAsks {| deltas := [Some "Hel"]; fails := true |}.

(** The provider's answer to the next call throws: at once when it has no
    reply, else after the deltas of the reply. *)
Definition nextReplyFails (w : World) : Prop :=
  match openaiReplies w with
  | [] => True
  | reply :: _ => fails reply = true
  end.

(** The chunks the next call delivers before it ends. *)
Definition nextReplyContents (w : World) : list string :=
  match openaiReplies w with
  | [] => []
  | reply :: _ => OpenAI.contents reply
  end.

(** ** Time, and the rest of the system

    Events of the registry do not follow each other in an instant, and a
    handler is not alone: while it is suspended at an [await], other
    sockets register and disconnect, and time passes. *)

(** One thing that happens to the registry: a presence event, or [ms]
    milliseconds passing. *)
Inductive Happening :=
| Presence (ev : PresenceEvent)
| Elapse (ms : N).

Definition happen (w : World) (h : Happening) : World :=
  match h with
  | Presence ev => applyEvent w ev
  | Elapse ms => withClock w (clock w + Z.of_N ms)
  end.

Definition happenAll (hs : list Happening) (w : World) : World := foldl happen w hs.

Definition wellFormedHappening (h : Happening) : Prop :=
  match h with
  | Presence ev => wellFormed ev
  | Elapse _ => True
  end.

(** The most recent presence event about [u] so far, and the milliseconds
    that have passed since. *)
Definition lastSeenStep (u : string) (seen : option (PresenceEvent * Z)) (h : Happening)
    : option (PresenceEvent * Z) :=
  match h with
  | Presence ev => if decide (eventUser ev = u) then Some (ev, 0%Z) else seen
  | Elapse ms => (fun '(ev, since) => (ev, (since + Z.of_N ms)%Z)) <$> seen
  end.

Definition lastSeen (u : string) (hs : list Happening) : option (PresenceEvent * Z) :=
  foldl (lastSeenStep u) None hs.

(** 24 hours, in milliseconds. *)
Definition DAY : Z := 86400000.

(** What the store holds under the key of user [u]. *)
Definition userEntry (w : World) (u : string) : option Redis.entry :=
  redis w ≫= fun c => Redis.kv c !! RedisService.userKey u.

(** Bob registers, disconnects a second later, registers again on another
    socket, and a day less a millisecond goes by. *)
Definition bobsDay : list Happening :=
  [Presence (Register "bob" "s1"); Elapse 1000; Presence (Deregister "bob" "s1");
   Presence (Register "bob" "s2"); Elapse 86399999].

(** The registry and the time: what the other connections change. *)
Definition Registry : Type := option Redis.client * Z.

Definition registry (w : World) : Registry := (redis w, clock w).

Definition withRegistry (w : World) (r : Registry) : World :=
  withClock (withRedis w r.1) r.2.

(** A registry on its own, and what happenings make of it. *)
Definition bare (r : Registry) : World := withRegistry noRedis r.

Definition registryAfter (hs : list Happening) (r : Registry) : Registry :=
  registry (happenAll hs (bare r)).

(** The world a suspended handler finds when it resumes: the others have
    made of the registry what [others] says. *)
Definition meanwhile (others : Registry → Registry) (w : World) : World :=
  withRegistry w (others (registry w)).

(** ** events.gateway.ts: the group agent's handler among other connections

    The handler of [group:ai:mention] again, suspended at each of its
    [await]s.  [emitToUser] reads the registry afresh for every member and
    every event, so what the handlers of the other sockets do to the
    registry while this one is suspended shows in what it emits; [others]
    is what they, and the passing of time, make of the registry during one
    suspension.  It is given the whole store and the clock, and so can tell
    one suspension from the next.  The database and the provider are left
    to this handler, as in [Gateway]. *)

Module Interleaved.
Definition await {A} (others : Registry → Registry) (m : M A) : M A :=
  modify (meanwhile others) ;;; m.

(** [for (const member of groupMembers) await emitToUser(member.userId, ..)]. *)
Definition emitToMembers (others : Registry → Registry)
    (groupMembers : list GroupsService.member) (event : string) (data : Payload) : M unit :=
  forEach groupMembers (fun member =>
    let* _ := await others (Gateway.emitToUser (GroupsService.userId member) event data) in
    ret tt).

(** [for await] suspends once for the generator's first chunk and once
    more after each chunk, for the next. *)
Definition handleGroupAIMention `{StyleAnalyzer} (others : Registry → Registry)
    (client : Socket.t) (groupId content : string) : M unit :=
  match Socket.authenticated client with
  | None => ret tt
  | Some mentionedBy =>
      let me := ToClient (Socket.id client) in
      tryCatch
        (let* isMember := await others (GroupsService.isUserInGroup groupId mentionedBy) in
         if negb isMember
         then emit me "group:ai:error" (ErrorMsg "You are not a member of this group")
         else
           let* shouldUpdate :=
             await others (GroupAIProfileService.shouldUpdateProfile groupId) in
           (if shouldUpdate
            then let* _ := await others
                             (GroupAIProfileService.updateGroupStyleProfile groupId) in
                 ret tt
            else ret tt) ;;;
           let* groupMembers := await others (GroupsService.getGroupMembers groupId) in
           let* now := gets clock in
           let messageId := "temp-" +:+ pretty now in
           emitToMembers others groupMembers "group:ai:stream-start"
                         (GroupStreamStart groupId messageId) ;;;
           let* chunks :=
             await others (GroupAIService.generateGroupAIResponseStream groupId content) in
           let* fullResponse := forAwait chunks "" (fun chunk fullResponse =>
             emitToMembers others groupMembers "group:ai:stream-chunk"
                           (GroupStreamChunk groupId chunk fullResponse) ;;;
             await others (ret tt)) in
           let* aiMessage :=
             await others (GroupAIService.sendGroupAIMessage groupId fullResponse) in
           emitToMembers others groupMembers "group:ai:stream-end"
                         (GroupStreamEnd groupId aiMessage))
        (fun _ => emit me "group:ai:error" (ErrorMsg "Failed to generate AI response"))
  end.
End Interleaved.

(** Nothing else happens. *)
Definition nobody : Registry → Registry := fun r => r.

(** What a fan-out emits from the world [w]: each member is looked up in
    the registry the others have left by then. *)
Fixpoint emitsAmid (others : Registry → Registry) (w : World)
    (ms : list GroupsService.member) (ev : string) (d : Payload) : list Emission :=
  match ms with
  | [] => []
  | member :: rest =>
      match onlineHandle (meanwhile others w) (GroupsService.userId member) with
      | Some s => [Emit (ToRoom s) ev d]
      | None => []
      end ++ emitsAmid others (meanwhile others w) rest ev d
  end.

(** The world after [n] suspensions in a row. *)
Definition resumed (others : Registry → Registry) (n : nat) (w : World) : World :=
  Nat.iter n (meanwhile others) w.

(** What the chunk loop emits from the world [w]. *)
Fixpoint roundsAmid (others : Registry → Registry) (w : World)
    (ms : list GroupsService.member) (ev : string) (ps : list Payload) : list Emission :=
  match ps with
  | [] => []
  | p :: rest =>
      emitsAmid others w ms ev p
      ++ roundsAmid others (resumed others (S (length ms)) w) ms ev rest
  end.

(** [w'] is [w] some suspensions later, as far as the registry goes. *)
Definition amid (others : Registry → Registry) (w w' : World) : Prop :=
  ∃ n, registry w' = registry (resumed others n w).

(** Whatever the others do, the users registered on socket [s] stay the
    same. *)
Definition steady (others : Registry → Registry) (s : string) (w : World) : Prop :=
  ∀ n u, onlineHandle (resumed others n w) u = Some s ↔ onlineHandle w u = Some s.

(** Alice and Bob are the members of a group that has twenty messages and
    a rendered prompt; Alice is connected on socket s1, Bob is not
    connected, and the provider will answer the next request with the given
    completion. *)
Definition groupAsks (reply : Completion) : World :=
  applyEvents [Register "alice" "s1"]
    {| redis := Some Redis.fresh; clock := 0;
       db := Db.Tables [] (replicate 20 (Db.GroupMessage "m" "g" "alice" "hi" 0 false []))
               [] [Db.GroupStyleProfile "g" 20 [] Db.emptyAnalysis (Some "be g") 0]
               [Db.Group "g" "friends"]
               [Db.GroupMember "m1" "g" "alice" true 0 false; bobRow] [] 20;
       dbFaults := []; openaiReplies := [reply]; openaiCalls := []; background := [] |}.


(** The provider streams "Hel", then throws. *)
Definition helReply : Completion := {| deltas := [Some "Hel"]; fails := true |}.

(** A millisecond passes at every suspension, twenty in all, and at the
    tenth Bob connects on socket s2. *)
Definition bobJoinsLate : Registry → Registry := fun r =>
  if (r.2 <? 9)%Z then registryAfter [Elapse 1] r
  else if (r.2 =? 9)%Z
       then registryAfter [Presence (Register "bob" "s2"); Elapse 1] r
       else if (r.2 <? 20)%Z then registryAfter [Elapse 1] r else r.

(** ** What socket.io and the event loop make the gateway do *)

(** One thing that happens to the gateway: a socket connects or
    disconnects, a subscribed message arrives on a socket, the event loop
    gets to a promise a handler started, or time passes. *)
Inductive GatewayEvent :=
| Connects (client : Socket.t)
| Disconnects (client : Socket.t)
| MessageSend (client : Socket.t) (toUserId content : string)
| CheckStatus (client : Socket.t) (userIds : list string)
| AIFriendMessage (client : Socket.t) (content : string)
| GroupMessageSend (client : Socket.t) (groupId content : string)
| GroupAIMention (client : Socket.t) (groupId content : string)
| TaskRuns (task : Task)
| TimePasses (now : Z).

(** The world after the gateway has reacted to an event. *)
Definition react `{StyleAnalyzer} (w : World) (ev : GatewayEvent) : World :=
  match ev with
  | Connects client => (run (Gateway.handleConnection client) w).1
  | Disconnects client => (run (Gateway.handleDisconnect client) w).1
  | MessageSend client toUserId content =>
      (run (Gateway.handleMessageSend client toUserId content) w).1
  | CheckStatus client userIds => (run (Gateway.handleCheckStatus client userIds) w).1
  | AIFriendMessage client content =>
      (run (Gateway.handleAIFriendMessage client content) w).1
  | GroupMessageSend client groupId content =>
      (run (Gateway.handleGroupMessageSend client groupId content) w).1
  | GroupAIMention client groupId content =>
      (run (Gateway.handleGroupAIMention client groupId content) w).1
  | TaskRuns task => (run (Gateway.runTask task) w).1
  | TimePasses now => withClock w now
  end.

Definition reactAll `{StyleAnalyzer} (evs : list GatewayEvent) (w : World) : World :=
  foldl react w evs.

(** A computation that returns normally from every world: no exception
    leaves it. *)
Definition Returns {A} (m : M A) : Prop :=
  ∀ w, ∃ a w' out, m w = (inr a, w', out).

(** From a world where [P] holds, the computation ends in a world where
    [Q] holds of its result, or throws in a world where [E] holds. *)
Definition hoare {A} (P : World → Prop) (m : M A) (Q : A → World → Prop)
    (E : World → Prop) : Prop :=
  ∀ w r w' out, P w → m w = (r, w', out) →
    match r with
    | inr a => Q a w'
    | inl _ => E w'
    end.

(** A computation that keeps [I] however it ends. *)
Definition Keeps {A} (I : World → Prop) (m : M A) : Prop :=
  ∀ w r w' out, I w → m w = (r, w', out) → I w'.

(** The registry and the clock are [r] and [now]. *)
Definition presenceIs (r : option Redis.client) (now : Z) (w : World) : Prop :=
  redis w = r ∧ clock w = now.

(** The provider has been asked [calls] and will answer [replies]. *)
Definition providerIs (replies : list Completion) (calls : list (string * string))
    (w : World) : Prop :=
  openaiReplies w = replies ∧ openaiCalls w = calls.

(** The profile row of group [g] is [p]. *)
Definition groupProfileIs (g : string) (p : Db.groupStyleProfile) (w : World) : Prop :=
  GroupAIProfileService.storedProfile g (db w) = Some p.

(** The primary keys of the two profile tables: one row per user, one row
    per group. *)
Definition profileKeysUnique (w : World) : Prop :=
  NoDup (Db.sp_userId <$> Db.styleProfiles (db w))
  ∧ NoDup (Db.gsp_groupId <$> Db.groupStyleProfiles (db w)).

(** A store that is configured but whose endpoint does not answer. *)
Definition redisDown : World :=
  {| redis := Some (Redis.Client ∅ false); clock := 0; db := Db.empty; dbFaults := [];
     openaiReplies := []; openaiCalls := []; background := [] |}.
(** Group [g] has the profile row [p], and the provider has been asked
    [calls] and will answer [replies]. *)
Definition groupRowAndProvider (g : string) (p : Db.groupStyleProfile)
    (replies : list Completion) (calls : list (string * string)) (w : World) : Prop :=
  groupProfileIs g p w ∧ providerIs replies calls w.
(** The direct messages [u] sends next: each a recipient and a content. *)
Definition sendAll (u : string) (sent : list (string * string)) (w : World) : World :=
  foldl (fun w m => (run (ChatService.sendMessage u m.1 m.2 false) w).1) w sent.

(** The eligible counts of user [u] and of group [g] are [n] and [m]. *)
Definition countsAre (u g : string) (n m : Z) (w : World) : Prop :=
  userCurrentCount (db w) u = n ∧ groupCurrentCount (db w) g = m.
(** ** group-ai-profile.service.ts: the reset *)

Definition resetGroupStyleProfile (groupId : string) : M unit :=
  statement (fun t now =>
    (tt, Db.withGroupStyleProfiles t
           ((fun p => if decide (Db.gsp_groupId p = groupId)
                      then Db.GroupStyleProfile groupId 0 [] Db.emptyAnalysis (Some "") now
                      else p) <$> Db.groupStyleProfiles t))).

(** A user with a computed profile and twelve messages. *)
Definition twelveWithProfile : World :=
  blankWorld (Db.Tables (directFrom "u" 12) []
                [Db.StyleProfile "u" 12 Db.emptyAnalysis (Some "be u") 0]
                [] [] [] [] 12).

(** A group with a rendered prompt and twenty-one messages. *)
Definition learnedGroup : World :=
  blankWorld (Db.Tables [] (replicate 21 (Db.GroupMessage "m" "g" "u" "hi" 0 false []))
                [] [Db.GroupStyleProfile "g" 21 [] Db.emptyAnalysis (Some "be g") 0]
                [] [] [] 21).
(** ** ORDER BY

    SQL fixes the order of the rows of a sorted query only up to rows with
    equal keys.  A [RowOrder] is any way the database may sort: the result
    is a rearrangement of the rows, in ascending key order. *)
Class RowOrder := {
  orderBy : ∀ {A : Type}, (A → Z) → list A → list A;
  orderBy_Permutation : ∀ {A : Type} (key : A → Z) (rows : list A),
    orderBy key rows ≡ₚ rows;
  orderBy_Sorted : ∀ {A : Type} (key : A → Z) (rows : list A),
    Sorted (fun a b => (key a ≤ key b)%Z) (orderBy key rows) }.

(** [desc(column)]. *)
Definition desc {A} (key : A → Z) : A → Z := fun row => (- key row)%Z.

(** One such order: merge sort. *)
Definition mergeSorted {A : Type} (key : A → Z) (rows : list A) : list A :=
  @merge_sort A (fun a b => (key a ≤ key b)%Z) (fun a b => Z.le_dec (key a) (key b)) rows.

#[refine] Instance mergeSortOrder : RowOrder := {| orderBy := @mergeSorted |}.
Proof.
  - intros A key rows. apply merge_sort_Permutation.
  - intros A key rows. apply Sorted_merge_sort. intros a b. lia.
Defined.

(** ** chat.service.ts: the methods the REST controller calls *)

Module ChatQueries.
Definition DEFAULT_LIMIT : nat := 50.

(** The [where] clause of [getConversation]. *)
Definition between (userId1 userId2 : string) (m : Db.message) : Prop :=
  (Db.fromUserId m = userId1 ∧ Db.toUserId m = userId2)
  ∨ (Db.fromUserId m = userId2 ∧ Db.toUserId m = userId1).

Definition getConversation `{RowOrder} (userId1 userId2 : string) (limit : option nat)
    : M (list Db.message) :=
  let* conversation := select (fun t =>
    take (default DEFAULT_LIMIT limit)
         (orderBy (desc Db.timestamp) (filter (between userId1 userId2) (Db.messages t)))) in
  ret (reverse conversation).

Definition withMessages (t : Db.tables) (ms : list Db.message) : Db.tables :=
  Db.Tables ms (Db.groupMessages t) (Db.styleProfiles t) (Db.groupStyleProfiles t)
            (Db.groups t) (Db.groupMembers t) (Db.userProfile t) (Db.nextId t).

(** [set({ isRead: true })] on one row. *)
Definition read (m : Db.message) : Db.message :=
  Db.Message (Db.id m) (Db.fromUserId m) (Db.toUserId m) (Db.content m)
             (Db.timestamp m) true (Db.isAIGenerated m).

Definition markAsRead (messageId : string) : M unit :=
  let* result := statement (fun t _ =>
    (read <$> filter (fun m => Db.id m = messageId) (Db.messages t),
     withMessages t ((fun m => if decide (Db.id m = messageId) then read m else m)
                       <$> Db.messages t))) in
  match result with
  | [] => throw (NotFoundException ("Message with ID " +:+ messageId +:+ " not found"))
  | _ :: _ => ret tt
  end.

(** The rows [getUnreadCount] counts. *)
Definition unread (userId : string) (t : Db.tables) : list Db.message :=
  filter (fun m => Db.toUserId m = userId ∧ Db.isRead m = false) (Db.messages t).

(** [result[0]?.count || 0]. *)
Definition orZero (count : Z) : Z := if (count =? 0)%Z then 0%Z else count.

Definition getUnreadCount (userId : string) : M Z :=
  let* count := select (fun t => Z.of_nat (length (unread userId t))) in
  ret (orZero count).
End ChatQueries.

(** ** group-message.service.ts: paging through a group's messages *)

Module GroupMessageQueries.
Definition DEFAULT_LIMIT : nat := 50.

(** The [where] clause: the group, and the [before] bound when one is
    given. *)
Definition selected (groupId : string) (before : option Z) (m : Db.groupMessage) : Prop :=
  Db.gm_groupId m = groupId
  ∧ match before with
    | Some bound => (Db.gm_timestamp m < bound)%Z
    | None => True
    end.

#[global] Instance selected_dec groupId before m : Decision (selected groupId before m).
Proof. unfold selected. destruct before; apply _. Defined.

Definition getGroupMessages `{RowOrder} (groupId : string) (limit : option nat)
    (before : option Z) : M (list Db.groupMessage) :=
  let* messages := select (fun t =>
    take (default DEFAULT_LIMIT limit)
         (orderBy (desc Db.gm_timestamp)
                  (filter (selected groupId before) (Db.groupMessages t)))) in
  ret (reverse messages).
End GroupMessageQueries.

(** ** group-ai-init.service.ts: the ids of the group agents *)

Module GroupAIIds.
(** [s.startsWith(prefix)]. *)
Fixpoint startsWith (prefix s : string) : bool :=
  match prefix, s with
  | EmptyString, _ => true
  | String a prefix, String b s => if decide (a = b) then startsWith prefix s else false
  | String _ _, EmptyString => false
  end.

(** [s.slice(n)], [n] counted in characters. *)
Fixpoint slice (n : nat) (s : string) : string :=
  match n, s with
  | S n, String _ s => slice n s
  | _, _ => s
  end.

(** [s.replace(pattern, '')] for a string pattern: the first occurrence
    is removed. *)
Fixpoint removeFirst (pattern s : string) : string :=
  if startsWith pattern s then slice (String.length pattern) s
  else match s with
       | EmptyString => EmptyString
       | String a rest => String a (removeFirst pattern rest)
       end.

Definition isGroupAIMember (userId : string) : bool := startsWith "group-ai-" userId.

Definition extractGroupIdFromAIUserId (aiUserId : string) : option string :=
  if negb (isGroupAIMember aiUserId) then None
  else Some (removeFirst "group-ai-" aiUserId).
End GroupAIIds.
(** Alice and Bob have exchanged three messages; Carol wrote to Alice. *)
Definition smallTalk : World :=
  blankWorld (Db.Tables
    [Db.Message "1" "alice" "bob" "hi" 10 false false;
     Db.Message "2" "bob" "alice" "hello" 20 false false;
     Db.Message "3" "carol" "alice" "ping" 25 false false;
     Db.Message "4" "alice" "bob" "how are you" 30 false false]
    [] [] [] [] [] [] 4).
(** A group with five messages, two of them written at the same instant. *)
Definition busyGroup : World :=
  blankWorld (Db.Tables []
    [Db.GroupMessage "1" "g" "alice" "one" 10 false [];
     Db.GroupMessage "2" "g" "bob" "two" 20 false [];
     Db.GroupMessage "3" "g" "carol" "three" 20 false [];
     Db.GroupMessage "4" "h" "dave" "elsewhere" 25 false [];
     Db.GroupMessage "5" "g" "alice" "four" 30 false []]
    [] [] [] [] [] 5).
(** ** Words, as the mention pattern reads them *)

(** A run of word characters. *)
Fixpoint allWordChars (s : string) : bool :=
  match s with
  | EmptyString => true
  | String a rest => GroupMessageService.isWordChar a && allWordChars rest
  end.

(** What the group [(\w+)] can capture: a non-empty run of word characters. *)
Definition wordName (name : string) : Prop :=
  JS.truthy name = true ∧ allWordChars name = true.

(** The text goes on with something that is not a word character, or ends. *)
Definition wordEnds (rest : string) : Prop :=
  match rest with
  | EmptyString => True
  | String a _ => GroupMessageService.isWordChar a = false
  end.

(** A group of Alice alone whose row still holds the count 0 of its
    creation and no prompt, with twenty-one messages by now. *)
Definition lateGroup : World :=
  blankWorld (Db.Tables [] (replicate 21 (Db.GroupMessage "m" "g" "alice" "hi" 0 false []))
                [] [Db.GroupStyleProfile "g" 0 [] Db.emptyAnalysis None 0]
                [Db.Group "g" "friends"] [Db.GroupMember "m1" "g" "alice" true 0 false]
                [] 21).

(** Alice writes to her group, the promise that started runs, and she
    mentions the agent. *)
Definition groupChatter : list GatewayEvent :=
  [GroupMessageSend aliceSocket "g" "hello"; TaskRuns (GroupStyleUpdate "g");
   GroupAIMention aliceSocket "g" "@AI hi"].

(** The admitted socket of user u. *)
Definition uSocket : Socket.t := Socket.Make "s7" (SessionOf "u") (Some "u") true.

(** User u sends a message, and the promise that started runs. *)
Definition tenthMessage : list GatewayEvent :=
  [MessageSend uSocket "friend" "tenth"; TaskRuns (StyleUpdate "u")].

(** What the scan has in hand at [s]: the [@] and the name being read,
    then [s]. *)
Definition pending (cur : option string) (s : string) : string :=
  match cur with
  | Some read => "@" +:+ read +:+ s
  | None => s
  end.

(** ** group-ai-style-analysis.service.ts: what the group analysis adds *)

Module GroupAIStyleAnalysisService.
(** [Array.prototype.sort] with the comparator
    [a.timestamp.getTime() - b.timestamp.getTime()]: ascending, and stable
    (messages of equal timestamp stay in the order they had). *)
Fixpoint insertByTimestamp (message : Db.groupMessage) (sorted : list Db.groupMessage)
    : list Db.groupMessage :=
  match sorted with
  | [] => [message]
  | first :: rest =>
      if (Db.gm_timestamp first <=? Db.gm_timestamp message)%Z
      then first :: insertByTimestamp message rest
      else message :: sorted
  end.

Definition sortByTimestamp (messages : list Db.groupMessage) : list Db.groupMessage :=
  foldl (fun sorted message => insertByTimestamp message sorted) [] messages.

(** An index or a length as a JS number, a double. *)
Definition number (n : nat) : float := PrimFloat.of_uint63 (Uint63.of_Z (Z.of_nat n)).

(** [position = index / sortedMessages.length] against the two
    thresholds. *)
#[warnings="-inexact-float"]
Definition weight (index length : nat) : nat :=
  let position := (number index / number length)%float in
  if (0.8 <=? position)%float then 3
  else if (0.5 <=? position)%float then 2
  else 1.

(** The [forEach] over the sorted messages, from [index] on: each message
    is pushed [weight] times. *)
Fixpoint pushWeighted (length index : nat) (sortedMessages : list Db.groupMessage)
    : list Db.groupMessage :=
  match sortedMessages with
  | [] => []
  | message :: rest =>
      replicate (weight index length) message ++ pushWeighted length (S index) rest
  end.

Definition applyRecencyWeighting (messages : list Db.groupMessage) : list Db.groupMessage :=
  let sortedMessages := sortByTimestamp messages in
  pushWeighted (length sortedMessages) 0 sortedMessages.

(** [contributions[userId] = (contributions[userId] || 0) + 1] for each
    message; the object is used as a map from user ids to counts. *)
Definition calculateMemberContributions (messages : list Db.groupMessage) : gmap string Z :=
  foldl (fun contributions message =>
           let userId := Db.gm_fromUserId message in
           <[userId := (default 0 (contributions !! userId) + 1)%Z]> contributions)
        ∅ messages.

(** [analyzeMessages] is the analysis of ai-style-analysis.service.ts. *)
Definition analyzeGroupMessages (analyzeMessages : list (string * Z) → Db.styleAnalysis)
    (messages : list Db.groupMessage) : Db.styleAnalysis * gmap string Z :=
  match messages with
  | [] => (Db.emptyAnalysis, ∅)
  | _ :: _ =>
      let weightedMessages := applyRecencyWeighting messages in
      let baseAnalysis :=
        analyzeMessages
          ((fun msg => (Db.gm_content msg, Db.gm_timestamp msg)) <$> weightedMessages) in
      let memberContributions := calculateMemberContributions messages in
      (baseAnalysis, memberContributions)
  end.
End GroupAIStyleAnalysisService.

(** The sum of the counts of a contribution map. *)
Definition totalContributions (contributions : gmap string Z) : Z :=
  map_fold (fun _ count total => (count + total)%Z) 0%Z contributions.

(** The messages of [userId] among [messages]. *)
Definition writtenBy (userId : string) (messages : list Db.groupMessage)
    : list Db.groupMessage :=
  filter (fun m => Db.gm_fromUserId m = userId) messages.

(** ** groups.service.ts: who may change the members of a group *)

Module GroupMembership.
(** The two Nest exceptions that only these methods throw.  A method that
    throws one of them returns it on the left; [NotFoundException] and
    the errors of the database are thrown as everywhere else. *)
Inductive HttpException :=
| ForbiddenException (message : string)
| BadRequestException (message : string).

Definition withGroupMembers (t : Db.tables) (ms : list Db.groupMember) : Db.tables :=
  Db.Tables (Db.messages t) (Db.groupMessages t) (Db.styleProfiles t)
            (Db.groupStyleProfiles t) (Db.groups t) ms (Db.userProfile t) (Db.nextId t).

(** The rows [isUserAdmin] selects. *)
Definition adminRows (groupId userId : string) (t : Db.tables) : list Db.groupMember :=
  filter (fun m => Db.mb_groupId m = groupId ∧ Db.mb_userId m = userId
                   ∧ Db.mb_isAdmin m = true) (Db.groupMembers t).

Definition isUserAdmin (groupId userId : string) : M bool :=
  select (fun t =>
    match adminRows groupId userId t with
    | [] => false
    | _ :: _ => true
    end).

(** The admins of a group, and its other members. *)
Definition admins (groupId : string) (t : Db.tables) : list Db.groupMember :=
  filter (fun m => Db.mb_groupId m = groupId ∧ Db.mb_isAdmin m = true) (Db.groupMembers t).

Definition nonAdmins (groupId : string) (t : Db.tables) : list Db.groupMember :=
  filter (fun m => Db.mb_groupId m = groupId ∧ Db.mb_isAdmin m = false) (Db.groupMembers t).

Definition findGroup (groupId : string) : M (option Db.group) :=
  select (fun t => head (filter (fun g => Db.g_id g = groupId) (Db.groups t))).

(** [insert(groupMembers).values({ groupId, userId, isAdmin: false })]:
    the key, the date and the muting are the column defaults. *)
Definition insertMember (groupId userId : string) (t : Db.tables) (now : Z)
    : unit * Db.tables :=
  let row := Db.GroupMember (Db.freshId t) groupId userId false now false in
  (tt, Db.Tables (Db.messages t) (Db.groupMessages t) (Db.styleProfiles t)
         (Db.groupStyleProfiles t) (Db.groups t) (Db.groupMembers t ++ [row])
         (Db.userProfile t) (N.succ (Db.nextId t))).

(** [delete(groupMembers).where(and(eq(groupId), eq(userId)))]. *)
Definition deleteMember (groupId userId : string) (t : Db.tables) (now : Z)
    : unit * Db.tables :=
  (tt, withGroupMembers t
         (filter (fun m => ¬ (Db.mb_groupId m = groupId ∧ Db.mb_userId m = userId))
                 (Db.groupMembers t))).

(** [set({ isAdmin: true })] on one row. *)
Definition promoted (m : Db.groupMember) : Db.groupMember :=
  Db.GroupMember (Db.mb_id m) (Db.mb_groupId m) (Db.mb_userId m) true (Db.mb_joinedAt m)
                 (Db.mb_notificationsMuted m).

(** [user] holds the ids of table [user], which none of these methods
    writes. *)
Definition addMember (user : list string) (groupId userIdToAdd addedBy : string)
    : M (HttpException + unit) :=
  let* isAdmin := isUserAdmin groupId addedBy in
  if negb isAdmin then ret (inl (ForbiddenException "Only group admins can add members"))
  else
    let* group := findGroup groupId in
    match group with
    | None => throw (NotFoundException "Group not found")
    | Some _ =>
        let* userToAdd := select (fun _ => head (filter (fun id => id = userIdToAdd) user)) in
        match userToAdd with
        | None => throw (NotFoundException "User not found")
        | Some _ =>
            let* isAlreadyMember := GroupsService.isUserInGroup groupId userIdToAdd in
            if isAlreadyMember
            then ret (inl (BadRequestException "User is already a member of this group"))
            else
              statement (insertMember groupId userIdToAdd) ;;;
              ret (inr tt)
        end
    end.

Definition removeMember (groupId userIdToRemove removedBy : string)
    : M (HttpException + unit) :=
  let* isAdmin := isUserAdmin groupId removedBy in
  if negb isAdmin then ret (inl (ForbiddenException "Only group admins can remove members"))
  else
    let* group := findGroup groupId in
    match group with
    | None => throw (NotFoundException "Group not found")
    | Some _ =>
        let* isMember := GroupsService.isUserInGroup groupId userIdToRemove in
        if negb isMember
        then ret (inl (BadRequestException "User is not a member of this group"))
        else
          let* isUserAdmin := isUserAdmin groupId userIdToRemove in
          let* lastAdmin :=
            (if isUserAdmin
             then let* admins := select (admins groupId) in
                  ret (bool_decide (length admins = 1))
             else ret false) in
          if lastAdmin
          then ret (inl (BadRequestException
                 "Cannot remove the last admin. Transfer admin rights first or delete the group."))
          else
            statement (deleteMember groupId userIdToRemove) ;;;
            ret (inr tt)
    end.

Definition transferAdminIfNeeded `{RowOrder} (groupId : string) : M unit :=
  let* admins := select (admins groupId) in
  if bool_decide (length admins = 1) then
    let* oldest := select (fun t => head (orderBy Db.mb_joinedAt (nonAdmins groupId t))) in
    match oldest with
    | Some oldestMember =>
        statement (fun t _ =>
          (tt, withGroupMembers t
                 ((fun m => if decide (Db.mb_id m = Db.mb_id oldestMember)
                            then promoted m else m) <$> Db.groupMembers t)))
    | None => ret tt
    end
  else ret tt.

Definition leaveGroup `{RowOrder} (groupId userId : string) : M (HttpException + unit) :=
  let* group := findGroup groupId in
  match group with
  | None => throw (NotFoundException "Group not found")
  | Some _ =>
      let* isMember := GroupsService.isUserInGroup groupId userId in
      if negb isMember
      then ret (inl (BadRequestException "You are not a member of this group"))
      else
        let* isAdmin := isUserAdmin groupId userId in
        (if isAdmin then transferAdminIfNeeded groupId else ret tt) ;;;
        statement (deleteMember groupId userId) ;;;
        ret (inr tt)
  end.

(** A request to one of the three methods. *)
Inductive Request :=
| AddMember (groupId userIdToAdd addedBy : string)
| RemoveMember (groupId userIdToRemove removedBy : string)
| LeaveGroup (groupId userId : string).

(** The world after the request has been served, whatever it answered. *)
Definition serve `{RowOrder} (user : list string) (w : World) (request : Request) : World :=
  match request with
  | AddMember groupId userIdToAdd addedBy =>
      (run (addMember user groupId userIdToAdd addedBy) w).1
  | RemoveMember groupId userIdToRemove removedBy =>
      (run (removeMember groupId userIdToRemove removedBy) w).1
  | LeaveGroup groupId userId => (run (leaveGroup groupId userId) w).1
  end.
End GroupMembership.

(** The key of a membership: the group and the user. *)
Definition memberPair (m : Db.groupMember) : string * string :=
  (Db.mb_groupId m, Db.mb_userId m).

(** Nobody is in a group twice. *)
Definition membershipsUnique (t : Db.tables) : Prop :=
  NoDup (memberPair <$> Db.groupMembers t).

(** A group that has members has an admin among them. *)
Definition hasAdminIfAny (groupId : string) (t : Db.tables) : Prop :=
  GroupsService.membersOf groupId t = [] ∨ GroupMembership.admins groupId t ≠ [].

Definition wellRunTables (groupId : string) (t : Db.tables) : Prop :=
  membershipsUnique t ∧ hasAdminIfAny groupId t.

Definition wellRun (groupId : string) (w : World) : Prop := wellRunTables groupId (db w).

(** Without [userId] the group [groupId] still has an admin, or has nobody. *)
Definition mayLeave (groupId userId : string) (t : Db.tables) : Prop :=
  (∃ r, r ∈ Db.groupMembers t ∧ Db.mb_groupId r = groupId ∧ Db.mb_isAdmin r = true
        ∧ Db.mb_userId r ≠ userId)
  ∨ (∀ r, r ∈ Db.groupMembers t → Db.mb_groupId r = groupId → Db.mb_userId r = userId).

(** From the tables [t], whatever the fault oracle holds: the computation
    returns [a] with tables where [Q a] holds, or throws with tables where
    [E] holds. *)
Definition dbHoare {A} (t : Db.tables) (m : M A) (Q : A → Db.tables → Prop)
    (E : Db.tables → Prop) : Prop :=
  hoare (fun w => db w = t) m (fun a w => Q a (db w)) (fun w => E (db w)).

(** On a healthy database, from the tables [t]: the computation returns
    some [a], with tables where [Q a] holds, and emits nothing. *)
Definition dbReturns {A} (t : Db.tables) (m : M A) (Q : A → Db.tables → Prop) : Prop :=
  ∀ w, db w = t → dbFaults w = [] →
    ∃ a w', m w = (inr a, w', []) ∧ dbFaults w' = [] ∧ Q a (db w').

(** What is left of the memberships [t] in [t'] once [userId] has left
    [groupId]: the other memberships, in their order. *)
Definition othersStay (groupId userId : string) (t t' : Db.tables) : Prop :=
  memberPair <$> Db.groupMembers t'
  = filter (fun pair => pair ≠ (groupId, userId)) (memberPair <$> Db.groupMembers t).

(** Alice, the only admin, joined first; Bob joined before Carol. *)
Definition threeMembers : World :=
  blankWorld (Db.Tables [] [] [] [] [Db.Group "g" "friends"]
                [Db.GroupMember "m1" "g" "alice" true 1 false;
                 Db.GroupMember "m2" "g" "carol" false 3 false;
                 Db.GroupMember "m3" "g" "bob" false 2 false]
                [] 3).

(** Alice leaves, then Bob removes Carol and adds Dave. *)
Definition aliceLeaves : list GroupMembership.Request :=
  [GroupMembership.LeaveGroup "g" "alice"; GroupMembership.RemoveMember "g" "carol" "bob";
   GroupMembership.AddMember "g" "dave" "bob"].

(** * Proofs *)

(** ** The monad *)

Lemma withDb_same w : dbFaults w = [] → withDb w (db w) [] = w.
Proof. destruct w; simpl; intros ->; reflexivity. Qed.

Lemma statement_ok {A} (q : Db.tables → Z → A * Db.tables) w :
  dbFaults w = [] →
  statement q w = (inr (q (db w) (clock w)).1, withDb w (q (db w) (clock w)).2 [], []).
Proof. intros H. unfold statement. rewrite H. destruct (q _ _); reflexivity. Qed.

Lemma select_ok {A} (q : Db.tables → A) w :
  dbFaults w = [] → select q w = (inr (q (db w)), w, []).
Proof.
  intros H. unfold select. rewrite statement_ok by done. simpl.
  by rewrite withDb_same.
Qed.

Lemma statement_fault {A} (q : Db.tables → Z → A * Db.tables) w rest :
  dbFaults w = true :: rest →
  statement q w = (inl DbError, withDb w (db w) rest, []).
Proof. intros H. unfold statement. by rewrite H. Qed.

Lemma statement_next {A} (q : Db.tables → Z → A * Db.tables) w :
  nextFault w = false →
  statement q w
  = (inr (q (db w) (clock w)).1, withDb w (q (db w) (clock w)).2 (tail (dbFaults w)), []).
Proof.
  unfold nextFault, statement. destruct (dbFaults w) as [|[] rest]; try done;
    intros _; destruct (q _ _); reflexivity.
Qed.

(** ** The schedulers' equations on a healthy database *)

Lemma getStyleProfile_ok w u :
  dbFaults w = [] →
  StyleProfileService.getStyleProfile u w = (inr (storedUserProfile (db w) u), w, []).
Proof. intros H. unfold StyleProfileService.getStyleProfile. by rewrite select_ok. Qed.

Lemma user_shouldUpdateProfile_ok w u :
  dbFaults w = [] →
  StyleProfileService.shouldUpdateProfile u w
  = (inr match storedUserProfile (db w) u with
         | None => true
         | Some p => (Db.sp_messageCount p + 10 <=? userCurrentCount (db w) u)%Z
         end, w, []).
Proof.
  intros H. unfold StyleProfileService.shouldUpdateProfile, bind.
  rewrite getStyleProfile_ok by done.
  destruct (storedUserProfile (db w) u) as [p|]; [|reflexivity].
  rewrite !select_ok by done. reflexivity.
Qed.

Lemma getGroupStyleProfile_ok w g :
  dbFaults w = [] →
  GroupAIProfileService.getGroupStyleProfile g w
  = (inr ((fun p => GroupAIProfileService.withMessageCount p (groupCurrentCount (db w) g))
            <$> GroupAIProfileService.storedProfile g (db w)), w, []).
Proof.
  intros H. unfold GroupAIProfileService.getGroupStyleProfile, bind.
  rewrite select_ok by done.
  destruct (GroupAIProfileService.storedProfile g (db w)) as [p|]; [|reflexivity].
  rewrite select_ok by done. reflexivity.
Qed.

Lemma group_shouldUpdateProfile_ok w g :
  dbFaults w = [] →
  GroupAIProfileService.shouldUpdateProfile g w
  = (inr match GroupAIProfileService.storedProfile g (db w) with
         | None => (20 <=? groupCurrentCount (db w) g)%Z
         | Some _ => (groupCurrentCount (db w) g + 20 <=? groupCurrentCount (db w) g)%Z
         end, w, []).
Proof.
  intros H. unfold GroupAIProfileService.shouldUpdateProfile, bind.
  rewrite getGroupStyleProfile_ok by done. rewrite select_ok by done.
  destruct (GroupAIProfileService.storedProfile g (db w)) as [p|]; reflexivity.
Qed.

(** Once a group has a profile row (and [createGroup] inserts one), its
    recompute is never found due: [getGroupStyleProfile] has replaced the
    recorded count by the current one before the comparison. *)
Lemma group_recompute_never_due w g p :
  dbFaults w = [] →
  GroupAIProfileService.storedProfile g (db w) = Some p →
  GroupAIProfileService.shouldUpdateProfile g w = (inr false, w, []).
Proof.
  intros H Hp. rewrite group_shouldUpdateProfile_ok by done. rewrite Hp.
  repeat f_equal. apply Z.leb_gt. lia.
Qed.

Lemma user_hasMinimumData_ok w u :
  dbFaults w = [] →
  AIFriendService.hasMinimumData u w
  = (inr match storedUserProfile (db w) u with
         | None => false
         | Some p => (10 <=? Db.sp_messageCount p)%Z
         end, w, []).
Proof.
  intros H. unfold AIFriendService.hasMinimumData, bind.
  rewrite getStyleProfile_ok by done.
  by destruct (storedUserProfile (db w) u).
Qed.

Lemma group_hasMinimumData_ok w g :
  dbFaults w = [] →
  GroupAIService.hasMinimumData g w
  = (inr match GroupAIProfileService.storedProfile g (db w) with
         | None => false
         | Some _ => (20 <=? groupCurrentCount (db w) g)%Z
         end, w, []).
Proof.
  intros H. unfold GroupAIService.hasMinimumData, bind.
  rewrite getGroupStyleProfile_ok by done.
  by destruct (GroupAIProfileService.storedProfile g (db w)).
Qed.

(** ** Style recompute eligibility *)

(** C2, as stated, fails: a user with no profile row and nine eligible
    messages is found due, although 9 - 0 < 10. *)
Lemma shouldUpdateProfile_first_time_due :
  StyleProfileService.shouldUpdateProfile "u" nineNoProfile
    = (inr true, nineNoProfile, [])
  ∧ userCurrentCount (db nineNoProfile) "u" = 9%Z
  ∧ specShouldRecompute 10 (userCurrentCount (db nineNoProfile) "u")
                           (userLastCount (db nineNoProfile) "u") = false.
Proof. repeat split; vm_compute; reflexivity. Qed.

(** C2, amended.  On a healthy database: a user with a profile row is due
    iff current - recorded >= 10; a user without one is always due; a group
    without a profile row is due iff its current count is at least 20.  With
    a recorded count of 0, nine messages are not enough and ten are. *)
Theorem shouldUpdateProfile_eligibility w (H : dbFaults w = []) :
  (∀ u p, storedUserProfile (db w) u = Some p →
     ∃ b, StyleProfileService.shouldUpdateProfile u w = (inr b, w, [])
          ∧ (b = true ↔ (10 ≤ userCurrentCount (db w) u - Db.sp_messageCount p)%Z)
          ∧ (Db.sp_messageCount p = 0%Z → userCurrentCount (db w) u = 9%Z → b = false)
          ∧ (Db.sp_messageCount p = 0%Z → userCurrentCount (db w) u = 10%Z → b = true))
  ∧ (∀ u, storedUserProfile (db w) u = None →
       StyleProfileService.shouldUpdateProfile u w = (inr true, w, []))
  ∧ (∀ g, GroupAIProfileService.storedProfile g (db w) = None →
       ∃ b, GroupAIProfileService.shouldUpdateProfile g w = (inr b, w, [])
            ∧ (b = true ↔ (20 ≤ groupCurrentCount (db w) g)%Z)).
Proof.
  split; [|split].
  - intros u p Hp. eexists. rewrite user_shouldUpdateProfile_ok, Hp by done.
    split; [reflexivity|]. rewrite Z.leb_le.
    split; [lia|]. split; intros H0 Hn.
    + apply Z.leb_gt. lia.
    + apply Z.leb_le. lia.
  - intros u Hp. by rewrite user_shouldUpdateProfile_ok, Hp.
  - intros g Hp. eexists. rewrite group_shouldUpdateProfile_ok, Hp by done.
    split; [reflexivity|]. by rewrite Z.leb_le.
Qed.

Lemma shouldUpdateProfile_eligibility_witness :
  dbFaults (sentSinceEmptyProfile 10) = []
  ∧ StyleProfileService.shouldUpdateProfile "u" (sentSinceEmptyProfile 10)
    = (inr true, sentSinceEmptyProfile 10, []).
Proof.
  split; [reflexivity|].
  destruct (shouldUpdateProfile_eligibility (sentSinceEmptyProfile 10) eq_refl)
    as [Huser _].
  destruct (Huser "u" (Db.StyleProfile "u" 0 Db.emptyAnalysis (Some "prompt") 0) eq_refl)
    as (b & Hrun & _ & _ & Hten).
  rewrite Hrun. by rewrite (Hten eq_refl eq_refl).
Defined.

(** ** The group profile carries the live count *)

(** C9.  When a profile row exists, [getGroupStyleProfile] returns it with
    [messageCount] set to the current number of the group's messages that
    are not model-generated, whatever count the row holds; the group's
    [hasMinimumData] therefore compares that live count with 20. *)
Theorem getGroupStyleProfile_live_count w g p
    (H : dbFaults w = [])
    (Hp : GroupAIProfileService.storedProfile g (db w) = Some p) :
  ∃ q, GroupAIProfileService.getGroupStyleProfile g w = (inr (Some q), w, [])
       ∧ Db.gsp_messageCount q
         = Z.of_nat (length (filter (fun m => Db.gm_groupId m = g
                                              ∧ Db.gm_isAIGenerated m = false)
                                    (Db.groupMessages (db w))))
       ∧ Db.gsp_stylePrompt q = Db.gsp_stylePrompt p
       ∧ GroupAIService.hasMinimumData g w
         = (inr (20 <=? Db.gsp_messageCount q)%Z, w, []).
Proof.
  eexists. rewrite getGroupStyleProfile_ok, group_hasMinimumData_ok, Hp by done.
  simpl. repeat split.
Qed.

Lemma getGroupStyleProfile_live_count_witness :
  dbFaults staleGroupProfile = []
  ∧ GroupAIService.hasMinimumData "g" staleGroupProfile
    = (inr true, staleGroupProfile, []).
Proof.
  split; [reflexivity|].
  destruct (getGroupStyleProfile_live_count staleGroupProfile "g"
              (Db.GroupStyleProfile "g" 0 [] Db.emptyAnalysis None 0) eq_refl eq_refl)
    as (q & _ & Hcount & _ & Hmin).
  rewrite Hmin, Hcount. reflexivity.
Defined.

(** ** The companion agent before it may generate *)

Lemma generateAIResponseStream_ok w u msg :
  dbFaults w = [] →
  AIFriendService.generateAIResponseStream u msg w
  = match storedUserProfile (db w) u with
    | None => (inr [AIFriendService.STILL_LEARNING], w, [])
    | Some p =>
        if (10 <=? Db.sp_messageCount p)%Z
        then match Db.sp_stylePrompt p with
             | Some prompt =>
                 if JS.truthy prompt
                 then streamOrApologise prompt msg APOLOGY w
                 else (inr [AIFriendService.STILL_ANALYZING], w, [])
             | None => (inr [AIFriendService.STILL_ANALYZING], w, [])
             end
        else (inr [AIFriendService.STILL_LEARNING], w, [])
    end.
Proof.
  intros H. unfold AIFriendService.generateAIResponseStream.
  unfold bind at 1. rewrite user_hasMinimumData_ok by done.
  destruct (storedUserProfile (db w) u) as [p|] eqn:Hp; simpl; [|reflexivity].
  destruct (10 <=? Db.sp_messageCount p)%Z; simpl; [|reflexivity].
  unfold bind. rewrite getStyleProfile_ok, Hp by done. simpl.
  destruct (Db.sp_stylePrompt p) as [prompt|]; [|reflexivity].
  destruct (JS.truthy prompt); [|reflexivity].
  destruct (streamOrApologise prompt msg APOLOGY w) as [[r w'] out].
  reflexivity.
Qed.

(** C8.  On a healthy database, a subject whose recorded count is below 10
    (or who has no style model) has [hasMinimumData] false and is yielded
    exactly the "still learning" chunk; a subject whose style model has no
    rendered prompt is yielded exactly one canned chunk; in both cases no
    call to the provider is made.  A user with 5 messages, whose recorded
    count cannot exceed them, is in the first case. *)
Theorem generateAIResponseStream_canned w u msg (H : dbFaults w = []) :
  ((∀ p, storedUserProfile (db w) u = Some p → (Db.sp_messageCount p < 10)%Z) →
     AIFriendService.hasMinimumData u w = (inr false, w, [])
     ∧ cannedOnly (AIFriendService.generateAIResponseStream u msg) w
                  AIFriendService.STILL_LEARNING)
  ∧ (∀ p, storedUserProfile (db w) u = Some p →
       JS.truthyOpt (Db.sp_stylePrompt p) = false →
       cannedOnly (AIFriendService.generateAIResponseStream u msg) w
                  AIFriendService.STILL_LEARNING
       ∨ cannedOnly (AIFriendService.generateAIResponseStream u msg) w
                    AIFriendService.STILL_ANALYZING)
  ∧ (userCurrentCount (db w) u = 5%Z →
     (∀ p, storedUserProfile (db w) u = Some p →
           (Db.sp_messageCount p ≤ userCurrentCount (db w) u)%Z) →
     AIFriendService.hasMinimumData u w = (inr false, w, [])
     ∧ cannedOnly (AIFriendService.generateAIResponseStream u msg) w
                  AIFriendService.STILL_LEARNING).
Proof.
  assert (Hlow : (∀ p, storedUserProfile (db w) u = Some p →
                       (Db.sp_messageCount p < 10)%Z) →
     AIFriendService.hasMinimumData u w = (inr false, w, [])
     ∧ cannedOnly (AIFriendService.generateAIResponseStream u msg) w
                  AIFriendService.STILL_LEARNING).
  { intros Hlow. unfold cannedOnly.
    rewrite user_hasMinimumData_ok, generateAIResponseStream_ok by done.
    destruct (storedUserProfile (db w) u) as [p|]; [|eauto].
    specialize (Hlow p eq_refl).
    assert ((10 <=? Db.sp_messageCount p)%Z = false) as -> by (apply Z.leb_gt; lia).
    eauto. }
  split; [exact Hlow|]. split.
  - intros p Hp Hprompt. unfold cannedOnly.
    rewrite generateAIResponseStream_ok, Hp by done.
    destruct (10 <=? Db.sp_messageCount p)%Z; [|eauto].
    destruct (Db.sp_stylePrompt p) as [prompt|]; [|eauto].
    simpl in Hprompt. rewrite Hprompt. eauto.
  - intros Hfive Hcons. apply Hlow.
    intros p Hp. specialize (Hcons p Hp). lia.
Qed.

Lemma generateAIResponseStream_canned_witness :
  dbFaults (sentSinceEmptyProfile 5) = []
  ∧ userCurrentCount (db (sentSinceEmptyProfile 5)) "u" = 5%Z
  ∧ AIFriendService.hasMinimumData "u" (sentSinceEmptyProfile 5)
    = (inr false, sentSinceEmptyProfile 5, [])
  ∧ cannedOnly (AIFriendService.generateAIResponseStream "u" "are you there?")
               (sentSinceEmptyProfile 5) AIFriendService.STILL_LEARNING.
Proof.
  split; [reflexivity|]. split; [reflexivity|].
  destruct (generateAIResponseStream_canned (sentSinceEmptyProfile 5) "u"
              "are you there?" eq_refl) as (_ & _ & Hfive).
  apply Hfive.
  - reflexivity.
  - intros p Hp. injection Hp as <-.
    change (userCurrentCount (db (sentSinceEmptyProfile 5)) "u") with 5%Z.
    simpl. lia.
Defined.

(** ** An unconfigured presence store *)

Lemma emitToUser_run w u ev d :
  Gateway.emitToUser u ev d w
  = match onlineHandle w u with
    | Some s => (inr true, w, [Emit (ToRoom s) ev d])
    | None => (inr false, w, [])
    end.
Proof.
  unfold Gateway.emitToUser, onlineHandle, bind, gets. simpl.
  destruct (RedisService.getSocketByUser w u) as [s|]; [|reflexivity].
  destruct (JS.truthy s); reflexivity.
Qed.

(** C10.  When [RedisService.redis] is null, registering and deregistering
    change nothing, every user is reported offline and resolves to no
    socket, [emitToUser] returns false and emits nothing, a status check
    answers "offline" for every user asked about, and a connection with a
    valid session is still admitted and announced. *)
Theorem presence_disabled_without_redis w (H : redis w = None) :
  (∀ u s, RedisService.setUserOnline u s w = w)
  ∧ (∀ u, RedisService.setUserOffline u w = w)
  ∧ (∀ u, RedisService.isUserOnline w u = false)
  ∧ (∀ u, RedisService.getSocketByUser w u = None)
  ∧ (∀ u ev d, Gateway.emitToUser u ev d w = (inr false, w, []))
  ∧ (∀ client me us, Socket.authenticated client = Some me →
       Gateway.handleCheckStatus client us w
       = (inr tt, w, [Emit (ToClient (Socket.id client)) "user:status-batch"
                           (StatusBatch ((fun u => (u, "offline")) <$> us))]))
  ∧ (∀ client u, Socket.handshake client = SessionOf u →
       Gateway.handleConnection client w
       = (inr (Socket.setUserId client u), w,
          [Emit ToAll "user:status" (Status u "online")])
       ∧ Socket.connected (Socket.setUserId client u) = Socket.connected client).
Proof.
  assert (Hsock : ∀ u, RedisService.getSocketByUser w u = None).
  { intros u. unfold RedisService.getSocketByUser. by rewrite H. }
  assert (Hon : ∀ u, RedisService.isUserOnline w u = false).
  { intros u. unfold RedisService.isUserOnline. by rewrite H. }
  assert (Hset : ∀ u s, RedisService.setUserOnline u s w = w).
  { intros u s. unfold RedisService.setUserOnline. by rewrite H. }
  split_and!; try done.
  - intros u. unfold RedisService.setUserOffline. by rewrite H.
  - intros u ev d. rewrite emitToUser_run. unfold onlineHandle. by rewrite Hsock.
  - intros client me us Hme. unfold Gateway.handleCheckStatus. rewrite Hme.
    assert (Hmap : mapM (fun userId =>
               let* isOnline := gets (fun w => RedisService.isUserOnline w userId) in
               ret (userId, if isOnline then "online" else "offline")) us w
             = (inr ((fun u => (u, "offline")) <$> us), w, [])).
    { induction us as [|u us IH]; [reflexivity|].
      simpl. unfold bind at 1. unfold bind at 1. unfold gets at 1. rewrite Hon. simpl.
      unfold bind at 1. rewrite IH. reflexivity. }
    unfold tryCatch. unfold bind at 1. rewrite Hmap. reflexivity.
  - intros client u Hs. unfold Gateway.handleConnection, tryCatch, bind.
    rewrite Hs. simpl. unfold modify. rewrite Hset. split; reflexivity.
Qed.

Lemma presence_disabled_without_redis_witness :
  redis noRedis = None
  ∧ RedisService.isUserOnline (RedisService.setUserOnline "alice" "s1" noRedis) "alice"
    = false.
Proof.
  split; [reflexivity|].
  destruct (presence_disabled_without_redis noRedis eq_refl) as (Hset & _ & Hon & _).
  rewrite Hset. apply Hon.
Defined.

(** ** Direct messages *)

(** Evaluate [filter] on a list given by its elements. *)
Ltac filter_eval :=
  repeat first
    [ rewrite filter_nil
    | rewrite filter_cons_True by done
    | rewrite filter_cons_False by done
    | progress simpl ].

Lemma isUserOnline_handle w u :
  RedisService.isUserOnline w u = true ↔ is_Some (onlineHandle w u).
Proof.
  unfold RedisService.isUserOnline, onlineHandle, RedisService.getSocketByUser.
  destruct (redis w) as [c|]; [|by split; [|intros []]].
  destruct (Redis.get _ _ _) as [|[s|]]; simpl;
    try (by split; [|intros []]).
  destruct (JS.truthy s); split; try done; eauto.
Qed.

Lemma onlineHandle_socket w u s :
  onlineHandle w u = Some s →
  RedisService.getSocketByUser w u = Some s ∧ JS.truthy s = true.
Proof.
  unfold onlineHandle. destruct (RedisService.getSocketByUser w u) as [s'|]; [|done].
  destruct (JS.truthy s') eqn:Ht; [|done]. by intros [= <-].
Qed.

(** What [handleMessageSend] does for an authenticated sender. *)
Lemma handleMessageSend_trace client toUserId content w fromUserId :
  Socket.authenticated client = Some fromUserId →
  run (Gateway.handleMessageSend client toUserId content) w
  = if nextFault w
    then (withDb w (db w) (tail (dbFaults w)), [messageError client])
    else
      let stored := Db.insertMessage fromUserId toUserId content false (db w) (clock w) in
      (withBackground (withDb w stored.2 (tail (dbFaults w)))
                      (background w ++ [StyleUpdate fromUserId]),
       match onlineHandle w toUserId with
       | Some s => [Emit (ToRoom s) "message:receive" (DirectMessage stored.1)]
       | None => []
       end ++ [Emit (ToClient (Socket.id client)) "message:sent" (DirectMessage stored.1)]).
Proof.
  intros Hauth. unfold Gateway.handleMessageSend, run. rewrite Hauth.
  unfold tryCatch, ChatService.sendMessage. unfold bind at 1.
  destruct (nextFault w) eqn:Hf.
  - unfold nextFault in Hf. destruct (dbFaults w) as [|[] rest] eqn:Hd; try done.
    erewrite statement_fault by done. reflexivity.
  - rewrite statement_next by done. simpl.
    unfold bind at 1. unfold spawn, modify. simpl.
    unfold bind at 1. rewrite emitToUser_run.
    match goal with |- context [onlineHandle ?w' toUserId] =>
      change (onlineHandle w' toUserId) with (onlineHandle w toUserId) end.
    destruct (onlineHandle w toUserId); reflexivity.
Qed.

(** C7.  For an authenticated sender: if the insert throws, the only event
    is [message:error] to the sender and no message is stored; if it
    succeeds, the message is stored and the trace ends with [message:sent]
    to the sender, preceded by one [message:receive] when the recipient
    resolves to a socket and by nothing when it does not. *)
Theorem handleMessageSend_persist_then_ack client toUserId content w fromUserId
    (Hauth : Socket.authenticated client = Some fromUserId) :
  let after := run (Gateway.handleMessageSend client toUserId content) w in
  (nextFault w = true →
     after.2 = [Emit (ToClient (Socket.id client)) "message:error"
                     (ErrorMsg "Failed to send message")]
     ∧ named "message:receive" after.2 = []
     ∧ named "message:sent" after.2 = []
     ∧ Db.messages (db after.1) = Db.messages (db w))
  ∧ (nextFault w = false →
     ∃ message delivered,
       Db.messages (db after.1) = Db.messages (db w) ++ [message]
       ∧ Db.fromUserId message = fromUserId ∧ Db.toUserId message = toUserId
       ∧ Db.content message = content ∧ Db.isAIGenerated message = false
       ∧ after.2 = delivered
                   ++ [Emit (ToClient (Socket.id client)) "message:sent"
                            (DirectMessage message)]
       ∧ (onlineHandle w toUserId = None → delivered = [])
       ∧ (∀ s, onlineHandle w toUserId = Some s →
               delivered = [Emit (ToRoom s) "message:receive" (DirectMessage message)])).
Proof.
  intros after. subst after. rewrite (handleMessageSend_trace _ _ _ _ _ Hauth).
  split; intros Hf; rewrite Hf.
  - done.
  - simpl. eexists _, _. split_and!; try reflexivity.
    + by intros ->.
    + by intros s ->.
Qed.

(** C6.  For an authenticated sender, a successful insert and a recipient
    the registry reports online: the trace is exactly [message:receive] to
    the recipient's socket followed by [message:sent] to the sender's, both
    carrying the stored message; each of the two sockets is sent its event
    once. *)
Theorem handleMessageSend_online_delivery client toUserId content w fromUserId
    (Hauth : Socket.authenticated client = Some fromUserId)
    (Hstored : nextFault w = false)
    (Honline : RedisService.isUserOnline w toUserId = true) :
  let after := run (Gateway.handleMessageSend client toUserId content) w in
  ∃ s message,
    RedisService.getSocketByUser w toUserId = Some s
    ∧ Db.messages (db after.1) = Db.messages (db w) ++ [message]
    ∧ Db.fromUserId message = fromUserId ∧ Db.toUserId message = toUserId
    ∧ Db.content message = content
    ∧ after.2 = [Emit (ToRoom s) "message:receive" (DirectMessage message);
                 Emit (ToClient (Socket.id client)) "message:sent" (DirectMessage message)]
    ∧ receivedBy s "message:receive" after.2 = [DirectMessage message]
    ∧ receivedBy (Socket.id client) "message:sent" after.2 = [DirectMessage message].
Proof.
  intros after. subst after. rewrite (handleMessageSend_trace _ _ _ _ _ Hauth), Hstored.
  apply isUserOnline_handle in Honline as [s Hs]. rewrite Hs.
  destruct (onlineHandle_socket _ _ _ Hs) as [Hsock _].
  eexists s, _. simpl. split_and!; try reflexivity; try done.
  - unfold receivedBy, named. by filter_eval.
  - unfold receivedBy, named. by filter_eval.
Qed.

Lemma handleMessageSend_persist_then_ack_witness :
  Socket.authenticated aliceSocket = Some "alice"
  ∧ (run (Gateway.handleMessageSend aliceSocket "bob" "hi") twoOnlineDbDown).2
    = [Emit (ToClient "s1") "message:error" (ErrorMsg "Failed to send message")].
Proof.
  split; [reflexivity|].
  destruct (handleMessageSend_persist_then_ack aliceSocket "bob" "hi" twoOnlineDbDown
              "alice" eq_refl) as [Hfail _].
  exact (proj1 (Hfail eq_refl)).
Defined.

Lemma handleMessageSend_online_delivery_witness :
  Socket.authenticated aliceSocket = Some "alice"
  ∧ nextFault twoOnline = false
  ∧ RedisService.isUserOnline twoOnline "bob" = true
  ∧ ∃ message,
      (run (Gateway.handleMessageSend aliceSocket "bob" "hi") twoOnline).2
      = [Emit (ToRoom "s2") "message:receive" (DirectMessage message);
         Emit (ToClient "s1") "message:sent" (DirectMessage message)].
Proof.
  split; [reflexivity|]. split; [reflexivity|]. split; [reflexivity|].
  destruct (handleMessageSend_online_delivery aliceSocket "bob" "hi" twoOnline "alice"
              eq_refl eq_refl eq_refl) as (s & message & Hs & _ & _ & _ & _ & Hout & _).
  exists message. vm_compute in Hs. injection Hs as <-. exact Hout.
Defined.

(** ** Group messages *)

Lemma select_next {A} (q : Db.tables → A) w :
  nextFault w = false → select q w = (inr (q (db w)), advance w, []).
Proof. intros H. unfold select. by rewrite statement_next. Qed.

Lemma statement_throws {A} (q : Db.tables → Z → A * Db.tables) w :
  nextFault w = true → statement q w = (inl DbError, advance w, []).
Proof.
  unfold nextFault, advance. destruct (dbFaults w) as [|[] rest] eqn:Hd; try done.
  intros _. by erewrite statement_fault.
Qed.

Lemma onlineHandle_ext w w' u :
  redis w' = redis w → clock w' = clock w → onlineHandle w' u = onlineHandle w u.
Proof.
  intros Hr Hc. unfold onlineHandle, RedisService.getSocketByUser. by rewrite Hr, Hc.
Qed.

Lemma emitToMembers_run w ms except ev d :
  Gateway.emitToMembers ms except ev d w = (inr tt, w, emitsTo w ms except ev d).
Proof.
  unfold Gateway.emitToMembers, emitsTo. induction ms as [|m ms IH]; [reflexivity|].
  csimpl. unfold bind at 1. destruct (decide (Some (GroupsService.userId m) = except)).
  - simpl. rewrite IH. reflexivity.
  - unfold bind at 1. rewrite emitToUser_run.
    destruct (onlineHandle w (GroupsService.userId m)); simpl; rewrite IH; reflexivity.
Qed.

Lemma emitsTo_ext w w' ms except ev d :
  redis w' = redis w → clock w' = clock w →
  emitsTo w' ms except ev d = emitsTo w ms except ev d.
Proof.
  intros Hr Hc. unfold emitsTo. induction ms as [|m ms IH]; [reflexivity|].
  csimpl. by rewrite IH, (onlineHandle_ext w w').
Qed.

Lemma named_emitsTo w ms except ev d :
  named ev (emitsTo w ms except ev d) = emitsTo w ms except ev d.
Proof.
  unfold named, emitsTo. induction ms as [|m ms IH]; [reflexivity|].
  csimpl. destruct (decide _); [done|].
  destruct (onlineHandle w (GroupsService.userId m)); csimpl; [|done].
  rewrite filter_cons_True by done. by rewrite IH.
Qed.

Lemma named_emitsTo_other w ms except ev ev' d :
  ev ≠ ev' → named ev' (emitsTo w ms except ev d) = [].
Proof.
  intros Hne. unfold named, emitsTo. induction ms as [|m ms IH]; [reflexivity|].
  csimpl. destruct (decide _); [done|].
  destruct (onlineHandle w (GroupsService.userId m)); csimpl; [|done].
  rewrite filter_cons_False by done. by rewrite IH.
Qed.

Lemma named_app ev xs ys : named ev (xs ++ ys) = named ev xs ++ named ev ys.
Proof. unfold named. apply filter_app. Qed.


Lemma select_throws {A} (q : Db.tables → A) w :
  nextFault w = true → select q w = (inl DbError, advance w, []).
Proof. intros H. unfold select. by rewrite statement_throws. Qed.

(** *** Inversion of a run: what a finished computation went through *)

Lemma bind_inv {A B} (m : M A) (k : A → M B) w r w' out :
  bind m k w = (r, w', out) →
  (∃ e, m w = (inl e, w', out) ∧ r = inl e)
  ∨ (∃ a w1 o1 o2, m w = (inr a, w1, o1) ∧ k a w1 = (r, w', o2) ∧ out = o1 ++ o2).
Proof.
  unfold bind. destruct (m w) as [[[e|a] w1] o1].
  - intros [= <- <- <-]. left. eauto.
  - destruct (k a w1) as [[r2 w2] o2] eqn:Hk. intros [= <- <- <-].
    right. eauto 10.
Qed.

Lemma tryCatch_inv {A} (body : M A) (handler : Exn → M A) w r w' out :
  tryCatch body handler w = (r, w', out) →
  (∃ a, body w = (inr a, w', out) ∧ r = inr a)
  ∨ (∃ e w1 o1 o2, body w = (inl e, w1, o1) ∧ handler e w1 = (r, w', o2)
                    ∧ out = o1 ++ o2).
Proof.
  unfold tryCatch. destruct (body w) as [[[e|a] w1] o1].
  - destruct (handler e w1) as [[r2 w2] o2] eqn:Hh. intros [= <- <- <-].
    right. eauto 10.
  - intros [= <- <- <-]. left. eauto.
Qed.

Lemma statement_inv {A} (q : Db.tables → Z → A * Db.tables) w r w' out :
  statement q w = (r, w', out) →
  out = []
  ∧ ((r = inl DbError ∧ w' = advance w)
     ∨ (r = inr (q (db w) (clock w)).1
        ∧ w' = withDb w (q (db w) (clock w)).2 (tail (dbFaults w)))).
Proof.
  destruct (nextFault w) eqn:Hf.
  - rewrite statement_throws by done. intros [= <- <- <-]. eauto.
  - rewrite statement_next by done. intros [= <- <- <-]. eauto.
Qed.

Lemma select_inv {A} (q : Db.tables → A) w r w' out :
  select q w = (r, w', out) →
  out = [] ∧ w' = advance w ∧ (r = inl DbError ∨ r = inr (q (db w))).
Proof.
  unfold select. intros H. apply statement_inv in H as [-> [[-> ->]|[-> ->]]]; eauto.
Qed.

(** Take a hypothesis about a finished run apart, one construct at a time. *)
Ltac run_inv :=
  repeat match goal with
  | H : bind _ _ _ = (_, _, _) |- _ =>
      apply bind_inv in H as [(? & H & ?) | (? & ? & ? & ? & H & ? & ?)]
  | H : tryCatch _ _ _ = (_, _, _) |- _ =>
      apply tryCatch_inv in H as [(? & H & ?) | (? & ? & ? & ? & H & ? & ?)]
  | H : select _ _ = (_, _, _) |- _ =>
      apply select_inv in H as (? & ? & [?|?])
  | H : statement _ _ = (_, _, _) |- _ =>
      apply statement_inv in H as (? & [[? ?]|[? ?]])
  | H : ret _ _ = (_, _, _) |- _ => unfold ret in H
  | H : throw _ _ = (_, _, _) |- _ => unfold throw in H
  | H : emit _ _ _ _ = (_, _, _) |- _ => unfold emit in H
  | H : gets _ _ = (_, _, _) |- _ => unfold gets in H
  | H : spawn _ _ = (_, _, _) |- _ => unfold spawn, modify in H
  | H : Gateway.emitToMembers _ _ _ _ _ = (_, _, _) |- _ =>
      rewrite emitToMembers_run in H
  | H : (if ?c then _ else _) _ = (_, _, _) |- _ => destruct c eqn:?
  | H : match ?o with Some _ => _ | None => _ end _ = (_, _, _) |- _ =>
      destruct o eqn:?
  | _ => progress simplify_eq
  end.






(** ** The presence registry *)

Lemma string_app_length (s t : string) :
  String.length (s +:+ t) = String.length s + String.length t.
Proof.
  induction s as [|a s IH]; [reflexivity|].
  change (S (String.length (s +:+ t)) = S (String.length s + String.length t)).
  by rewrite IH.
Qed.

Lemma string_app_inj_r (t s1 s2 : string) : s1 +:+ t = s2 +:+ t → s1 = s2.
Proof.
  revert s2. induction s1 as [|a s1 IH]; intros [|b s2] Heq; [done| | |].
  - apply (f_equal String.length) in Heq.
    change (String.length t = S (String.length (s2 +:+ t))) in Heq.
    rewrite string_app_length in Heq. lia.
  - apply (f_equal String.length) in Heq.
    change (S (String.length (s1 +:+ t)) = String.length t) in Heq.
    rewrite string_app_length in Heq. lia.
  - change (String a (s1 +:+ t) = String b (s2 +:+ t)) in Heq.
    injection Heq as -> Heq. f_equal. by apply IH.
Qed.

Lemma userKey_inj u v : RedisService.userKey u = RedisService.userKey v → u = v.
Proof.
  unfold RedisService.userKey. intros H.
  apply (inj (String.app "user:")) in H. by apply string_app_inj_r in H.
Qed.

Lemma userKey_socketKey u s : RedisService.userKey u ≠ RedisService.socketKey s.
Proof.
  unfold RedisService.userKey, RedisService.socketKey.
  change ("user:" +:+ u +:+ ":socket") with (String "u" ("ser:" +:+ u +:+ ":socket")).
  change ("socket:" +:+ s +:+ ":user") with (String "s" ("ocket:" +:+ s +:+ ":user")).
  discriminate.
Qed.

Lemma isUserOnline_configured w c v :
  redis w = Some c → Redis.reachable c = true →
  RedisService.isUserOnline w v
  = JS.truthyOpt (Redis.kv c !! RedisService.userKey v ≫= Redis.read (clock w)).
Proof.
  intros Hc Hr. unfold RedisService.isUserOnline, Redis.get. by rewrite Hc, Hr.
Qed.

Lemma setUserOnline_online w u h v :
  configured w → JS.truthy h = true →
  configured (RedisService.setUserOnline u h w)
  ∧ RedisService.isUserOnline (RedisService.setUserOnline u h w) v
    = if decide (u = v) then true else RedisService.isUserOnline w v.
Proof.
  intros (c & Hc & Hr) Hh. unfold RedisService.setUserOnline, Redis.set.
  rewrite Hc, Hr. simpl. split.
  { eexists. split; [reflexivity|done]. }
  erewrite isUserOnline_configured by (simpl; done). simpl.
  rewrite lookup_insert_ne by (apply not_eq_sym, userKey_socketKey).
  destruct (decide (u = v)) as [->|Hne].
  - rewrite lookup_insert_eq. simpl. unfold Redis.read. simpl.
    assert ((clock w <? clock w + RedisService.ttl * 1000)%Z = true) as ->
      by (apply Z.ltb_lt; unfold RedisService.ttl; lia).
    done.
  - rewrite lookup_insert_ne by (intros Hk; apply userKey_inj in Hk; done).
    by rewrite (isUserOnline_configured w c).
Qed.

Lemma setUserOffline_online w u v :
  configured w →
  configured (RedisService.setUserOffline u w)
  ∧ RedisService.isUserOnline (RedisService.setUserOffline u w) v
    = if decide (u = v) then false else RedisService.isUserOnline w v.
Proof.
  intros (c & Hc & Hr). unfold RedisService.setUserOffline, Redis.get.
  rewrite Hc, Hr.
  set (held := Redis.kv c !! RedisService.userKey u ≫= Redis.read (clock w)).
  assert (Hdel : ∃ kv1, match held with
                   | Some s => if JS.truthy s then Redis.del c (RedisService.socketKey s)
                               else inr c
                   | None => inr c
                   end = inr (Redis.Client kv1 true)
                 ∧ kv1 !! RedisService.userKey v = Redis.kv c !! RedisService.userKey v
                 ∧ kv1 !! RedisService.userKey u = Redis.kv c !! RedisService.userKey u).
  { destruct c as [kv r]. simpl in Hr. subst r.
    destruct held as [s|]; [destruct (JS.truthy s)|]; try (eexists; by split).
    unfold Redis.del. simpl. eexists. split; [reflexivity|].
    split; apply lookup_delete_ne, not_eq_sym, userKey_socketKey. }
  destruct Hdel as (kv1 & -> & Hv & Hu). unfold Redis.del. simpl. split.
  { eexists. split; [reflexivity|done]. }
  erewrite isUserOnline_configured by (simpl; done). simpl.
  destruct (decide (u = v)) as [->|Hne].
  - by rewrite lookup_delete_eq.
  - rewrite lookup_delete_ne by (intros Hk; apply userKey_inj in Hk; done).
    by rewrite Hv, (isUserOnline_configured w c).
Qed.

Lemma applyEvent_online w ev v :
  configured w → wellFormed ev →
  configured (applyEvent w ev)
  ∧ RedisService.isUserOnline (applyEvent w ev) v
    = if decide (eventUser ev = v)
      then match ev with Register _ _ => true | Deregister _ _ => false end
      else RedisService.isUserOnline w v.
Proof.
  intros Hw [Hu Hh]. destruct ev as [u h|u h]; simpl in *.
  - apply setUserOnline_online; done.
  - unfold Gateway.handleDisconnect, Socket.authenticated. simpl. rewrite Hu.
    apply setUserOffline_online; done.
Qed.

Lemma lastFor_snoc u evs ev :
  lastFor u (evs ++ [ev])
  = if decide (eventUser ev = u) then Some ev else lastFor u evs.
Proof.
  unfold lastFor. rewrite filter_app. destruct (decide (eventUser ev = u)).
  - rewrite filter_cons_True, filter_nil by done. apply last_snoc.
  - rewrite filter_cons_False, filter_nil by done. by rewrite app_nil_r.
Qed.

Lemma lastFor_user u evs ev : lastFor u evs = Some ev → eventUser ev = u.
Proof.
  unfold lastFor. intros H%last_Some_elem_of. by apply list_elem_of_filter in H as [? _].
Qed.

(** After any run of well-formed events on a configured store, [u] is
    online or not according to the most recent event about [u]. *)
Lemma applyEvents_online evs w u :
  configured w → Forall wellFormed evs →
  configured (applyEvents evs w)
  ∧ RedisService.isUserOnline (applyEvents evs w) u
    = match lastFor u evs with
      | Some (Register _ _) => true
      | Some (Deregister _ _) => false
      | None => RedisService.isUserOnline w u
      end.
Proof.
  intros Hw. induction evs as [|ev evs IH] using rev_ind; intros Hwf.
  { done. }
  apply Forall_app in Hwf as [Hevs Hev%Forall_inv].
  destruct (IH Hevs) as [Hconf Hon].
  unfold applyEvents in *. rewrite foldl_snoc, lastFor_snoc.
  destruct (applyEvent_online (foldl applyEvent w evs) ev u Hconf Hev) as [Hc' ->].
  split; [done|]. destruct (decide (eventUser ev = u)); done.
Qed.

(** C3, as stated, fails: Bob's second socket registers, then his first
    socket disconnects.  No deregister for the newer handle s2 has occurred,
    so the sentence has Bob online; the registry has him offline. *)
Lemma superseded_disconnect_evicts_newer :
  specIsOnline reconnectRace "bob" = true
  ∧ RedisService.isUserOnline (applyEvents reconnectRace (blankWorld Db.empty)) "bob"
    = false.
Proof. split; vm_compute; reflexivity. Qed.

(** *** The registry as time passes *)

Lemma isUserOnline_userEntry w u :
  configured w →
  RedisService.isUserOnline w u = JS.truthyOpt (userEntry w u ≫= Redis.read (clock w)).
Proof.
  intros (c & Hc & Hr). rewrite (isUserOnline_configured w c) by done.
  unfold userEntry. by rewrite Hc.
Qed.

Lemma setUserOnline_userEntry w u h v :
  configured w →
  configured (RedisService.setUserOnline u h w)
  ∧ clock (RedisService.setUserOnline u h w) = clock w
  ∧ userEntry (RedisService.setUserOnline u h w) v
    = if decide (u = v) then Some (Redis.Entry h (clock w + DAY)) else userEntry w v.
Proof.
  intros (c & Hc & Hr). unfold RedisService.setUserOnline, Redis.set, userEntry.
  rewrite Hc, Hr. simpl. split_and!.
  - eexists. split; [reflexivity|done].
  - done.
  - rewrite lookup_insert_ne by (apply not_eq_sym, userKey_socketKey).
    destruct (decide (u = v)) as [->|Hne].
    + by rewrite lookup_insert_eq.
    + rewrite lookup_insert_ne by (intros Hk; apply userKey_inj in Hk; done). done.
Qed.

Lemma setUserOffline_userEntry w u v :
  configured w →
  configured (RedisService.setUserOffline u w)
  ∧ clock (RedisService.setUserOffline u w) = clock w
  ∧ userEntry (RedisService.setUserOffline u w) v
    = if decide (u = v) then None else userEntry w v.
Proof.
  intros (c & Hc & Hr). unfold RedisService.setUserOffline, Redis.get, userEntry.
  rewrite Hc, Hr.
  set (held := Redis.kv c !! RedisService.userKey u ≫= Redis.read (clock w)).
  assert (Hdel : ∃ kv1, match held with
                   | Some s => if JS.truthy s then Redis.del c (RedisService.socketKey s)
                               else inr c
                   | None => inr c
                   end = inr (Redis.Client kv1 true)
                 ∧ ∀ x, kv1 !! RedisService.userKey x = Redis.kv c !! RedisService.userKey x).
  { destruct c as [kv r]. simpl in Hr. subst r.
    destruct held as [s|]; [destruct (JS.truthy s)|]; try (eexists; by split).
    unfold Redis.del. simpl. eexists. split; [reflexivity|].
    intros x. apply lookup_delete_ne, not_eq_sym, userKey_socketKey. }
  destruct Hdel as (kv1 & -> & Hkv). unfold Redis.del. simpl. split_and!.
  - eexists. split; [reflexivity|done].
  - done.
  - destruct (decide (u = v)) as [->|Hne].
    + by rewrite lookup_delete_eq.
    + rewrite lookup_delete_ne by (intros Hk; apply userKey_inj in Hk; done).
      by rewrite Hkv.
Qed.

Lemma happen_userEntry w h v :
  configured w → wellFormedHappening h →
  configured (happen w h)
  ∧ (clock w ≤ clock (happen w h))%Z
  ∧ match h with
    | Presence (Register u s) =>
        clock (happen w h) = clock w
        ∧ userEntry (happen w h) v
          = if decide (u = v) then Some (Redis.Entry s (clock w + DAY)) else userEntry w v
    | Presence (Deregister u s) =>
        clock (happen w h) = clock w
        ∧ userEntry (happen w h) v = if decide (u = v) then None else userEntry w v
    | Elapse ms =>
        clock (happen w h) = (clock w + Z.of_N ms)%Z
        ∧ userEntry (happen w h) v = userEntry w v
    end.
Proof.
  intros Hconf Hwf. destruct h as [[u s|u s]|ms]; simpl in *.
  - destruct (setUserOnline_userEntry w u s v Hconf) as (? & Hc & ?).
    split_and!; try done. lia.
  - destruct Hwf as [Hu _]. simpl in Hu.
    unfold Gateway.handleDisconnect, Socket.authenticated. simpl. rewrite Hu. simpl.
    destruct (setUserOffline_userEntry w u v Hconf) as (? & Hc & ?).
    split_and!; try done. lia.
  - split_and!; try done. lia.
Qed.

Lemma lastSeen_snoc u hs h : lastSeen u (hs ++ [h]) = lastSeenStep u (lastSeen u hs) h.
Proof. unfold lastSeen. by rewrite foldl_snoc. Qed.

(** After any well-formed happenings on a configured store, the entry of
    [u] is the one its most recent register wrote, if that is the most
    recent event about [u]. *)
Lemma happenAll_userEntry hs w u :
  configured w → Forall wellFormedHappening hs →
  configured (happenAll hs w)
  ∧ (clock w ≤ clock (happenAll hs w))%Z
  ∧ match lastSeen u hs with
    | Some (Register _ s, since) =>
        JS.truthy s = true ∧ (0 ≤ since)%Z
        ∧ userEntry (happenAll hs w) u
          = Some (Redis.Entry s (clock (happenAll hs w) - since + DAY))
    | Some (Deregister _ _, _) => userEntry (happenAll hs w) u = None
    | None => userEntry (happenAll hs w) u = userEntry w u
    end.
Proof.
  intros Hw. induction hs as [|h hs IH] using rev_ind; intros Hwf.
  { split_and!; [done|simpl; lia|done]. }
  apply Forall_app in Hwf as [Hhs Hh%Forall_inv].
  destruct (IH Hhs) as (Hconf & Hclock & Hentry).
  unfold happenAll in *. rewrite foldl_snoc, lastSeen_snoc.
  destruct (happen_userEntry (foldl happen w hs) h u Hconf Hh) as (Hconf' & Hle & Hstep).
  split; [done|]. split; [lia|].
  destruct h as [[v s|v s]|ms]; simpl in Hstep |- *.
  - destruct Hstep as [Hc ->]. destruct (decide (v = u)) as [->|Hne].
    + destruct Hh as [_ Hs]. split_and!; [done|lia|]. do 2 f_equal. lia.
    + destruct (lastSeen u hs) as [[[? ?|? ?] since]|]; [|done..].
      destruct Hentry as (? & ? & ->). split_and!; [done..|]. by rewrite Hc.
  - destruct Hstep as [Hc ->]. destruct (decide (v = u)) as [->|Hne]; [done|].
    destruct (lastSeen u hs) as [[[? ?|? ?] since]|]; [|done..].
    destruct Hentry as (? & ? & ->). split_and!; [done..|]. by rewrite Hc.
  - destruct Hstep as [Hc ->].
    destruct (lastSeen u hs) as [[[? ?|? ?] since]|]; simpl; [|done..].
    destruct Hentry as (? & ? & ->). split_and!; [done|lia|]. do 2 f_equal. lia.
Qed.

Lemma lastSeen_user u hs ev since : lastSeen u hs = Some (ev, since) → eventUser ev = u.
Proof.
  revert ev since. induction hs as [|h hs IH] using rev_ind; intros ev since; [done|].
  rewrite lastSeen_snoc. destruct h as [ev'|ms]; simpl.
  - destruct (decide (eventUser ev' = u)); [by intros [= <- _]|apply IH].
  - destruct (lastSeen u hs) as [[ev0 since0]|]; [|done]. simpl.
    intros [= <- _]. by apply (IH ev0 since0).
Qed.

(** Time passing never brings a user online. *)
Lemma offline_later (entry : option Redis.entry) now later :
  (now ≤ later)%Z →
  JS.truthyOpt (entry ≫= Redis.read now) = false →
  JS.truthyOpt (entry ≫= Redis.read later) = false.
Proof.
  intros Hle. destruct entry as [[v e]|]; [|done]. unfold Redis.read. simpl.
  destruct (Z.ltb_spec now e), (Z.ltb_spec later e); try done. lia.
Qed.

(** C3, amended.  On a configured and reachable store where [u] starts
    offline, after any sequence of register and deregister events (with
    non-empty ids) and lapses of time, [isUserOnline u] is true iff the
    most recent event about [u] is a register and less than 24 hours have
    passed since: a deregister of [u] takes [u] offline whichever socket's
    disconnect caused it, and so does a day without a new register. *)
Theorem presence_last_event_wins hs w u
    (Hconf : configured w)
    (Hwf : Forall wellFormedHappening hs)
    (Hoff : RedisService.isUserOnline w u = false) :
  RedisService.isUserOnline (happenAll hs w) u = true
  ↔ ∃ h since, lastSeen u hs = Some (Register u h, since) ∧ (since < DAY)%Z.
Proof.
  destruct (happenAll_userEntry hs w u Hconf Hwf) as (Hconf' & Hclock & Hentry).
  rewrite (isUserOnline_userEntry _ u Hconf').
  destruct (lastSeen u hs) as [[[v h|v h] since]|] eqn:Hlast.
  - apply lastSeen_user in Hlast as Hv. simpl in Hv. subst v.
    destruct Hentry as (Hh & Hsince & ->). simpl. unfold Redis.read. simpl.
    destruct (Z.ltb_spec (clock (happenAll hs w))
                (clock (happenAll hs w) - since + DAY)) as [Hlive|Hgone]; simpl.
    + rewrite Hh. split; [|done]. intros _. exists h, since. split; [done|lia].
    + split; [done|]. intros (h' & since' & [= <- <-] & ?). lia.
  - rewrite Hentry. simpl. split; [done|]. by intros (? & ? & ? & _).
  - rewrite Hentry. rewrite (isUserOnline_userEntry w u Hconf) in Hoff.
    rewrite (offline_later _ _ _ Hclock Hoff). split; [done|]. by intros (? & ? & ? & _).
Qed.

Lemma presence_last_event_wins_witness :
  configured (blankWorld Db.empty)
  ∧ Forall wellFormedHappening bobsDay
  ∧ RedisService.isUserOnline (blankWorld Db.empty) "bob" = false
  ∧ RedisService.isUserOnline (happenAll bobsDay (blankWorld Db.empty)) "bob" = true
  ∧ RedisService.isUserOnline
      (happenAll (bobsDay ++ [Elapse 1]) (blankWorld Db.empty)) "bob" = false.
Proof.
  assert (Hconf : configured (blankWorld Db.empty)).
  { exists Redis.fresh. split; reflexivity. }
  assert (Hwf : Forall wellFormedHappening bobsDay) by (repeat constructor).
  assert (Hwf' : Forall wellFormedHappening (bobsDay ++ [Elapse 1]))
    by (repeat constructor).
  split; [exact Hconf|]. split; [exact Hwf|]. split; [reflexivity|]. split.
  - apply (presence_last_event_wins bobsDay _ "bob" Hconf Hwf eq_refl).
    exists "s2", 86399999%Z. split; reflexivity.
  - apply not_true_is_false. intros Hon.
    apply (presence_last_event_wins (bobsDay ++ [Elapse 1]) _ "bob" Hconf Hwf' eq_refl)
      in Hon as (h & since & [= <- <-] & Hlt).
    unfold DAY in Hlt. lia.
Defined.

(** Events that follow each other within one instant are the happenings
    with no lapse of time between them. *)
Lemma happenAll_presence evs w : happenAll (Presence <$> evs) w = applyEvents evs w.
Proof.
  unfold happenAll, applyEvents. revert w.
  induction evs as [|ev evs IH]; intros w; [done|]. simpl. apply IH.
Qed.

Lemma lastSeen_presence u evs :
  lastSeen u (Presence <$> evs) = (fun ev => (ev, 0%Z)) <$> lastFor u evs.
Proof.
  induction evs as [|ev evs IH] using rev_ind; [done|].
  rewrite fmap_app. change (Presence <$> [ev]) with [Presence ev].
  rewrite lastSeen_snoc, lastFor_snoc, IH. simpl.
  by destruct (decide (eventUser ev = u)).
Qed.

(** The entry of a user who stays connected is gone 24 hours after the
    registration, although no deregister has occurred. *)
Lemma presence_expires_after_ttl :
  RedisService.isUserOnline (withClock bobRegistered 86399999) "bob" = true
  ∧ RedisService.isUserOnline (withClock bobRegistered 86400000) "bob" = false.
Proof. split; vm_compute; reflexivity. Qed.

(** ** Computations that emit nothing and leave presence alone *)

Lemma quiet_ret {A} (a : A) : Quiet (ret a).
Proof. by intros w r w' out [= <- <- <-]. Qed.

Lemma quiet_throw {A} e : Quiet (@throw A e).
Proof. by intros w r w' out [= <- <- <-]. Qed.

Lemma quiet_gets {A} (f : World → A) : Quiet (gets f).
Proof. by intros w r w' out [= <- <- <-]. Qed.

Lemma quiet_statement {A} (q : Db.tables → Z → A * Db.tables) : Quiet (statement q).
Proof.
  intros w r w' out H. apply statement_inv in H as (-> & [[_ ->]|[_ ->]]); done.
Qed.

Lemma quiet_select {A} (q : Db.tables → A) : Quiet (select q).
Proof. apply quiet_statement. Qed.

Lemma quiet_bind {A B} (m : M A) (k : A → M B) :
  Quiet m → (∀ a, Quiet (k a)) → Quiet (bind m k).
Proof.
  intros Hm Hk w r w' out H.
  apply bind_inv in H as [(e & H & _)|(a & w1 & o1 & o2 & H1 & H2 & ->)].
  - by apply Hm in H.
  - apply Hm in H1 as (-> & Hr1 & Hc1). apply Hk in H2 as (-> & Hr2 & Hc2).
    split; [done|]. split; congruence.
Qed.

Lemma quiet_tryCatch {A} (body : M A) (handler : Exn → M A) :
  Quiet body → (∀ e, Quiet (handler e)) → Quiet (tryCatch body handler).
Proof.
  intros Hm Hk w r w' out H.
  apply tryCatch_inv in H as [(a & H & _)|(e & w1 & o1 & o2 & H1 & H2 & ->)].
  - by apply Hm in H.
  - apply Hm in H1 as (-> & Hr1 & Hc1). apply Hk in H2 as (-> & Hr2 & Hc2).
    split; [done|]. split; congruence.
Qed.

Lemma quiet_mapM {A B} (f : A → M B) xs : (∀ x, Quiet (f x)) → Quiet (mapM f xs).
Proof.
  intros Hf. induction xs as [|x xs IH]; simpl.
  - apply quiet_ret.
  - apply quiet_bind; [done|]. intros y. apply quiet_bind; [done|].
    intros ys. apply quiet_ret.
Qed.

Lemma quiet_create system user : Quiet (OpenAI.create system user).
Proof.
  intros w r w' out. unfold OpenAI.create.
  destruct (openaiReplies w); by intros [= <- <- <-].
Qed.

Create HintDb quiet.
#[local] Hint Resolve quiet_ret quiet_throw quiet_gets quiet_statement quiet_select
  quiet_create : quiet.

(** Decompose a goal [Quiet m] along the structure of [m]. *)
Ltac quiet :=
  repeat match goal with
  | |- Quiet (bind _ _) => apply quiet_bind; [|intros ?]
  | |- Quiet (tryCatch _ _) => apply quiet_tryCatch; [|intros ?]
  | |- Quiet (mapM _ _) => apply quiet_mapM; intros ?
  | |- Quiet (if ?c then _ else _) => destruct c
  | |- Quiet (match ?x with _ => _ end) => destruct x
  | |- Quiet _ => solve [auto with quiet]
  end.

Lemma quiet_getStyleProfile u : Quiet (StyleProfileService.getStyleProfile u).
Proof. unfold StyleProfileService.getStyleProfile. quiet. Qed.

Lemma quiet_streamOrApologise p m a : Quiet (streamOrApologise p m a).
Proof. unfold streamOrApologise. quiet. Qed.

#[local] Hint Resolve quiet_getStyleProfile quiet_streamOrApologise : quiet.

Lemma quiet_generateAIResponseStream u msg :
  Quiet (AIFriendService.generateAIResponseStream u msg).
Proof.
  unfold AIFriendService.generateAIResponseStream, AIFriendService.hasMinimumData.
  quiet.
Qed.

Lemma quiet_getGroupStyleProfile g : Quiet (GroupAIProfileService.getGroupStyleProfile g).
Proof. unfold GroupAIProfileService.getGroupStyleProfile. quiet. Qed.

#[local] Hint Resolve quiet_getGroupStyleProfile : quiet.

Lemma quiet_group_shouldUpdateProfile g :
  Quiet (GroupAIProfileService.shouldUpdateProfile g).
Proof. unfold GroupAIProfileService.shouldUpdateProfile. quiet. Qed.

Lemma quiet_updateGroupStyleProfile `{StyleAnalyzer} g :
  Quiet (GroupAIProfileService.updateGroupStyleProfile g).
Proof. unfold GroupAIProfileService.updateGroupStyleProfile. quiet. Qed.

Lemma quiet_generateGroupAIResponseStream g msg :
  Quiet (GroupAIService.generateGroupAIResponseStream g msg).
Proof.
  unfold GroupAIService.generateGroupAIResponseStream, GroupAIService.hasMinimumData.
  quiet.
Qed.

Lemma quiet_isUserInGroup g u : Quiet (GroupsService.isUserInGroup g u).
Proof. unfold GroupsService.isUserInGroup. quiet. Qed.

Lemma quiet_getGroupMembers g : Quiet (GroupsService.getGroupMembers g).
Proof. unfold GroupsService.getGroupMembers. quiet. Qed.

(** ** Streams *)

Lemma forAwait_emit t ev mk chunks full w :
  forAwait chunks full (fun chunk fullResponse => emit t ev (mk chunk fullResponse)) w
  = (inr (foldl String.app full chunks), w, Emit t ev <$> chunkPayloads mk full chunks).
Proof.
  revert full. induction chunks as [|c chunks IH]; intros full; [reflexivity|].
  simpl. unfold bind at 1. unfold emit at 1. rewrite IH. reflexivity.
Qed.

Lemma forAwait_emitToMembers ms ev mk chunks full w :
  forAwait chunks full (fun chunk fullResponse =>
    Gateway.emitToMembers ms None ev (mk chunk fullResponse)) w
  = (inr (foldl String.app full chunks), w,
     chunkPayloads mk full chunks ≫= emitsTo w ms None ev).
Proof.
  revert full. induction chunks as [|c chunks IH]; intros full; [reflexivity|].
  simpl. unfold bind at 1. rewrite emitToMembers_run, IH. reflexivity.
Qed.

Lemma named_fmap t ev ps : named ev (Emit t ev <$> ps) = Emit t ev <$> ps.
Proof.
  unfold named. induction ps as [|p ps IH]; [done|]. csimpl.
  rewrite filter_cons_True by done. by rewrite IH.
Qed.

Lemma named_fmap_other t ev ev' ps : ev ≠ ev' → named ev' (Emit t ev <$> ps) = [].
Proof.
  intros Hne. unfold named. induction ps as [|p ps IH]; [done|]. csimpl.
  by rewrite filter_cons_False.
Qed.

Lemma omap_chunkOf_StreamChunk full chunks :
  omap chunkOf (chunkPayloads StreamChunk full chunks) = chunks.
Proof.
  revert full. induction chunks as [|c chunks IH]; intros full; [done|].
  csimpl. by rewrite IH.
Qed.

Lemma named_nil ev : named ev [] = [].
Proof. done. Qed.

Lemma named_cons_True ev e l : event e = ev → named ev (e :: l) = e :: named ev l.
Proof. intros H. unfold named. by rewrite filter_cons_True. Qed.

Lemma named_cons_False ev e l : event e ≠ ev → named ev (e :: l) = named ev l.
Proof. intros H. unfold named. by rewrite filter_cons_False. Qed.

Lemma named_rounds w ms ev ps :
  named ev (ps ≫= emitsTo w ms None ev) = ps ≫= emitsTo w ms None ev.
Proof.
  induction ps as [|p ps IH]; [done|]. csimpl.
  by rewrite named_app, named_emitsTo, IH.
Qed.

Lemma named_rounds_other w ms ev ev' ps :
  ev ≠ ev' → named ev' (ps ≫= emitsTo w ms None ev) = [].
Proof.
  intros Hne. induction ps as [|p ps IH]; [done|]. csimpl.
  by rewrite named_app, named_emitsTo_other, IH.
Qed.

(** Compute the events of one name in a trace given by its parts. *)
Ltac named_eval :=
  repeat first
    [ rewrite named_app
    | rewrite named_nil
    | rewrite named_fmap
    | rewrite named_fmap_other by done
    | rewrite named_emitsTo
    | rewrite named_emitsTo_other by done
    | rewrite named_rounds
    | rewrite named_rounds_other by done
    | rewrite named_cons_True by done
    | rewrite named_cons_False by done
    | rewrite app_nil_r
    | rewrite app_nil_l ].

(** [run_inv], then the stream loops and the generators. *)
Ltac stream_inv :=
  run_inv;
  repeat match goal with
  | H : forAwait _ _ (fun _ _ => emit _ _ _) _ = (_, _, _) |- _ =>
      rewrite forAwait_emit in H
  | H : forAwait _ _ (fun _ _ => Gateway.emitToMembers _ _ _ _) _ = (_, _, _) |- _ =>
      rewrite forAwait_emitToMembers in H
  | H : AIFriendService.generateAIResponseStream _ _ _ = (_, _, _) |- _ =>
      apply quiet_generateAIResponseStream in H as (? & ? & ?)
  | H : GroupAIService.generateGroupAIResponseStream _ _ _ = (_, _, _) |- _ =>
      apply quiet_generateGroupAIResponseStream in H as (? & ? & ?)
  | H : GroupAIProfileService.shouldUpdateProfile _ _ = (_, _, _) |- _ =>
      apply quiet_group_shouldUpdateProfile in H as (? & ? & ?)
  | H : GroupAIProfileService.updateGroupStyleProfile _ _ = (_, _, _) |- _ =>
      apply quiet_updateGroupStyleProfile in H as (? & ? & ?)
  | H : GroupsService.isUserInGroup _ _ _ = (_, _, _) |- _ =>
      apply quiet_isUserInGroup in H as (? & ? & ?)
  | H : GroupsService.getGroupMembers _ _ = (_, _, _) |- _ =>
      apply quiet_getGroupMembers in H as (? & ? & ?)
  | _ => progress run_inv
  end.


Lemma rounds_ext w w' ms ev ps :
  redis w' = redis w → clock w' = clock w →
  ps ≫= emitsTo w' ms None ev = ps ≫= emitsTo w ms None ev.
Proof.
  intros Hr Hc. induction ps as [|p ps IH]; [done|]. csimpl.
  by rewrite IH, (emitsTo_ext w w').
Qed.

(** Bring every fan-out of the goal back to the world [w], which has the
    same presence. *)
Ltac emits_in w :=
  repeat match goal with
  | |- context [emitsTo ?x ?ms None ?ev ?d] =>
      tryif constr_eq x w then fail
      else rewrite (emitsTo_ext w x ms None ev d) by (simpl; congruence)
  | |- context [?ps ≫= emitsTo ?x ?ms None ?ev] =>
      tryif constr_eq x w then fail
      else rewrite (rounds_ext w x ms ev ps) by (simpl; congruence)
  end.

Lemma handleGroupAIMention_trace `{StyleAnalyzer} client g content w w' out :
  run (Gateway.handleGroupAIMention client g content) w = (w', out) →
  named "group:ai:stream-end" out = []
  ∨ ∃ ms messageId chunks aiMessage,
      out = emitsTo w ms None "group:ai:stream-start" (GroupStreamStart g messageId)
            ++ (chunkPayloads (GroupStreamChunk g) "" chunks
                  ≫= emitsTo w ms None "group:ai:stream-chunk")
            ++ emitsTo w ms None "group:ai:stream-end" (GroupStreamEnd g aiMessage)
      ∧ Db.gm_content aiMessage = JS.concat chunks
      ∧ Db.gm_isAIGenerated aiMessage = true
      ∧ aiMessage ∈ Db.groupMessages (db w').
Proof.
  unfold Gateway.handleGroupAIMention, run.
  destruct (Socket.authenticated client) as [userId|];
    [|simpl; intros [= <- <-]; by left].
  destruct (tryCatch _ _ w) as [[r w1] o] eqn:Hrun. simpl. intros [= <- <-].
  unfold GroupAIService.sendGroupAIMessage, GroupMessageService.sendGroupMessage in Hrun.
  stream_inv; try (left; simpl; by named_eval).
  all: right; emits_in w;
    eexists _, _, _, _; (split; [reflexivity|]);
    simpl; split_and!; try done; set_solver.
Qed.

Lemma receivedBy_named s ev trace :
  receivedBy s ev trace = data <$> filter (fun e => recipient e = Some s) (named ev trace).
Proof. done. Qed.

Lemma receivedBy_emitsTo w ms s ev d :
  receivedBy s ev (emitsTo w ms None ev d) = replicate (rowsOn w ms s) d.
Proof.
  rewrite receivedBy_named, named_emitsTo. unfold emitsTo, rowsOn.
  induction ms as [|m ms IH]; [done|]. csimpl.
  destruct (decide (Some (GroupsService.userId m) = None)); [done|].
  destruct (onlineHandle w (GroupsService.userId m)) as [s'|] eqn:Hs; csimpl.
  - destruct (decide (s' = s)) as [->|Hne].
    + rewrite !filter_cons_True by done. csimpl. f_equal. exact IH.
    + rewrite filter_cons_False by (intros [= ?]; done).
      rewrite filter_cons_False by (rewrite Hs; intros [= ?]; done). exact IH.
  - rewrite filter_cons_False by (rewrite Hs; done). exact IH.
Qed.

Lemma receivedBy_rounds w ms s ev ps :
  receivedBy s ev (ps ≫= emitsTo w ms None ev) = ps ≫= replicate (rowsOn w ms s).
Proof.
  rewrite receivedBy_named, named_rounds.
  induction ps as [|p ps IH]; [done|]. csimpl.
  rewrite filter_app, fmap_app, IH. f_equal.
  rewrite <- (named_emitsTo w ms None ev p). apply receivedBy_emitsTo.
Qed.

Lemma receivedBy_fmap_client s ev ps :
  receivedBy s ev (Emit (ToClient s) ev <$> ps) = ps.
Proof.
  rewrite receivedBy_named, named_fmap.
  induction ps as [|p ps IH]; [done|]. csimpl.
  rewrite filter_cons_True by done. csimpl. by rewrite IH.
Qed.



Lemma omap_chunkOf_replicate g k c full :
  omap chunkOf (replicate k (GroupStreamChunk g c full)) = replicate k c.
Proof. induction k as [|k IH]; [done|]. csimpl. by rewrite IH. Qed.

Lemma omap_chunkOf_repeated g k full chunks :
  omap chunkOf (chunkPayloads (GroupStreamChunk g) full chunks ≫= replicate k)
  = chunks ≫= replicate k.
Proof.
  revert full. induction chunks as [|c chunks IH]; intros full; [done|].
  csimpl. by rewrite omap_app, IH, omap_chunkOf_replicate.
Qed.

(** ** A handler among other connections *)

Lemma registry_meanwhile others w : registry (meanwhile others w) = others (registry w).
Proof. unfold meanwhile, registry. simpl. by destruct (others _). Qed.

Lemma onlineHandle_registry w w' u :
  registry w' = registry w → onlineHandle w' u = onlineHandle w u.
Proof. intros [= Hr Hc]. by apply onlineHandle_ext. Qed.

Lemma resumed_S others n w :
  resumed others (S n) w = resumed others n (meanwhile others w).
Proof. unfold resumed. apply Nat.iter_succ_r. Qed.

Lemma resumed_add others n m w :
  resumed others (n + m) w = resumed others n (resumed others m w).
Proof. unfold resumed. apply Nat.iter_add. Qed.

Lemma registry_resumed others n w w' :
  registry w' = registry w → registry (resumed others n w') = registry (resumed others n w).
Proof.
  intros Hr. induction n as [|n IH]; [done|]. simpl.
  by rewrite !registry_meanwhile, IH.
Qed.

Lemma amid_refl others w : amid others w w.
Proof. by exists 0. Qed.

Lemma amid_quiet others w a b :
  amid others w a → redis b = redis a → clock b = clock a → amid others w b.
Proof. intros [n Hn] Hr Hc. exists n. rewrite <- Hn. unfold registry. congruence. Qed.

Lemma amid_resumed others w a n : amid others w a → amid others w (resumed others n a).
Proof.
  intros [k Hk]. exists (n + k). rewrite resumed_add. by apply registry_resumed.
Qed.

Lemma amid_meanwhile others w a : amid others w a → amid others w (meanwhile others a).
Proof. apply (amid_resumed others w a 1). Qed.

Lemma steady_amid others s w a u :
  steady others s w → amid others w a →
  onlineHandle a u = Some s ↔ onlineHandle w u = Some s.
Proof.
  intros Hs [n Hn]. rewrite (onlineHandle_registry _ _ u Hn). apply Hs.
Qed.

Lemma rowsOn_amid others s w a ms :
  steady others s w → amid others w a → rowsOn a ms s = rowsOn w ms s.
Proof.
  intros Hs Ha. unfold rowsOn. f_equal. apply list_filter_iff. intros m.
  by apply (steady_amid others).
Qed.

Lemma await_run {A} others (m : M A) w :
  Interleaved.await others m w = m (meanwhile others w).
Proof.
  unfold Interleaved.await, bind, modify.
  by destruct (m (meanwhile others w)) as [[r w'] out].
Qed.

Lemma emitToMembers_amid_run others ms ev d w :
  Interleaved.emitToMembers others ms ev d w
  = (inr tt, resumed others (length ms) w, emitsAmid others w ms ev d).
Proof.
  unfold Interleaved.emitToMembers. revert w.
  induction ms as [|m ms IH]; intros w; [reflexivity|].
  cbn [forEach length emitsAmid]. rewrite resumed_S.
  unfold bind at 1. unfold bind at 1. rewrite await_run, emitToUser_run.
  destruct (onlineHandle (meanwhile others w) (GroupsService.userId m));
    simpl; rewrite IH; reflexivity.
Qed.

Lemma forAwait_amid others ms ev mk chunks full w :
  forAwait chunks full (fun chunk fullResponse =>
    Interleaved.emitToMembers others ms ev (mk chunk fullResponse) ;;;
    Interleaved.await others (ret tt)) w
  = (inr (foldl String.app full chunks),
     resumed others (length chunks * S (length ms)) w,
     roundsAmid others w ms ev (chunkPayloads mk full chunks)).
Proof.
  revert full w. induction chunks as [|c chunks IH]; intros full w; [reflexivity|].
  cbn [forAwait chunkPayloads roundsAmid foldl length Nat.mul].
  unfold bind at 1. unfold bind at 1. rewrite emitToMembers_amid_run.
  rewrite await_run. unfold ret at 1. rewrite IH.
  change (meanwhile others (resumed others (length ms) w))
    with (resumed others (S (length ms)) w).
  rewrite (Nat.add_comm (S (length ms))), resumed_add, app_nil_r. reflexivity.
Qed.

Lemma named_emitsAmid others w ms ev d :
  named ev (emitsAmid others w ms ev d) = emitsAmid others w ms ev d.
Proof.
  revert w. induction ms as [|m ms IH]; intros w; [done|]. simpl.
  rewrite named_app, IH. f_equal.
  destruct (onlineHandle _ _); [|done]. by apply named_cons_True.
Qed.

Lemma named_emitsAmid_other others w ms ev ev' d :
  ev ≠ ev' → named ev' (emitsAmid others w ms ev d) = [].
Proof.
  intros Hne. revert w. induction ms as [|m ms IH]; intros w; [done|]. simpl.
  rewrite named_app, IH, app_nil_r.
  destruct (onlineHandle _ _); [|done]. by apply named_cons_False.
Qed.

Lemma named_roundsAmid others w ms ev ps :
  named ev (roundsAmid others w ms ev ps) = roundsAmid others w ms ev ps.
Proof.
  revert w. induction ps as [|p ps IH]; intros w; [done|]. simpl.
  by rewrite named_app, named_emitsAmid, IH.
Qed.

Lemma named_roundsAmid_other others w ms ev ev' ps :
  ev ≠ ev' → named ev' (roundsAmid others w ms ev ps) = [].
Proof.
  intros Hne. revert w. induction ps as [|p ps IH]; intros w; [done|]. simpl.
  by rewrite named_app, named_emitsAmid_other, IH.
Qed.

(** On a socket where the same users stay registered, every fan-out
    delivers its event once for each member registered there. *)
Lemma receivedBy_emitsAmid others s w a ms ev d :
  steady others s w → amid others w a →
  receivedBy s ev (emitsAmid others a ms ev d) = replicate (rowsOn w ms s) d.
Proof.
  intros Hs. revert a. induction ms as [|m ms IH]; intros a Ha; [done|].
  rewrite receivedBy_named, named_emitsAmid. cbn [emitsAmid].
  rewrite filter_app, fmap_app.
  rewrite <- (named_emitsAmid others (meanwhile others a) ms ev d).
  rewrite <- receivedBy_named, (IH _ (amid_meanwhile _ _ _ Ha)).
  unfold rowsOn. rewrite filter_cons.
  pose proof (steady_amid others s w (meanwhile others a) (GroupsService.userId m) Hs
                (amid_meanwhile _ _ _ Ha)) as Hiff.
  destruct (onlineHandle (meanwhile others a) (GroupsService.userId m)) as [s'|] eqn:Hh.
  - destruct (decide (s' = s)) as [->|Hne].
    + rewrite decide_True by (by apply Hiff). rewrite filter_cons_True by done. done.
    + rewrite decide_False by (intros Hw; apply Hiff in Hw; congruence).
      rewrite filter_cons_False by (intros [= ?]; done). done.
  - rewrite decide_False by (intros Hw; apply Hiff in Hw; congruence). done.
Qed.

Lemma receivedBy_roundsAmid others s w a ms ev ps :
  steady others s w → amid others w a →
  receivedBy s ev (roundsAmid others a ms ev ps) = ps ≫= replicate (rowsOn w ms s).
Proof.
  intros Hs. revert a. induction ps as [|p ps IH]; intros a Ha; [done|].
  rewrite receivedBy_named, named_roundsAmid. cbn [roundsAmid].
  rewrite filter_app, fmap_app.
  rewrite <- (named_emitsAmid others a ms ev p).
  rewrite <- (named_roundsAmid others _ ms ev ps).
  rewrite <- !receivedBy_named.
  rewrite (receivedBy_emitsAmid others s w a) by done.
  rewrite (IH _ (amid_resumed _ _ _ _ Ha)). done.
Qed.


Ltac amid_named :=
  repeat first
    [ progress named_eval
    | rewrite named_emitsAmid
    | rewrite named_emitsAmid_other by done
    | rewrite named_roundsAmid
    | rewrite named_roundsAmid_other by done ].



(** *** Alone, the handler is the one of the gateway *)

Lemma meanwhile_nobody w : meanwhile nobody w = w.
Proof. by destruct w. Qed.

Lemma resumed_nobody n w : resumed nobody n w = w.
Proof. induction n as [|n IH]; [done|]. simpl. by rewrite IH, meanwhile_nobody. Qed.

Lemma emitsAmid_nobody w ms ev d : emitsAmid nobody w ms ev d = emitsTo w ms None ev d.
Proof.
  unfold emitsTo. induction ms as [|m ms IH]; [done|]. cbn [emitsAmid].
  rewrite meanwhile_nobody, IH. csimpl.
  destruct (decide (Some (GroupsService.userId m) = None)); [done|].
  by destruct (onlineHandle w (GroupsService.userId m)).
Qed.

Lemma roundsAmid_nobody w ms ev ps :
  roundsAmid nobody w ms ev ps = ps ≫= emitsTo w ms None ev.
Proof.
  induction ps as [|p ps IH]; [done|]. cbn [roundsAmid].
  rewrite resumed_nobody, IH, emitsAmid_nobody. done.
Qed.

Lemma bind_ext {A B} (m m' : M A) (k k' : A → M B) w :
  (∀ w, m w = m' w) → (∀ a w, k a w = k' a w) → bind m k w = bind m' k' w.
Proof.
  intros Hm Hk. unfold bind. rewrite Hm. destruct (m' w) as [[[e|a] w1] o]; [done|].
  by rewrite Hk.
Qed.

Lemma tryCatch_ext {A} (body body' : M A) handler w :
  (∀ w, body w = body' w) → tryCatch body handler w = tryCatch body' handler w.
Proof. intros Hb. unfold tryCatch. by rewrite Hb. Qed.

Lemma await_nobody {A} (m : M A) w : Interleaved.await nobody m w = m w.
Proof. by rewrite await_run, meanwhile_nobody. Qed.

(** With nobody else around, the suspended handler does what the handler
    of the gateway does. *)
Lemma handleGroupAIMention_alone `{StyleAnalyzer} client g content w :
  Interleaved.handleGroupAIMention nobody client g content w
  = Gateway.handleGroupAIMention client g content w.
Proof.
  unfold Interleaved.handleGroupAIMention, Gateway.handleGroupAIMention.
  destruct (Socket.authenticated client) as [u|]; [|done].
  apply tryCatch_ext. clear w. intros w.
  apply bind_ext; [apply await_nobody|]. clear w. intros isMember w.
  destruct (negb isMember); [done|].
  apply bind_ext; [apply await_nobody|]. clear w. intros shouldUpdate w.
  apply bind_ext.
  { clear w. intros w. destruct shouldUpdate; [|done].
    apply bind_ext; [apply await_nobody|done]. }
  clear w. intros _ w.
  apply bind_ext; [apply await_nobody|]. clear w. intros ms w.
  apply bind_ext; [done|]. clear w. intros now w.
  apply bind_ext.
  { clear w. intros w.
    by rewrite emitToMembers_amid_run, emitToMembers_run, resumed_nobody, emitsAmid_nobody. }
  clear w. intros _ w.
  apply bind_ext; [apply await_nobody|]. clear w. intros chunks w.
  apply bind_ext.
  { clear w. intros w.
    by rewrite forAwait_amid, forAwait_emitToMembers, resumed_nobody, roundsAmid_nobody. }
  clear w. intros fullResponse w.
  apply bind_ext; [apply await_nobody|]. clear w. intros aiMessage w.
  by rewrite emitToMembers_amid_run, emitToMembers_run, resumed_nobody, emitsAmid_nobody.
Qed.

Lemma steady_nobody s w : steady nobody s w.
Proof. intros n u. by rewrite resumed_nobody. Qed.

(** *** Bob's late connection leaves Alice's socket alone *)

Lemma onlineHandle_userEntry w u :
  configured w →
  onlineHandle w u
  = match userEntry w u ≫= Redis.read (clock w) with
    | Some s => if JS.truthy s then Some s else None
    | None => None
    end.
Proof.
  intros (c & Hc & Hr). unfold onlineHandle, RedisService.getSocketByUser, Redis.get,
    userEntry. by rewrite Hc, Hr.
Qed.

Lemma configured_bare w : configured w → configured (bare (registry w)).
Proof. intros (c & Hc & Hr). by exists c. Qed.

Lemma userEntry_registry w w' u : redis w' = redis w → userEntry w' u = userEntry w u.
Proof. unfold userEntry. by intros ->. Qed.

(** What the world holds after the others have let [hs] happen. *)
Lemma meanwhile_happenAll others hs w :
  others (registry w) = registryAfter hs (registry w) →
  redis (meanwhile others w) = redis (happenAll hs (bare (registry w)))
  ∧ clock (meanwhile others w) = clock (happenAll hs (bare (registry w))).
Proof. unfold meanwhile. intros ->. done. Qed.

Lemma bobJoinsLate_keeps_alice w :
  configured w → (0 ≤ clock w ≤ 20)%Z →
  userEntry w "alice" = Some (Redis.Entry "s1" DAY) →
  (∀ u e, u ≠ "alice" → userEntry w u = Some e → Redis.value e ≠ "s1") →
  configured (meanwhile bobJoinsLate w)
  ∧ (0 ≤ clock (meanwhile bobJoinsLate w) ≤ 20)%Z
  ∧ userEntry (meanwhile bobJoinsLate w) "alice" = Some (Redis.Entry "s1" DAY)
  ∧ (∀ u e, u ≠ "alice" → userEntry (meanwhile bobJoinsLate w) u = Some e →
            Redis.value e ≠ "s1").
Proof.
  intros Hconf Hclock Halice Hrest.
  assert (Hpass : ∀ w', redis w' = redis w → clock w' = (clock w + 1)%Z →
            (clock w < 20)%Z →
            configured w' ∧ (0 ≤ clock w' ≤ 20)%Z
            ∧ userEntry w' "alice" = Some (Redis.Entry "s1" DAY)
            ∧ (∀ u e, u ≠ "alice" → userEntry w' u = Some e → Redis.value e ≠ "s1")).
  { intros w' Hr Hc Hlt. split; [|split; [|split]].
    - destruct Hconf as (c & ? & ?). exists c. split; [congruence|done].
    - lia.
    - by rewrite (userEntry_registry w w').
    - intros u e. rewrite (userEntry_registry w w') by done. apply Hrest. }
  unfold meanwhile, bobJoinsLate. cbn [snd registry].
  destruct (Z.ltb_spec (clock w) 9) as [Hearly|Hlate].
  { apply Hpass; [done|done|lia]. }
  destruct (Z.eqb_spec (clock w) 9) as [Hnine|Hafter].
  2: { destruct (Z.ltb_spec (clock w) 20) as [Hlt|Hend].
       - apply Hpass; [done|done|lia].
       - split; [|split; [|split]].
         + destruct Hconf as (c & ? & ?). by exists c.
         + simpl. lia.
         + by rewrite (userEntry_registry w).
         + intros u e. rewrite (userEntry_registry w) by done. apply Hrest. }
  set (joined := RedisService.setUserOnline "bob" "s2" (bare (registry w))).
  assert (Hjoined : ∀ v, userEntry joined v
            = if decide ("bob" = v) then Some (Redis.Entry "s2" (clock w + DAY))
              else userEntry w v).
  { intros v. unfold joined.
    destruct (setUserOnline_userEntry (bare (registry w)) "bob" "s2" v
                          (configured_bare w Hconf)) as (_ & _ & ->).
    destruct (decide _); [done|]. by apply userEntry_registry. }
  assert (Hredis : redis (withRegistry w (registryAfter
            [Presence (Register "bob" "s2"); Elapse 1] (registry w))) = redis joined)
    by done.
  assert (Hclk : clock (withRegistry w (registryAfter
            [Presence (Register "bob" "s2"); Elapse 1] (registry w)))
                 = (clock joined + 1)%Z) by done.
  destruct (setUserOnline_userEntry (bare (registry w)) "bob" "s2" "bob"
              (configured_bare w Hconf)) as ((c & Hc & Hr) & Hsame & _).
  fold joined in Hc, Hsame. simpl in Hsame.
  split; [|split; [|split]].
  - exists c. split; [|done]. by rewrite Hredis.
  - rewrite Hclk, Hsame. lia.
  - rewrite (userEntry_registry joined) by done. rewrite Hjoined.
    by rewrite decide_False.
  - intros u e Hu. rewrite (userEntry_registry joined) by done. rewrite Hjoined.
    destruct (decide ("bob" = u)); [by intros [= <-]|]. by apply Hrest.
Qed.

Lemma onlineHandle_alice_only w u :
  configured w → (0 ≤ clock w ≤ 20)%Z →
  userEntry w "alice" = Some (Redis.Entry "s1" DAY) →
  (∀ u e, u ≠ "alice" → userEntry w u = Some e → Redis.value e ≠ "s1") →
  onlineHandle w u = Some "s1" ↔ u = "alice".
Proof.
  intros Hconf Hclock Halice Hrest. rewrite onlineHandle_userEntry by done. split.
  - intros Hs1. destruct (decide (u = "alice")) as [|Hne]; [done|]. exfalso.
    destruct (userEntry w u) as [[v e]|] eqn:Hu; [|done].
    specialize (Hrest u _ Hne Hu). simpl in Hs1, Hrest. unfold Redis.read in Hs1.
    simpl in Hs1. destruct (clock w <? e)%Z; [|done]. destruct (JS.truthy v); [|done].
    congruence.
  - intros ->. rewrite Halice. simpl. unfold Redis.read. simpl.
    assert ((clock w <? DAY)%Z = true) as -> by (apply Z.ltb_lt; unfold DAY; lia).
    done.
Qed.

Lemma groupAsks_amid_bobJoinsLate reply n :
  configured (resumed bobJoinsLate n (groupAsks reply))
  ∧ (0 ≤ clock (resumed bobJoinsLate n (groupAsks reply)) ≤ 20)%Z
  ∧ userEntry (resumed bobJoinsLate n (groupAsks reply)) "alice"
    = Some (Redis.Entry "s1" DAY)
  ∧ (∀ u e, u ≠ "alice" →
       userEntry (resumed bobJoinsLate n (groupAsks reply)) u = Some e →
       Redis.value e ≠ "s1").
Proof.
  induction n as [|n (Hconf & Hclock & Halice & Hrest)].
  - split; [|split; [|split]].
    + exists (Redis.Client (<[RedisService.socketKey "s1" := Redis.Entry "alice" DAY]>
                (<[RedisService.userKey "alice" := Redis.Entry "s1" DAY]> ∅)) true).
      split; reflexivity.
    + simpl. lia.
    + reflexivity.
    + intros u e Hne. unfold userEntry. simpl.
      rewrite lookup_insert_ne by (apply not_eq_sym, userKey_socketKey).
      rewrite lookup_insert_ne by (intros Hk; apply userKey_inj in Hk; done).
      by rewrite lookup_empty.
  - by apply bobJoinsLate_keeps_alice.
Qed.

Lemma groupAsks_alice_only reply u :
  onlineHandle (groupAsks reply) u = Some "s1" ↔ u = "alice".
Proof.
  destruct (groupAsks_amid_bobJoinsLate reply 0) as (Hconf & Hclock & Halice & Hrest).
  exact (onlineHandle_alice_only _ u Hconf Hclock Halice Hrest).
Qed.

Lemma bobJoinsLate_steady reply : steady bobJoinsLate "s1" (groupAsks reply).
Proof.
  intros n u.
  destruct (groupAsks_amid_bobJoinsLate reply n) as (Hconf & Hclock & Halice & Hrest).
  rewrite (onlineHandle_alice_only _ u Hconf Hclock Halice Hrest).
  by rewrite groupAsks_alice_only.
Qed.

(** ** A completed stream: its chunks add up to the stored message *)




(** ** A provider failure in mid-stream *)

Lemma streamOrApologise_fails prompt msg w :
  nextReplyFails w →
  streamOrApologise prompt msg APOLOGY w
  = (inr (nextReplyContents w ++ [APOLOGY]),
     withOpenai w (tail (openaiReplies w)) (openaiCalls w ++ [(prompt, msg)]), []).
Proof.
  unfold nextReplyFails, nextReplyContents, streamOrApologise, bind, tryCatch,
    OpenAI.create.
  destruct (openaiReplies w) as [|reply rest]; [reflexivity|].
  simpl. intros ->. reflexivity.
Qed.

(** C1, as stated, fails: the provider throws after the chunk "Hel"; the
    client is sent that chunk and the apology, and a message with the
    generated flag, made of both, is stored. *)
Lemma provider_failure_is_persisted :
  chunksReceived "s1" "ai-friend:stream-chunk"
    (run (Gateway.handleAIFriendMessage aliceSocket "hi") failsAfterHel).2
    = ["Hel"; APOLOGY]
  ∧ filter (fun m => Db.isAIGenerated m = true) (Db.messages (db failsAfterHel)) = []
  ∧ filter (fun m => Db.isAIGenerated m = true)
      (Db.messages (db (run (Gateway.handleAIFriendMessage aliceSocket "hi")
                            failsAfterHel).1))
    = [Db.Message "1" "kirhost" "alice" ("Hel" +:+ APOLOGY) 0 false true].
Proof. repeat split; vm_compute; reflexivity. Qed.

Lemma handleAIFriendMessage_provider_failure client content w u p prompt :
  Socket.authenticated client = Some u →
  dbFaults w = [] →
  storedUserProfile (db w) u = Some p →
  (10 ≤ Db.sp_messageCount p)%Z →
  Db.sp_stylePrompt p = Some prompt → JS.truthy prompt = true →
  nextReplyFails w →
  let me := ToClient (Socket.id client) in
  let chunks := nextReplyContents w ++ [APOLOGY] in
  let userMessage :=
    Db.insertMessage u AIFriendService.AI_FRIEND_USER_ID content false (db w) (clock w) in
  let aiMessage :=
    Db.insertMessage AIFriendService.AI_FRIEND_USER_ID u (JS.concat chunks) true
                     userMessage.2 (clock w) in
  let after := run (Gateway.handleAIFriendMessage client content) w in
  after.2 = [Emit me "ai-friend:user-message-sent" (DirectMessage userMessage.1);
             Emit me "ai-friend:stream-start" (StreamStart (Db.id userMessage.1))]
            ++ (Emit me "ai-friend:stream-chunk" <$> chunkPayloads StreamChunk "" chunks)
            ++ [Emit me "ai-friend:stream-end" (StreamEnd aiMessage.1)]
  ∧ db after.1 = aiMessage.2
  ∧ openaiCalls after.1 = openaiCalls w ++ [(prompt, content)].
Proof.
  intros Hauth Hdb Hp Hcount Hprompt Htruthy Hfail me chunks userMessage aiMessage after.
  destruct after as [w' out] eqn:Hrun. subst after.
  unfold Gateway.handleAIFriendMessage, run in Hrun. rewrite Hauth in Hrun.
  unfold tryCatch, ChatService.sendMessage in Hrun. unfold bind at 1 in Hrun.
  rewrite statement_ok in Hrun by done. cbn [fst snd] in Hrun.
  unfold bind at 1 in Hrun. unfold emit at 1 in Hrun.
  unfold bind at 1 in Hrun. unfold spawn, modify in Hrun.
  unfold bind at 1 in Hrun. unfold emit at 1 in Hrun. unfold bind at 1 in Hrun.
  set (w1 := withBackground _ _) in Hrun.
  assert (Hp1 : storedUserProfile (db w1) u = Some p) by exact Hp.
  rewrite generateAIResponseStream_ok, Hp1, Hprompt, Htruthy in Hrun by done.
  assert ((10 <=? Db.sp_messageCount p)%Z = true) as Hle by (by apply Z.leb_le).
  rewrite Hle, streamOrApologise_fails in Hrun by exact Hfail.
  unfold bind at 1 in Hrun. rewrite forAwait_emit in Hrun.
  unfold bind at 1 in Hrun. rewrite statement_ok in Hrun by done.
  injection Hrun as <- <-. repeat split.
Qed.

Lemma isUserInGroup_ok w g u :
  dbFaults w = [] →
  GroupsService.isUserInGroup g u w
  = (inr match filter (fun m => Db.mb_userId m = u) (GroupsService.membersOf g (db w)) with
         | [] => false
         | _ :: _ => true
         end, w, []).
Proof. intros H. unfold GroupsService.isUserInGroup. by rewrite select_ok. Qed.

Lemma getGroupMembers_ok w g :
  dbFaults w = [] →
  GroupsService.getGroupMembers g w
  = match head (filter (fun r => Db.g_id r = g) (Db.groups (db w))) with
    | None => (inl (NotFoundException "Group not found"), w, [])
    | Some _ =>
        (inr (GroupsService.joinProfile (db w) <$> GroupsService.membersOf g (db w)), w, [])
    end.
Proof.
  intros H. unfold GroupsService.getGroupMembers, bind. rewrite select_ok by done.
  destruct (head _); [|reflexivity]. by rewrite select_ok.
Qed.

Lemma generateGroupAIResponseStream_ok w g msg :
  dbFaults w = [] →
  GroupAIService.generateGroupAIResponseStream g msg w
  = match GroupAIProfileService.storedProfile g (db w) with
    | None => (inr [GroupAIService.STILL_LEARNING], w, [])
    | Some p =>
        if (20 <=? groupCurrentCount (db w) g)%Z
        then match Db.gsp_stylePrompt p with
             | Some prompt =>
                 if JS.truthy prompt
                 then streamOrApologise prompt msg APOLOGY w
                 else (inr [GroupAIService.STILL_ANALYZING], w, [])
             | None => (inr [GroupAIService.STILL_ANALYZING], w, [])
             end
        else (inr [GroupAIService.STILL_LEARNING], w, [])
    end.
Proof.
  intros H. unfold GroupAIService.generateGroupAIResponseStream.
  unfold bind at 1. rewrite group_hasMinimumData_ok by done.
  destruct (GroupAIProfileService.storedProfile g (db w)) as [p|] eqn:Hp; simpl;
    [|reflexivity].
  destruct (20 <=? groupCurrentCount (db w) g)%Z; simpl; [|reflexivity].
  unfold bind. rewrite getGroupStyleProfile_ok, Hp by done. simpl.
  destruct (Db.gsp_stylePrompt p) as [prompt|]; [|reflexivity].
  destruct (JS.truthy prompt); [|reflexivity].
  destruct (streamOrApologise prompt msg APOLOGY w) as [[r w'] out].
  reflexivity.
Qed.

Lemma handleGroupAIMention_provider_failure `{StyleAnalyzer} client content g w u p prompt :
  Socket.authenticated client = Some u →
  dbFaults w = [] →
  filter (fun m => Db.mb_userId m = u) (GroupsService.membersOf g (db w)) ≠ [] →
  is_Some (head (filter (fun r => Db.g_id r = g) (Db.groups (db w)))) →
  GroupAIProfileService.storedProfile g (db w) = Some p →
  (20 ≤ groupCurrentCount (db w) g)%Z →
  Db.gsp_stylePrompt p = Some prompt → JS.truthy prompt = true →
  nextReplyFails w →
  let ms := GroupsService.joinProfile (db w) <$> GroupsService.membersOf g (db w) in
  let chunks := nextReplyContents w ++ [APOLOGY] in
  let aiMessage :=
    Db.insertGroupMessage g (GroupAIInitService.getGroupAIUserId g) (JS.concat chunks)
      true (GroupMessageService.extractMentions (JS.concat chunks)) (db w) (clock w) in
  let after := run (Gateway.handleGroupAIMention client g content) w in
  after.2 = emitsTo w ms None "group:ai:stream-start"
                    (GroupStreamStart g ("temp-" +:+ pretty (clock w)))
            ++ (chunkPayloads (GroupStreamChunk g) "" chunks
                  ≫= emitsTo w ms None "group:ai:stream-chunk")
            ++ emitsTo w ms None "group:ai:stream-end" (GroupStreamEnd g aiMessage.1)
  ∧ db after.1 = aiMessage.2
  ∧ openaiCalls after.1 = openaiCalls w ++ [(prompt, content)].
Proof.
  intros Hauth Hdb Hmember [row Hgroup] Hp Hcount Hprompt Htruthy Hfail
    ms chunks aiMessage after.
  destruct after as [w' out] eqn:Hrun. subst after.
  unfold Gateway.handleGroupAIMention, run in Hrun. rewrite Hauth in Hrun.
  unfold tryCatch in Hrun. unfold bind at 1 in Hrun.
  rewrite isUserInGroup_ok in Hrun by done.
  destruct (filter _ (GroupsService.membersOf g (db w))) as [|m0 rest] eqn:Hm; [done|].
  cbn [negb] in Hrun. unfold bind at 1 in Hrun. unfold bind at 1 in Hrun.
  rewrite (group_recompute_never_due w g p) in Hrun by done.
  unfold ret at 1 in Hrun. unfold bind at 1 in Hrun.
  rewrite getGroupMembers_ok, Hgroup in Hrun by done.
  unfold bind at 1 in Hrun. unfold gets at 1 in Hrun.
  unfold bind at 1 in Hrun. rewrite emitToMembers_run in Hrun.
  unfold bind at 1 in Hrun.
  rewrite generateGroupAIResponseStream_ok, Hp, Hprompt, Htruthy in Hrun by done.
  assert ((20 <=? groupCurrentCount (db w) g)%Z = true) as Hle by (by apply Z.leb_le).
  rewrite Hle, streamOrApologise_fails in Hrun by exact Hfail.
  unfold bind at 1 in Hrun. rewrite forAwait_emitToMembers in Hrun.
  unfold bind at 1 in Hrun.
  unfold GroupAIService.sendGroupAIMessage, GroupMessageService.sendGroupMessage in Hrun.
  rewrite statement_ok in Hrun by done. rewrite emitToMembers_run in Hrun.
  injection Hrun as <- <-. repeat split.
Qed.

(** ** A provider failure in mid-stream, among other connections *)

Lemma nextReply_meanwhile others w :
  nextReplyFails (meanwhile others w) = nextReplyFails w
  ∧ nextReplyContents (meanwhile others w) = nextReplyContents w.
Proof. done. Qed.

Lemma resumed_beside others n w :
  db (resumed others n w) = db w
  ∧ dbFaults (resumed others n w) = dbFaults w
  ∧ openaiReplies (resumed others n w) = openaiReplies w
  ∧ openaiCalls (resumed others n w) = openaiCalls w.
Proof.
  revert w. induction n as [|n IH]; intros w; [done|].
  rewrite resumed_S. exact (IH (meanwhile others w)).
Qed.

Lemma handleGroupAIMention_amid_provider_failure `{StyleAnalyzer} others client content g w
    u p prompt :
  Socket.authenticated client = Some u →
  dbFaults w = [] →
  filter (fun m => Db.mb_userId m = u) (GroupsService.membersOf g (db w)) ≠ [] →
  is_Some (head (filter (fun r => Db.g_id r = g) (Db.groups (db w)))) →
  GroupAIProfileService.storedProfile g (db w) = Some p →
  (20 ≤ groupCurrentCount (db w) g)%Z →
  Db.gsp_stylePrompt p = Some prompt → JS.truthy prompt = true →
  nextReplyFails w →
  let ms := GroupsService.joinProfile (db w) <$> GroupsService.membersOf g (db w) in
  let chunks := nextReplyContents w ++ [APOLOGY] in
  let after := run (Interleaved.handleGroupAIMention others client g content) w in
  ∃ w1 w2 w3 messageId now,
    let aiMessage :=
      Db.insertGroupMessage g (GroupAIInitService.getGroupAIUserId g) (JS.concat chunks)
        true (GroupMessageService.extractMentions (JS.concat chunks)) (db w) now in
    after.2 = emitsAmid others w1 ms "group:ai:stream-start" (GroupStreamStart g messageId)
              ++ roundsAmid others w2 ms "group:ai:stream-chunk"
                   (chunkPayloads (GroupStreamChunk g) "" chunks)
              ++ emitsAmid others w3 ms "group:ai:stream-end" (GroupStreamEnd g aiMessage.1)
    ∧ amid others w w1 ∧ amid others w w2 ∧ amid others w w3
    ∧ db after.1 = aiMessage.2
    ∧ openaiCalls after.1 = openaiCalls w ++ [(prompt, content)].
Proof.
  intros Hauth Hdb Hmember [row Hgroup] Hp Hcount Hprompt Htruthy Hfail
    ms chunks after.
  destruct after as [w' out] eqn:Hrun. subst after.
  unfold Interleaved.handleGroupAIMention, run in Hrun. rewrite Hauth in Hrun.
  unfold tryCatch in Hrun. unfold bind at 1 in Hrun.
  rewrite await_run in Hrun.
  set (wa := meanwhile others w) in Hrun.
  rewrite isUserInGroup_ok in Hrun by done.
  change (db wa) with (db w) in Hrun.
  destruct (filter _ (GroupsService.membersOf g (db w))) as [|m0 rest] eqn:Hm; [done|].
  cbn [negb] in Hrun. unfold bind at 1 in Hrun. rewrite await_run in Hrun.
  set (wb := meanwhile others wa) in Hrun.
  unfold bind at 1 in Hrun.
  rewrite (group_recompute_never_due wb g p Hdb Hp) in Hrun.
  unfold ret at 1 in Hrun. unfold bind at 1 in Hrun. rewrite await_run in Hrun.
  set (wc := meanwhile others wb) in Hrun.
  rewrite getGroupMembers_ok in Hrun by done.
  change (db wc) with (db w) in Hrun. rewrite Hgroup in Hrun.
  unfold bind at 1 in Hrun. unfold gets at 1 in Hrun.
  unfold bind at 1 in Hrun. rewrite emitToMembers_amid_run in Hrun.
  unfold bind at 1 in Hrun. rewrite await_run in Hrun.
  set (wd := meanwhile others _) in Hrun.
  destruct (resumed_beside others (length ms) wc) as (Hd1 & Hf1 & Hr1 & Hc1).
  assert (Hdbd : dbFaults wd = []) by (rewrite <- Hdb; exact Hf1).
  assert (Hdd : db wd = db w) by exact Hd1.
  rewrite generateGroupAIResponseStream_ok in Hrun by exact Hdbd.
  rewrite Hdd, Hp, Hprompt, Htruthy in Hrun.
  assert ((20 <=? groupCurrentCount (db w) g)%Z = true) as Hle by (by apply Z.leb_le).
  assert (Hrd : openaiReplies wd = openaiReplies w) by exact Hr1.
  assert (Hfd : nextReplyFails wd) by (unfold nextReplyFails; by rewrite Hrd).
  assert (Hnd : nextReplyContents wd = nextReplyContents w)
    by (unfold nextReplyContents; by rewrite Hrd).
  rewrite Hle, streamOrApologise_fails in Hrun by exact Hfd.
  rewrite Hnd in Hrun. fold chunks in Hrun.
  unfold bind at 1 in Hrun. rewrite forAwait_amid in Hrun.
  unfold bind at 1 in Hrun. rewrite await_run in Hrun.
  set (wo := withOpenai wd _ _) in Hrun.
  set (we := meanwhile others _) in Hrun.
  destruct (resumed_beside others (length chunks * S (length ms)) wo)
    as (Hd2 & Hf2 & _ & Hc2).
  assert (Hdbe : dbFaults we = []) by (rewrite <- Hdbd; exact Hf2).
  assert (Hde : db we = db w) by (rewrite <- Hdd; exact Hd2).
  assert (Hce : openaiCalls we = openaiCalls w ++ [(prompt, content)])
    by (rewrite <- (Hc1 : openaiCalls wd = openaiCalls w); exact Hc2).
  unfold GroupAIService.sendGroupAIMessage, GroupMessageService.sendGroupMessage in Hrun.
  rewrite statement_ok in Hrun by exact Hdbe. rewrite emitToMembers_amid_run in Hrun.
  rewrite Hde in Hrun. set (wf := withDb we _ _) in Hrun.
  injection Hrun as <- <-.
  assert (Hwc : amid others w wc) by (do 3 apply amid_meanwhile; apply amid_refl).
  assert (Hwd : amid others w wd) by (by apply amid_meanwhile, amid_resumed).
  assert (Hwo : amid others w wo) by (by apply (amid_quiet others w wd)).
  assert (Hwe : amid others w we) by (by apply amid_meanwhile, amid_resumed).
  destruct (resumed_beside others (length ms) wf) as (Hd3 & _ & _ & Hc3).
  exists wc, wo, wf, ("temp-" +:+ pretty (clock wc)), (clock we). cbn zeta.
  split_and!.
  - reflexivity.
  - exact Hwc.
  - exact Hwo.
  - by apply (amid_quiet others w we).
  - exact Hd3.
  - rewrite <- Hce. exact Hc3.
Qed.

(** The member rows that resolve to a socket which is the handle of one
    user only are that user's rows. *)
Lemma rowsOn_caller w t (rows : list Db.groupMember) s u :
  (∀ v, onlineHandle w v = Some s ↔ v = u) →
  rowsOn w (GroupsService.joinProfile t <$> rows) s
  = length (filter (fun m => Db.mb_userId m = u) rows).
Proof.
  intros Honly. unfold rowsOn. induction rows as [|m rows IH]; [done|].
  rewrite fmap_cons, !filter_cons.
  change (GroupsService.userId (GroupsService.joinProfile t m)) with (Db.mb_userId m).
  destruct (decide (Db.mb_userId m = u)) as [Hu|Hu].
  - rewrite decide_True by (by apply Honly). simpl. by rewrite IH.
  - rewrite decide_False by (by rewrite Honly). exact IH.
Qed.

(** C1, amended.  On a healthy database, when the provider fails (at the
    call, or after some chunks) while answering a subject that has its
    minimum data and a rendered prompt, no error event is emitted and the
    handler stores exactly one message with the generated flag, whose
    content is the chunks delivered before the failure and the one apology
    chunk, joined.

    The companion agent stores the caller's message, not generated, before
    it; the caller's socket is sent those chunks in order and then one
    stream-end event carrying the stored message.

    The group agent, whatever the other connections do to the registry while
    the handler is suspended, stores that one message in the group of which
    the caller is a member.  A socket on which the same users stay
    registered during the run is sent every chunk, and then the stream-end
    event carrying the stored message, once for each member row registered
    there; so the caller's socket, when it is and stays the handle of the
    caller and of nobody else, is sent them once for each of the caller's
    member rows, of which there is at least one.  A caller the registry does
    not resolve to a socket is sent nothing, though the message is stored. *)
Theorem provider_failure_apology_then_persisted `{StyleAnalyzer} client content w u
    (Hauth : Socket.authenticated client = Some u)
    (Hdb : dbFaults w = [])
    (Hfail : nextReplyFails w) :
  let chunks := nextReplyContents w ++ [APOLOGY] in
  (∀ p prompt,
     storedUserProfile (db w) u = Some p → (10 ≤ Db.sp_messageCount p)%Z →
     Db.sp_stylePrompt p = Some prompt → JS.truthy prompt = true →
     let after := run (Gateway.handleAIFriendMessage client content) w in
     chunksReceived (Socket.id client) "ai-friend:stream-chunk" after.2 = chunks
     ∧ named "ai-friend:error" after.2 = []
     ∧ ∃ userMessage aiMessage,
         Db.messages (db after.1) = Db.messages (db w) ++ [userMessage; aiMessage]
         ∧ Db.isAIGenerated userMessage = false
         ∧ Db.isAIGenerated aiMessage = true
         ∧ Db.content aiMessage = JS.concat chunks
         ∧ receivedBy (Socket.id client) "ai-friend:stream-end" after.2
           = [StreamEnd aiMessage])
  ∧ (∀ others g p prompt,
       filter (fun m => Db.mb_userId m = u) (GroupsService.membersOf g (db w)) ≠ [] →
       is_Some (head (filter (fun r => Db.g_id r = g) (Db.groups (db w)))) →
       GroupAIProfileService.storedProfile g (db w) = Some p →
       (20 ≤ groupCurrentCount (db w) g)%Z →
       Db.gsp_stylePrompt p = Some prompt → JS.truthy prompt = true →
       let ms := GroupsService.joinProfile (db w) <$> GroupsService.membersOf g (db w) in
       let mine :=
         length (filter (fun m => Db.mb_userId m = u) (GroupsService.membersOf g (db w))) in
       let after := run (Interleaved.handleGroupAIMention others client g content) w in
       named "group:ai:error" after.2 = []
       ∧ ∃ aiMessage,
           Db.groupMessages (db after.1) = Db.groupMessages (db w) ++ [aiMessage]
           ∧ Db.gm_groupId aiMessage = g
           ∧ Db.gm_isAIGenerated aiMessage = true
           ∧ Db.gm_content aiMessage = JS.concat chunks
           ∧ (∀ s, steady others s w →
                chunksReceived s "group:ai:stream-chunk" after.2
                  = chunks ≫= replicate (rowsOn w ms s)
                ∧ receivedBy s "group:ai:stream-end" after.2
                  = replicate (rowsOn w ms s) (GroupStreamEnd g aiMessage))
           ∧ (steady others (Socket.id client) w →
              (∀ v, onlineHandle w v = Some (Socket.id client) ↔ v = u) →
              (0 < mine)%nat
              ∧ chunksReceived (Socket.id client) "group:ai:stream-chunk" after.2
                = chunks ≫= replicate mine
              ∧ receivedBy (Socket.id client) "group:ai:stream-end" after.2
                = replicate mine (GroupStreamEnd g aiMessage))).
Proof.
  intros chunks. split.
  - intros p prompt Hp Hcount Hprompt Htruthy after.
    destruct (handleAIFriendMessage_provider_failure client content w u p prompt
                Hauth Hdb Hp Hcount Hprompt Htruthy Hfail) as (Hout & Hdb' & _).
    fold after in Hout, Hdb'. rewrite Hout, Hdb'. clear Hout Hdb'.
    split_and!.
    + unfold chunksReceived. rewrite receivedBy_named. simpl. named_eval.
      rewrite <- (named_fmap (ToClient (Socket.id client)) "ai-friend:stream-chunk").
      by rewrite <- receivedBy_named, receivedBy_fmap_client, omap_chunkOf_StreamChunk.
    + simpl. by named_eval.
    + eexists _, _. split_and!.
      * simpl. rewrite <- app_assoc. reflexivity.
      * done.
      * done.
      * done.
      * rewrite receivedBy_named. simpl. named_eval. by rewrite filter_cons_True.
  - intros others g p prompt Hmember Hgroup Hp Hcount Hprompt Htruthy ms mine after.
    destruct (handleGroupAIMention_amid_provider_failure others client content g w u p
                prompt Hauth Hdb Hmember Hgroup Hp Hcount Hprompt Htruthy Hfail)
      as (w1 & w2 & w3 & messageId & now & Hout & H1 & H2 & H3 & Hdb' & _).
    fold ms chunks in Hout. fold after in Hout, Hdb'. rewrite Hout, Hdb'.
    clear Hout Hdb'.
    assert (Hheard : ∀ s, steady others s w →
              chunksReceived s "group:ai:stream-chunk"
                (emitsAmid others w1 ms "group:ai:stream-start" (GroupStreamStart g messageId)
                 ++ roundsAmid others w2 ms "group:ai:stream-chunk"
                      (chunkPayloads (GroupStreamChunk g) "" chunks)
                 ++ emitsAmid others w3 ms "group:ai:stream-end"
                      (GroupStreamEnd g
                         (Db.insertGroupMessage g (GroupAIInitService.getGroupAIUserId g)
                            (JS.concat chunks) true
                            (GroupMessageService.extractMentions (JS.concat chunks))
                            (db w) now).1))
              = chunks ≫= replicate (rowsOn w ms s)
              ∧ receivedBy s "group:ai:stream-end"
                (emitsAmid others w1 ms "group:ai:stream-start" (GroupStreamStart g messageId)
                 ++ roundsAmid others w2 ms "group:ai:stream-chunk"
                      (chunkPayloads (GroupStreamChunk g) "" chunks)
                 ++ emitsAmid others w3 ms "group:ai:stream-end"
                      (GroupStreamEnd g
                         (Db.insertGroupMessage g (GroupAIInitService.getGroupAIUserId g)
                            (JS.concat chunks) true
                            (GroupMessageService.extractMentions (JS.concat chunks))
                            (db w) now).1))
              = replicate (rowsOn w ms s)
                  (GroupStreamEnd g
                     (Db.insertGroupMessage g (GroupAIInitService.getGroupAIUserId g)
                        (JS.concat chunks) true
                        (GroupMessageService.extractMentions (JS.concat chunks))
                        (db w) now).1)).
    { intros s Hs. split.
      - unfold chunksReceived. rewrite receivedBy_named. amid_named.
        rewrite <- (named_roundsAmid others w2 ms "group:ai:stream-chunk").
        rewrite <- receivedBy_named, (receivedBy_roundsAmid others s w w2) by done.
        apply omap_chunkOf_repeated.
      - rewrite receivedBy_named. amid_named.
        rewrite <- (named_emitsAmid others w3 ms "group:ai:stream-end").
        by rewrite <- receivedBy_named, (receivedBy_emitsAmid others s w w3). }
    split; [by amid_named|].
    eexists. split_and!; try done.
    intros Hs Honly.
    assert (Hmine : rowsOn w ms (Socket.id client) = mine) by (by apply rowsOn_caller).
    destruct (Hheard _ Hs) as [Hchunks Hend]. rewrite Hmine in Hchunks, Hend.
    split_and!; [|exact Hchunks|exact Hend].
    unfold mine. destruct (filter _ _); [done|simpl; lia].
Qed.

Lemma provider_failure_apology_then_persisted_witness :
  Socket.authenticated aliceSocket = Some "alice"
  ∧ (dbFaults failsAfterHel = [] ∧ nextReplyFails failsAfterHel
     ∧ chunksReceived "s1" "ai-friend:stream-chunk"
         (run (Gateway.handleAIFriendMessage aliceSocket "hi") failsAfterHel).2
       = ["Hel"; APOLOGY])
  ∧ (dbFaults (groupAsks helReply) = [] ∧ nextReplyFails (groupAsks helReply)
     ∧ steady bobJoinsLate "s1" (groupAsks helReply)
     ∧ (∀ v, onlineHandle (groupAsks helReply) v = Some "s1" ↔ v = "alice")
     ∧ ∃ aiMessage,
         Db.groupMessages
           (db (run (@Interleaved.handleGroupAIMention emptyAnalyzer bobJoinsLate
                       aliceSocket "g" "@AI hi") (groupAsks helReply)).1)
         = Db.groupMessages (db (groupAsks helReply)) ++ [aiMessage]
         ∧ Db.gm_isAIGenerated aiMessage = true
         ∧ Db.gm_content aiMessage = "Hel" +:+ APOLOGY
         ∧ chunksReceived "s1" "group:ai:stream-chunk"
             (run (@Interleaved.handleGroupAIMention emptyAnalyzer bobJoinsLate
                     aliceSocket "g" "@AI hi") (groupAsks helReply)).2
           = ["Hel"; APOLOGY]
         ∧ receivedBy "s1" "group:ai:stream-end"
             (run (@Interleaved.handleGroupAIMention emptyAnalyzer bobJoinsLate
                     aliceSocket "g" "@AI hi") (groupAsks helReply)).2
           = [GroupStreamEnd "g" aiMessage]).
Proof.
  split; [reflexivity|]. split.
  - split; [reflexivity|]. split; [reflexivity|].
    assert (Hcount : (10 ≤ 12)%Z) by lia.
    destruct (proj1 (@provider_failure_apology_then_persisted emptyAnalyzer aliceSocket
                       "hi" failsAfterHel "alice" eq_refl eq_refl eq_refl)
                    (Db.StyleProfile "alice" 12 Db.emptyAnalysis (Some "be alice") 0)
                    "be alice" eq_refl Hcount eq_refl eq_refl) as [Hchunks _].
    exact Hchunks.
  - split; [reflexivity|]. split; [reflexivity|].
    split; [apply bobJoinsLate_steady|]. split; [apply groupAsks_alice_only|].
    assert (Hmember : filter (fun m => Db.mb_userId m = "alice")
                        (GroupsService.membersOf "g" (db (groupAsks helReply))) ≠ [])
      by (vm_compute; discriminate).
    assert (Hcount : (20 ≤ groupCurrentCount (db (groupAsks helReply)) "g")%Z)
      by (vm_compute; discriminate).
    destruct (proj2 (@provider_failure_apology_then_persisted emptyAnalyzer aliceSocket
                       "@AI hi" (groupAsks helReply) "alice" eq_refl eq_refl eq_refl)
                    bobJoinsLate "g"
                    (Db.GroupStyleProfile "g" 20 [] Db.emptyAnalysis (Some "be g") 0)
                    "be g" Hmember (mk_is_Some _ _ eq_refl) eq_refl Hcount eq_refl eq_refl)
      as (_ & aiMessage & Hstored & _ & Hflag & Hcontent & _ & Hcaller).
    destruct (Hcaller (bobJoinsLate_steady helReply) (groupAsks_alice_only helReply))
      as (_ & Hchunks & Hend).
    exists aiMessage. split; [exact Hstored|]. split; [exact Hflag|].
    split; [exact Hcontent|]. split; [exact Hchunks|exact Hend].
Defined.

(** The caller of the group agent is reached through the registry like
    every member: without a registry nothing is sent, and the apology is
    stored all the same. *)
Lemma unregistered_caller_hears_nothing :
  let w := withRedis (groupAsks helReply) None in
  let after := run (@Interleaved.handleGroupAIMention emptyAnalyzer nobody aliceSocket
                      "g" "@AI hi") w in
  after.2 = []
  ∧ filter (fun m => Db.gm_isAIGenerated m = true) (Db.groupMessages (db w)) = []
  ∧ filter (fun m => Db.gm_isAIGenerated m = true) (Db.groupMessages (db after.1))
    = [Db.GroupMessage "20" "g" "group-ai-g" ("Hel" +:+ APOLOGY) 0 true []].
Proof. repeat split; vm_compute; reflexivity. Qed.

(** ** What a recompute records *)

(** A rendered prompt is never empty: only a row that was never recomputed,
    or was reset, has no prompt. *)
Lemma generateStylePrompt_truthy analysis :
  JS.truthy (StyleProfileService.generateStylePrompt analysis) = true.
Proof. reflexivity. Qed.

Lemma generateGroupStylePrompt_truthy analysis members :
  JS.truthy (GroupAIProfileService.generateGroupStylePrompt analysis members) = true.
Proof. reflexivity. Qed.

Lemma sent_among_exchanged u (ms : list Db.message) :
  filter (fun m => Db.fromUserId m = u)
    (filter (fun m => (Db.fromUserId m = u ∨ Db.toUserId m = u)
                      ∧ Db.isAIGenerated m = false) ms)
  = filter (fun m => Db.fromUserId m = u ∧ Db.isAIGenerated m = false) ms.
Proof.
  rewrite list_filter_filter. apply list_filter_iff.
  intros m. split; [intros [? [_ ?]]|intros [? ?]]; auto.
Qed.

Lemma head_filter_replace {A} (P : A → Prop) `{!∀ x, Decision (P x)} (row : A) rows :
  P row → filter P rows ≠ [] →
  head (filter P ((fun p => if decide (P p) then row else p) <$> rows)) = Some row.
Proof.
  intros Hrow. induction rows as [|p rows IH]; [done|]. intros Hne. csimpl.
  destruct (decide (P p)).
  - by rewrite filter_cons_True.
  - rewrite filter_cons_False in Hne by done. rewrite filter_cons_False by done. auto.
Qed.

Lemma head_filter_snoc {A} (P : A → Prop) `{!∀ x, Decision (P x)} (row : A) rows :
  P row → filter P rows = [] → head (filter P (rows ++ [row])) = Some row.
Proof. intros Hrow Hnone. by rewrite filter_app, Hnone, filter_cons_True. Qed.

(** On a healthy database the user recompute stores a profile that records
    the user's current eligible count and carries a prompt; the messages are
    not touched. *)
Lemma updateStyleProfile_ok `{StyleAnalyzer} w u :
  dbFaults w = [] →
  ∃ row w',
    StyleProfileService.updateStyleProfile u w = (inr row, w', [])
    ∧ Db.sp_messageCount row = userCurrentCount (db w) u
    ∧ JS.truthyOpt (Db.sp_stylePrompt row) = true
    ∧ storedUserProfile (db w') u = Some row
    ∧ userCurrentCount (db w') u = userCurrentCount (db w) u
    ∧ dbFaults w' = [].
Proof.
  intros Hdb. unfold StyleProfileService.updateStyleProfile.
  unfold bind at 1. rewrite select_ok by done.
  unfold bind at 1. rewrite select_ok by done.
  unfold bind at 1. rewrite select_ok by done.
  unfold bind at 1. unfold gets at 1.
  destruct (filter (fun p => Db.sp_userId p = u) (Db.styleProfiles (db w)))
    as [|p0 rest] eqn:Hrows; simpl.
  - rewrite statement_ok by done. eexists _, _. split; [reflexivity|].
    simpl. split_and!.
    + rewrite length_app, !length_fmap, sent_among_exchanged.
      unfold userCurrentCount, StyleProfileService.sentDirect. lia.
    + done.
    + unfold storedUserProfile. simpl. by apply (head_filter_snoc (fun p => Db.sp_userId p = u)).
    + done.
    + done.
  - rewrite statement_ok by done. eexists _, _. split; [reflexivity|].
    simpl. split_and!.
    + rewrite length_app, !length_fmap, sent_among_exchanged.
      unfold userCurrentCount, StyleProfileService.sentDirect. lia.
    + done.
    + unfold storedUserProfile. simpl.
      apply (head_filter_replace (fun p => Db.sp_userId p = u)); [done|].
      by rewrite Hrows.
    + done.
    + done.
Qed.

(** Right after a recompute the user is not due again. *)
Lemma user_not_due_after_update `{StyleAnalyzer} w u row w' :
  dbFaults w = [] →
  StyleProfileService.updateStyleProfile u w = (inr row, w', []) →
  StyleProfileService.shouldUpdateProfile u w' = (inr false, w', []).
Proof.
  intros Hdb Hrun.
  destruct (updateStyleProfile_ok w u Hdb)
    as (row' & w'' & Hrun' & Hcount & _ & Hstored & Hsame & Hdb').
  rewrite Hrun in Hrun'. injection Hrun' as <- <-.
  rewrite user_shouldUpdateProfile_ok, Hstored by done.
  repeat f_equal. apply Z.leb_gt. lia.
Qed.

(** The recompute a group message starts in the background does nothing
    once the group has a profile row. *)
Lemma runTask_group_with_profile `{StyleAnalyzer} w g p :
  dbFaults w = [] →
  GroupAIProfileService.storedProfile g (db w) = Some p →
  Gateway.runTask (GroupStyleUpdate g) w = (inr tt, w, []).
Proof.
  intros Hdb Hp. unfold Gateway.runTask, tryCatch, bind.
  by rewrite (group_recompute_never_due w g p).
Qed.

(** ** The presence store, call by call *)

Lemma socketKey_inj s t : RedisService.socketKey s = RedisService.socketKey t → s = t.
Proof.
  unfold RedisService.socketKey. intros H.
  apply (inj (String.app "socket:")) in H. by apply string_app_inj_r in H.
Qed.

Lemma getSocketByUser_configured w c u :
  redis w = Some c → Redis.reachable c = true →
  RedisService.getSocketByUser w u
  = Redis.kv c !! RedisService.userKey u ≫= Redis.read (clock w).
Proof.
  intros Hc Hr. unfold RedisService.getSocketByUser, Redis.get. by rewrite Hc, Hr.
Qed.

Lemma getUserBySocket_configured w c s :
  redis w = Some c → Redis.reachable c = true →
  RedisService.getUserBySocket w s
  = Redis.kv c !! RedisService.socketKey s ≫= Redis.read (clock w).
Proof.
  intros Hc Hr. unfold RedisService.getUserBySocket, Redis.get. by rewrite Hc, Hr.
Qed.

Lemma setUserOnline_configured w c u s :
  redis w = Some c → Redis.reachable c = true →
  RedisService.setUserOnline u s w
  = withRedis w (Some (Redis.Client
      (<[RedisService.socketKey s := Redis.Entry u (clock w + RedisService.ttl * 1000)]>
         (<[RedisService.userKey u := Redis.Entry s (clock w + RedisService.ttl * 1000)]>
            (Redis.kv c))) true)).
Proof.
  intros Hc Hr. unfold RedisService.setUserOnline, Redis.set. rewrite Hc, Hr. simpl.
  rewrite ?Hr. reflexivity.
Qed.

(** X1.  With a working store, what [setUserOnline] wrote for user [u] and
    socket [s] can be read back in both directions for 24 hours: the
    socket of [u] is [s], the user of [s] is [u], and [u] is online
    (unless [s] is the empty string).  Once 24 hours have passed all three
    are gone. *)
Theorem setUserOnline_round_trip w u s now
    (Hconf : configured w) :
  let w' := withClock (RedisService.setUserOnline u s w) now in
  ((now < clock w + 86400000)%Z →
     RedisService.getSocketByUser w' u = Some s
     ∧ RedisService.getUserBySocket w' s = Some u
     ∧ RedisService.isUserOnline w' u = JS.truthy s)
  ∧ ((clock w + 86400000 ≤ now)%Z →
     RedisService.getSocketByUser w' u = None
     ∧ RedisService.getUserBySocket w' s = None
     ∧ RedisService.isUserOnline w' u = false).
Proof.
  destruct Hconf as (c & Hc & Hr). intros w'. subst w'.
  rewrite (setUserOnline_configured w c) by done.
  split; intros Hnow.
  - erewrite getSocketByUser_configured, getUserBySocket_configured,
      isUserOnline_configured by (simpl; done). simpl.
    rewrite lookup_insert_eq.
    rewrite lookup_insert_ne by (apply not_eq_sym, userKey_socketKey).
    rewrite lookup_insert_eq. simpl. unfold Redis.read. simpl.
    assert ((now <? clock w + RedisService.ttl * 1000)%Z = true) as ->
      by (apply Z.ltb_lt; unfold RedisService.ttl; lia).
    done.
  - erewrite getSocketByUser_configured, getUserBySocket_configured,
      isUserOnline_configured by (simpl; done). simpl.
    rewrite lookup_insert_eq.
    rewrite lookup_insert_ne by (apply not_eq_sym, userKey_socketKey).
    rewrite lookup_insert_eq. simpl. unfold Redis.read. simpl.
    assert ((now <? clock w + RedisService.ttl * 1000)%Z = false) as ->
      by (apply Z.ltb_ge; unfold RedisService.ttl; lia).
    done.
Qed.

Lemma setUserOnline_round_trip_witness :
  configured (blankWorld Db.empty)
  ∧ RedisService.getUserBySocket
      (withClock (RedisService.setUserOnline "alice" "s1" (blankWorld Db.empty)) 5) "s1"
    = Some "alice".
Proof.
  assert (Hconf : configured (blankWorld Db.empty)).
  { exists Redis.fresh. split; reflexivity. }
  split; [exact Hconf|].
  destruct (setUserOnline_round_trip (blankWorld Db.empty) "alice" "s1" 5 Hconf)
    as [Hin _].
  apply Hin. simpl. lia.
Defined.

Lemma setUserOffline_configured w c u :
  redis w = Some c → Redis.reachable c = true →
  RedisService.setUserOffline u w
  = withRedis w (Some (Redis.Client
      (delete (RedisService.userKey u)
         (match Redis.kv c !! RedisService.userKey u ≫= Redis.read (clock w) with
          | Some s => if JS.truthy s then delete (RedisService.socketKey s) (Redis.kv c)
                      else Redis.kv c
          | None => Redis.kv c
          end)) true)).
Proof.
  intros Hc Hr. unfold RedisService.setUserOffline, Redis.get. rewrite Hc, Hr.
  destruct c as [kv r]. simpl in *. subst r.
  destruct (kv !! RedisService.userKey u ≫= Redis.read (clock w)) as [s|]; [|done].
  destruct (JS.truthy s); done.
Qed.

(** X2.  With a working store, after [setUserOffline] user [u] has no socket
    and is offline, and the socket that was recorded for [u] no longer
    leads back to a user.  The entries of every other user, and of every
    socket other than the one recorded for [u], are left as they were. *)
Theorem setUserOffline_clears w u (Hconf : configured w) :
  let w' := RedisService.setUserOffline u w in
  RedisService.getSocketByUser w' u = None
  ∧ RedisService.isUserOnline w' u = false
  ∧ (∀ s, RedisService.getSocketByUser w u = Some s → JS.truthy s = true →
          RedisService.getUserBySocket w' s = None)
  ∧ (∀ v, v ≠ u → RedisService.getSocketByUser w' v = RedisService.getSocketByUser w v)
  ∧ (∀ s, RedisService.getSocketByUser w u ≠ Some s →
          RedisService.getUserBySocket w' s = RedisService.getUserBySocket w s).
Proof.
  destruct Hconf as (c & Hc & Hr). intros w'. subst w'.
  rewrite (setUserOffline_configured w c) by done.
  pose proof (getSocketByUser_configured w c u Hc Hr) as Hheld.
  set (held := Redis.kv c !! RedisService.userKey u ≫= Redis.read (clock w)) in *.
  split_and!.
  - erewrite getSocketByUser_configured by (simpl; done). simpl.
    by rewrite lookup_delete_eq.
  - erewrite isUserOnline_configured by (simpl; done). simpl.
    by rewrite lookup_delete_eq.
  - intros s Hs Ht. rewrite Hheld in Hs. rewrite Hs, Ht.
    erewrite getUserBySocket_configured by (simpl; done). simpl.
    rewrite lookup_delete_ne by (apply userKey_socketKey).
    by rewrite lookup_delete_eq.
  - intros v Hv. erewrite getSocketByUser_configured by (simpl; done). simpl.
    rewrite lookup_delete_ne by (intros Hk; apply userKey_inj in Hk; done).
    rewrite (getSocketByUser_configured w c v) by done.
    destruct held as [s|]; [destruct (JS.truthy s)|]; try done.
    by rewrite lookup_delete_ne by (apply not_eq_sym, userKey_socketKey).
  - intros s Hs. rewrite Hheld in Hs.
    erewrite getUserBySocket_configured by (simpl; done). simpl.
    rewrite lookup_delete_ne by (apply userKey_socketKey).
    rewrite (getUserBySocket_configured w c s) by done.
    destruct held as [s'|]; [destruct (JS.truthy s')|]; try done.
    rewrite lookup_delete_ne; [done|].
    intros Hk. apply socketKey_inj in Hk. congruence.
Qed.

Lemma setUserOffline_clears_witness :
  configured twoOnline
  ∧ RedisService.getUserBySocket (RedisService.setUserOffline "bob" twoOnline) "s2" = None.
Proof.
  assert (Hconf : configured twoOnline).
  { eexists. split; reflexivity. }
  split; [exact Hconf|].
  destruct (setUserOffline_clears twoOnline "bob" Hconf) as (_ & _ & Hrev & _).
  apply Hrev; reflexivity.
Defined.

Lemma read_live now v e : (now < e)%Z → Redis.read now (Redis.Entry v e) = Some v.
Proof. intros H. unfold Redis.read. simpl. by apply Z.ltb_lt in H as ->. Qed.

(** X3.  [setUserOffline] deletes the reverse entry of the socket recorded
    last only.  When a user registers on socket [s1], then on another
    socket [s2], and is then set offline, the store still maps [s1] to the
    user (until that entry expires), although the user has no socket any
    more. *)
Theorem superseded_socket_entry_survives w u s1 s2
    (Hconf : configured w) (Hne : s1 ≠ s2) :
  let w' := RedisService.setUserOffline u
              (RedisService.setUserOnline u s2 (RedisService.setUserOnline u s1 w)) in
  RedisService.getSocketByUser w' u = None
  ∧ RedisService.getUserBySocket w' s2 = (if JS.truthy s2 then None else Some u)
  ∧ RedisService.getUserBySocket w' s1 = Some u.
Proof.
  destruct Hconf as (c & Hc & Hr). intros w'. subst w'.
  rewrite (setUserOnline_configured w c) by done.
  erewrite setUserOnline_configured by (simpl; done).
  erewrite setUserOffline_configured by (simpl; done). simpl.
  assert (Hlive : (clock w < clock w + RedisService.ttl * 1000)%Z)
    by (unfold RedisService.ttl; lia).
  rewrite lookup_insert_ne by (apply not_eq_sym, userKey_socketKey).
  rewrite lookup_insert_eq. simpl. rewrite read_live by done.
  assert (Hk : RedisService.socketKey s2 ≠ RedisService.socketKey s1).
  { intros Hk. apply socketKey_inj in Hk. congruence. }
  split_and!.
  - erewrite getSocketByUser_configured by (simpl; done). simpl.
    by rewrite lookup_delete_eq.
  - erewrite getUserBySocket_configured by (simpl; done). simpl.
    rewrite lookup_delete_ne by (apply userKey_socketKey).
    destruct (JS.truthy s2).
    + by rewrite lookup_delete_eq.
    + rewrite lookup_insert_eq. simpl. by rewrite read_live.
  - erewrite getUserBySocket_configured by (simpl; done). simpl.
    rewrite lookup_delete_ne by (apply userKey_socketKey).
    destruct (JS.truthy s2).
    + rewrite lookup_delete_ne by done. rewrite lookup_insert_ne by done.
      rewrite lookup_insert_ne by (apply userKey_socketKey).
      rewrite lookup_insert_eq. simpl. by rewrite read_live.
    + rewrite lookup_insert_ne by done.
      rewrite lookup_insert_ne by (apply userKey_socketKey).
      rewrite lookup_insert_eq. simpl. by rewrite read_live.
Qed.

Lemma superseded_socket_entry_survives_witness :
  configured (blankWorld Db.empty) ∧ "s1" ≠ "s2"
  ∧ RedisService.getUserBySocket
      (RedisService.setUserOffline "bob"
         (RedisService.setUserOnline "bob" "s2"
            (RedisService.setUserOnline "bob" "s1" (blankWorld Db.empty)))) "s1"
    = Some "bob".
Proof.
  assert (Hconf : configured (blankWorld Db.empty)).
  { exists Redis.fresh. split; reflexivity. }
  assert (Hne : "s1" ≠ "s2") by discriminate.
  split; [exact Hconf|]. split; [exact Hne|].
  destruct (superseded_socket_entry_survives (blankWorld Db.empty) "bob" "s1" "s2" Hconf Hne)
    as (_ & _ & Hold).
  exact Hold.
Defined.

(** X4.  When the store is configured but its requests fail, no failure
    reaches the caller: writes change nothing, every lookup answers null,
    everybody is offline, [emitToUser] delivers nothing and answers false,
    and a connecting user is still admitted and announced as online. *)
Theorem presence_request_failure_is_swallowed w c
    (Hc : redis w = Some c) (Hdown : Redis.reachable c = false) :
  (∀ u s, RedisService.setUserOnline u s w = w)
  ∧ (∀ u, RedisService.setUserOffline u w = w)
  ∧ (∀ u, RedisService.getSocketByUser w u = None)
  ∧ (∀ s, RedisService.getUserBySocket w s = None)
  ∧ (∀ u, RedisService.isUserOnline w u = false)
  ∧ (∀ u ev d, Gateway.emitToUser u ev d w = (inr false, w, []))
  ∧ (∀ client u, Socket.handshake client = SessionOf u →
       Gateway.handleConnection client w
       = (inr (Socket.setUserId client u), w,
          [Emit ToAll "user:status" (Status u "online")])).
Proof.
  assert (Hsock : ∀ u, RedisService.getSocketByUser w u = None).
  { intros u. unfold RedisService.getSocketByUser, Redis.get. by rewrite Hc, Hdown. }
  assert (Hset : ∀ u s, RedisService.setUserOnline u s w = w).
  { intros u s. unfold RedisService.setUserOnline, Redis.set. by rewrite Hc, Hdown. }
  split_and!; try done.
  - intros u. unfold RedisService.setUserOffline, Redis.get. by rewrite Hc, Hdown.
  - intros s. unfold RedisService.getUserBySocket, Redis.get. by rewrite Hc, Hdown.
  - intros u. unfold RedisService.isUserOnline, Redis.get. by rewrite Hc, Hdown.
  - intros u ev d. rewrite emitToUser_run. unfold onlineHandle. by rewrite Hsock.
  - intros client u Hs. unfold Gateway.handleConnection, tryCatch, bind.
    rewrite Hs. simpl. unfold modify. rewrite Hset. reflexivity.
Qed.

Lemma presence_request_failure_is_swallowed_witness :
  RedisService.setUserOnline "alice" "s1" redisDown = redisDown
  ∧ RedisService.isUserOnline redisDown "alice" = false.
Proof.
  destruct (presence_request_failure_is_swallowed redisDown (Redis.Client ∅ false)
              eq_refl eq_refl) as (Hset & _ & _ & _ & Honline & _).
  split; [apply Hset|apply Honline].
Defined.

(** ** Exceptions never leave a handler *)

Lemma returns_ret {A} (a : A) : Returns (ret a).
Proof. intros w. by eexists _, _, _. Qed.

Lemma returns_emit t ev d : Returns (emit t ev d).
Proof. intros w. by eexists _, _, _. Qed.

Lemma returns_tryCatch {A} (body : M A) handler :
  (∀ e, Returns (handler e)) → Returns (tryCatch body handler).
Proof.
  intros Hh w. unfold tryCatch. destruct (body w) as [[[e|a] w1] o1].
  - destruct (Hh e w1) as (a & w2 & o2 & ->). by eexists _, _, _.
  - by eexists _, _, _.
Qed.

(** X5.  Whatever the database, the presence store and the provider do,
    none of these seven handlers of the gateway, given a payload with its
    fields, ends in an exception: [handleConnection], [handleDisconnect],
    [handleMessageSend], [handleCheckStatus], [handleAIFriendMessage],
    [handleGroupMessageSend] and [handleGroupAIMention]; nor does a promise
    they start.  The handlers of the two typing events are not among them,
    and [handleTyping] has no try/catch. *)
Theorem gateway_handlers_return `{StyleAnalyzer} client :
  Returns (Gateway.handleConnection client)
  ∧ Returns (Gateway.handleDisconnect client)
  ∧ (∀ toUserId content, Returns (Gateway.handleMessageSend client toUserId content))
  ∧ (∀ userIds, Returns (Gateway.handleCheckStatus client userIds))
  ∧ (∀ content, Returns (Gateway.handleAIFriendMessage client content))
  ∧ (∀ groupId content, Returns (Gateway.handleGroupMessageSend client groupId content))
  ∧ (∀ groupId content, Returns (Gateway.handleGroupAIMention client groupId content))
  ∧ (∀ task, Returns (Gateway.runTask task)).
Proof.
  split_and!.
  - apply returns_tryCatch. intros e. apply returns_ret.
  - unfold Gateway.handleDisconnect. destruct (Socket.authenticated client).
    + intros w. by eexists _, _, _.
    + apply returns_ret.
  - intros ? ?. unfold Gateway.handleMessageSend.
    destruct (Socket.authenticated client); [|apply returns_ret].
    apply returns_tryCatch. intros e. apply returns_emit.
  - intros ?. unfold Gateway.handleCheckStatus.
    destruct (Socket.authenticated client); [|apply returns_ret].
    apply returns_tryCatch. intros e. apply returns_ret.
  - intros ?. unfold Gateway.handleAIFriendMessage.
    destruct (Socket.authenticated client); [|apply returns_ret].
    apply returns_tryCatch. intros e. apply returns_emit.
  - intros ? ?. unfold Gateway.handleGroupMessageSend.
    destruct (Socket.authenticated client); [|apply returns_ret].
    apply returns_tryCatch. intros e. apply returns_emit.
  - intros ? ?. unfold Gateway.handleGroupAIMention.
    destruct (Socket.authenticated client); [|apply returns_ret].
    apply returns_tryCatch. intros e. apply returns_emit.
  - intros task. apply returns_tryCatch. intros e. apply returns_ret.
Qed.

(** ** Sockets without a session *)

(** X6.  A socket whose handshake carries no valid session (none, or the
    session lookup throws) is disconnected: it is not registered, nothing is
    broadcast, and since its [userId] stays unset every message it sends
    afterwards is dropped without any effect. *)
Theorem unauthenticated_socket_has_no_effect `{StyleAnalyzer} sid session w
    (Hinvalid : ∀ u, session ≠ SessionOf u) :
  ∃ client,
    Gateway.handleConnection (Socket.incoming sid session) w = (inr client, w, [])
    ∧ Socket.connected client = false
    ∧ ∀ w',
        Gateway.handleDisconnect client w' = (inr tt, w', [])
        ∧ (∀ toUserId content,
             Gateway.handleMessageSend client toUserId content w' = (inr tt, w', []))
        ∧ (∀ userIds, Gateway.handleCheckStatus client userIds w' = (inr tt, w', []))
        ∧ (∀ content, Gateway.handleAIFriendMessage client content w' = (inr tt, w', []))
        ∧ (∀ groupId content,
             Gateway.handleGroupMessageSend client groupId content w' = (inr tt, w', []))
        ∧ (∀ groupId content,
             Gateway.handleGroupAIMention client groupId content w' = (inr tt, w', [])).
Proof.
  exists (Socket.disconnect (Socket.incoming sid session)). split_and!.
  - unfold Gateway.handleConnection, tryCatch, bind. simpl.
    destruct session as [| |u]; try reflexivity. by destruct (Hinvalid u).
  - reflexivity.
  - intros w'. split_and!; reflexivity.
Qed.

Lemma unauthenticated_socket_has_no_effect_witness :
  (∀ u, NoSession ≠ SessionOf u)
  ∧ ∃ client,
      Gateway.handleConnection (Socket.incoming "s9" NoSession) twoOnline
      = (inr client, twoOnline, [])
      ∧ Gateway.handleMessageSend client "bob" "hi" twoOnline = (inr tt, twoOnline, []).
Proof.
  assert (Hinvalid : ∀ u, NoSession ≠ SessionOf u) by discriminate.
  split; [exact Hinvalid|].
  destruct (@unauthenticated_socket_has_no_effect emptyAnalyzer "s9" NoSession twoOnline
              Hinvalid) as (client & Hconn & _ & Hrest).
  exists client. split; [exact Hconn|].
  destruct (Hrest twoOnline) as (_ & Hsend & _). apply Hsend.
Defined.

(** ** Status checks *)

Lemma handleCheckStatus_statuses userIds w :
  mapM (fun userId =>
          let* isOnline := gets (fun w => RedisService.isUserOnline w userId) in
          ret (userId, if isOnline then "online" else "offline")) userIds w
  = (inr ((fun u => (u, if RedisService.isUserOnline w u then "online" else "offline"))
            <$> userIds), w, []).
Proof.
  induction userIds as [|u us IH]; [reflexivity|].
  simpl. unfold bind at 1. unfold bind at 1. unfold gets at 1. simpl.
  unfold bind at 1. rewrite IH. reflexivity.
Qed.

(** X7.  The answer to [user:check-status] from an authenticated socket is
    one [user:status-batch] event to that socket, listing the requested ids
    in the order asked, duplicates included, each with "online" exactly
    when the registry holds a non-empty socket id for it; the world is not
    changed. *)
Theorem handleCheckStatus_answers_in_order client me userIds w
    (Hauth : Socket.authenticated client = Some me) :
  ∃ statuses,
    Gateway.handleCheckStatus client userIds w
    = (inr tt, w, [Emit (ToClient (Socket.id client)) "user:status-batch"
                        (StatusBatch statuses)])
    ∧ statuses.*1 = userIds
    ∧ (∀ u status, (u, status) ∈ statuses →
         (status = "online" ∧ RedisService.isUserOnline w u = true)
         ∨ (status = "offline" ∧ RedisService.isUserOnline w u = false)).
Proof.
  eexists. split_and!.
  - unfold Gateway.handleCheckStatus. rewrite Hauth.
    unfold tryCatch. unfold bind at 1. rewrite handleCheckStatus_statuses. reflexivity.
  - rewrite <- list_fmap_compose. apply list_fmap_id.
  - intros u status Hin. apply list_elem_of_fmap in Hin as (v & [= -> ->] & _).
    destruct (RedisService.isUserOnline w v); auto.
Qed.

Lemma handleCheckStatus_answers_in_order_witness :
  Socket.authenticated aliceSocket = Some "alice"
  ∧ ∃ statuses,
      Gateway.handleCheckStatus aliceSocket ["bob"; "carol"; "bob"] twoOnline
      = (inr tt, twoOnline, [Emit (ToClient "s1") "user:status-batch" (StatusBatch statuses)])
      ∧ statuses.*1 = ["bob"; "carol"; "bob"].
Proof.
  split; [reflexivity|].
  destruct (handleCheckStatus_answers_in_order aliceSocket "alice" ["bob"; "carol"; "bob"]
              twoOnline eq_refl) as (statuses & Hrun & Hids & _).
  exists statuses. split; [exact Hrun|exact Hids].
Defined.

(** ** Invariants of a computation *)

Lemma keeps_ret {A} I (a : A) : Keeps I (ret a).
Proof. by intros w r w' out HI [= <- <- <-]. Qed.

Lemma keeps_throw {A} I e : Keeps I (@throw A e).
Proof. by intros w r w' out HI [= <- <- <-]. Qed.

Lemma keeps_gets {A} I (f : World → A) : Keeps I (gets f).
Proof. by intros w r w' out HI [= <- <- <-]. Qed.

Lemma keeps_emit I t ev d : Keeps I (emit t ev d).
Proof. by intros w r w' out HI [= <- <- <-]. Qed.

Lemma keeps_modify I f : (∀ w, I w → I (f w)) → Keeps I (modify f).
Proof. intros Hf w r w' out HI [= <- <- <-]. auto. Qed.

Lemma keeps_bind {A B} I (m : M A) (k : A → M B) :
  Keeps I m → (∀ a, Keeps I (k a)) → Keeps I (bind m k).
Proof.
  intros Hm Hk w r w' out HI H.
  apply bind_inv in H as [(e & H & _)|(a & w1 & o1 & o2 & H1 & H2 & ->)].
  - by apply (Hm w _ _ _ HI H).
  - apply (Hk a w1 _ _ _ (Hm w _ _ _ HI H1) H2).
Qed.

Lemma keeps_tryCatch {A} I (body : M A) (handler : Exn → M A) :
  Keeps I body → (∀ e, Keeps I (handler e)) → Keeps I (tryCatch body handler).
Proof.
  intros Hm Hk w r w' out HI H.
  apply tryCatch_inv in H as [(a & H & _)|(e & w1 & o1 & o2 & H1 & H2 & ->)].
  - by apply (Hm w _ _ _ HI H).
  - apply (Hk e w1 _ _ _ (Hm w _ _ _ HI H1) H2).
Qed.

Lemma keeps_mapM {A B} I (f : A → M B) xs : (∀ x, Keeps I (f x)) → Keeps I (mapM f xs).
Proof.
  intros Hf. induction xs as [|x xs IH]; simpl.
  - apply keeps_ret.
  - apply keeps_bind; [done|]. intros y. apply keeps_bind; [done|].
    intros ys. apply keeps_ret.
Qed.

Lemma keeps_forEach {A} I (xs : list A) body :
  (∀ x, Keeps I (body x)) → Keeps I (forEach xs body).
Proof.
  intros Hf. induction xs as [|x xs IH]; simpl.
  - apply keeps_ret.
  - apply keeps_bind; [done|]. by intros _.
Qed.

Lemma keeps_forAwait I chunks full body :
  (∀ c f, Keeps I (body c f)) → Keeps I (forAwait chunks full body).
Proof.
  intros Hf. revert full. induction chunks as [|c chunks IH]; intros full; simpl.
  - apply keeps_ret.
  - apply keeps_bind; [done|]. by intros _.
Qed.

(** A database statement keeps what the fault oracle cannot change and the
    statement's own write does not change. *)
Lemma keeps_statement {A} I (q : Db.tables → Z → A * Db.tables) :
  (∀ w faults, I w → I (withDb w (db w) faults)) →
  (∀ w faults, I w → I (withDb w (q (db w) (clock w)).2 faults)) →
  Keeps I (statement q).
Proof.
  intros Hskip Hwrite w r w' out HI H.
  apply statement_inv in H as (_ & [[_ ->]|[_ ->]]); [apply Hskip|apply Hwrite]; done.
Qed.

Lemma keeps_select {A} I (q : Db.tables → A) :
  (∀ w faults, I w → I (withDb w (db w) faults)) → Keeps I (select q).
Proof. intros Hskip. apply keeps_statement; done. Qed.

Lemma keeps_spawn I task :
  (∀ w tasks, I w → I (withBackground w tasks)) → Keeps I (spawn task).
Proof. intros Hb. apply keeps_modify. intros w. apply Hb. Qed.

Lemma keeps_create I system user :
  (∀ w replies calls, I w → I (withOpenai w replies calls)) →
  Keeps I (OpenAI.create system user).
Proof.
  intros Ho w r w' out HI. unfold OpenAI.create.
  destruct (openaiReplies w); intros [= <- <- <-]; by apply Ho.
Qed.

Lemma keeps_emitToUser I u ev d : Keeps I (Gateway.emitToUser u ev d).
Proof.
  intros w r w' out HI. rewrite emitToUser_run.
  destruct (onlineHandle w u); by intros [= <- <- <-].
Qed.

Lemma keeps_emitToMembers I ms except ev d : Keeps I (Gateway.emitToMembers ms except ev d).
Proof. intros w r w' out HI. rewrite emitToMembers_run. by intros [= <- <- <-]. Qed.

(** Decompose a goal [Keeps I m] along the structure of [m]; what is left
    are the statements that write. *)
Ltac keeps :=
  repeat match goal with
  | |- Keeps _ (bind _ _) => apply keeps_bind; [|intros ?]
  | |- Keeps _ (tryCatch _ _) => apply keeps_tryCatch; [|intros ?]
  | |- Keeps _ (mapM _ _) => apply keeps_mapM; intros ?
  | |- Keeps _ (forAwait _ _ _) => apply keeps_forAwait; intros ? ?
  | |- Keeps _ (ret _) => apply keeps_ret
  | |- Keeps _ (throw _) => apply keeps_throw
  | |- Keeps _ (gets _) => apply keeps_gets
  | |- Keeps _ (emit _ _ _) => apply keeps_emit
  | |- Keeps _ (Gateway.emitToUser _ _ _) => apply keeps_emitToUser
  | |- Keeps _ (Gateway.emitToMembers _ _ _ _) => apply keeps_emitToMembers
  | |- Keeps _ (select _) => apply keeps_select
  | |- Keeps _ (statement _) => apply keeps_statement
  | |- Keeps _ (spawn _) => apply keeps_spawn
  | |- Keeps _ (OpenAI.create _ _) => apply keeps_create
  | |- Keeps _ (if ?c then _ else _) => destruct c
  | |- Keeps _ (match ?x with _ => _ end) => destruct x
  end.

(** ** What a handler leaves alone *)

Ltac unfold_services :=
  unfold ChatService.sendMessage, GroupsService.isUserInGroup,
    GroupsService.getGroupMembers, GroupMessageService.sendGroupMessage,
    GroupAIService.sendGroupAIMessage, GroupMessageService.sendGroupMessage,
    AIFriendService.generateAIResponseStream, AIFriendService.hasMinimumData,
    GroupAIService.generateGroupAIResponseStream, GroupAIService.hasMinimumData,
    GroupAIProfileService.shouldUpdateProfile,
    GroupAIProfileService.updateGroupStyleProfile,
    GroupAIProfileService.getGroupStyleProfile,
    StyleProfileService.shouldUpdateProfile, StyleProfileService.updateStyleProfile,
    StyleProfileService.getStyleProfile, streamOrApologise.

Lemma handlers_keep_presence `{StyleAnalyzer} r now client :
  (∀ toUserId content,
     Keeps (presenceIs r now) (Gateway.handleMessageSend client toUserId content))
  ∧ (∀ userIds, Keeps (presenceIs r now) (Gateway.handleCheckStatus client userIds))
  ∧ (∀ content, Keeps (presenceIs r now) (Gateway.handleAIFriendMessage client content))
  ∧ (∀ groupId content,
       Keeps (presenceIs r now) (Gateway.handleGroupMessageSend client groupId content))
  ∧ (∀ groupId content,
       Keeps (presenceIs r now) (Gateway.handleGroupAIMention client groupId content))
  ∧ (∀ task, Keeps (presenceIs r now) (Gateway.runTask task)).
Proof.
  split_and!; intros;
    unfold Gateway.handleMessageSend, Gateway.handleCheckStatus,
      Gateway.handleAIFriendMessage, Gateway.handleGroupMessageSend,
      Gateway.handleGroupAIMention, Gateway.runTask;
    unfold_services; keeps; done.
Qed.


Lemma keeps_run {A} I (m : M A) w : Keeps I m → I w → I (run m w).1.
Proof.
  intros Hm HI. unfold run. destruct (m w) as [[r w'] out] eqn:Hrun.
  apply (Hm w r w' out HI Hrun).
Qed.

Lemma setUserOnline_withRedis u s w : ∃ r, RedisService.setUserOnline u s w = withRedis w r.
Proof.
  unfold RedisService.setUserOnline. destruct (redis w) as [c|] eqn:Hc.
  - destruct (Redis.set _ c _ _ _) as [|c1]; [exists (redis w); by destruct w|].
    destruct (Redis.set _ c1 _ _ _); by eexists.
  - exists (redis w). by destruct w.
Qed.

Lemma setUserOffline_withRedis u w : ∃ r, RedisService.setUserOffline u w = withRedis w r.
Proof.
  assert (Hsame : w = withRedis w (redis w)) by (by destruct w).
  unfold RedisService.setUserOffline. destruct (redis w) as [c|] eqn:Hc.
  - destruct (Redis.get _ c _) as [|held]; [by eexists|].
    destruct (match held with Some s => _ | None => _ end) as [|c1]; [by eexists|].
    destruct (Redis.del c1 _); by eexists.
  - by eexists.
Qed.

Lemma handlers_keep_provider replies calls client :
  Keeps (providerIs replies calls) (Gateway.handleConnection client)
  ∧ Keeps (providerIs replies calls) (Gateway.handleDisconnect client)
  ∧ (∀ toUserId content,
       Keeps (providerIs replies calls) (Gateway.handleMessageSend client toUserId content))
  ∧ (∀ userIds, Keeps (providerIs replies calls) (Gateway.handleCheckStatus client userIds))
  ∧ (∀ groupId content,
       Keeps (providerIs replies calls)
             (Gateway.handleGroupMessageSend client groupId content))
  ∧ (∀ `{StyleAnalyzer} task, Keeps (providerIs replies calls) (Gateway.runTask task)).
Proof.
  split_and!; intros;
    unfold Gateway.handleConnection, Gateway.handleDisconnect,
      Gateway.handleMessageSend, Gateway.handleCheckStatus,
      Gateway.handleGroupMessageSend, Gateway.runTask, getSession;
    unfold_services; keeps; try done.
  all: apply keeps_modify; intros w HI.
  - destruct (setUserOnline_withRedis s (Socket.id (Socket.setUserId client s)) w)
      as [r ->]. done.
  - destruct (setUserOffline_withRedis s w) as [r ->]. done.
Qed.

(** X8.  Only a connection or a disconnection writes the presence
    registry, and only the two agent handlers call the provider: every
    other event leaves the registry, respectively the provider's call log
    and pending replies, exactly as they were. *)
Theorem gateway_events_frame `{StyleAnalyzer} w ev :
  match ev with
  | Connects _ | Disconnects _ => True
  | _ => redis (react w ev) = redis w
  end
  ∧ match ev with
    | AIFriendMessage _ _ | GroupAIMention _ _ _ => True
    | _ => openaiCalls (react w ev) = openaiCalls w
           ∧ openaiReplies (react w ev) = openaiReplies w
    end.
Proof.
  split.
  - destruct ev as [c|c|c ? ?|c ?|c ?|c ? ?|c ? ?|task|now]; try done; simpl;
      try (destruct (handlers_keep_presence (redis w) (clock w) c)
             as (Hsend & Hcheck & Hai & Hgroup & Hmention & Htask)).
    + by apply (keeps_run _ _ w (Hsend _ _)).
    + by apply (keeps_run _ _ w (Hcheck _)).
    + by apply (keeps_run _ _ w (Hai _)).
    + by apply (keeps_run _ _ w (Hgroup _ _)).
    + by apply (keeps_run _ _ w (Hmention _ _)).
    + destruct (handlers_keep_presence (redis w) (clock w) aliceSocket)
        as (_ & _ & _ & _ & _ & Htask).
      by apply (keeps_run _ _ w (Htask _)).
  - pose proof (conj eq_refl eq_refl
                  : providerIs (openaiReplies w) (openaiCalls w) w) as HI.
    assert (Hgoal : ∀ {A} (m : M A),
              Keeps (providerIs (openaiReplies w) (openaiCalls w)) m →
              openaiCalls (run m w).1 = openaiCalls w
              ∧ openaiReplies (run m w).1 = openaiReplies w).
    { intros A m Hm. by destruct (keeps_run _ m w Hm HI). }
    destruct ev as [c|c|c to content|c ids|c content|c g content|c g content|task|now];
      try done; simpl; apply Hgoal.
    + apply (handlers_keep_provider _ _ c).
    + apply (handlers_keep_provider _ _ c).
    + apply (handlers_keep_provider _ _ c).
    + apply (handlers_keep_provider _ _ c).
    + apply (handlers_keep_provider _ _ c).
    + apply (handlers_keep_provider _ _ aliceSocket).
Qed.

(** ** Pre- and postconditions *)

Lemma hoare_bind {A B} P (m : M A) (k : A → M B) Q R E :
  hoare P m Q E → (∀ a, hoare (Q a) (k a) R E) → hoare P (bind m k) R E.
Proof.
  intros Hm Hk w r w' out HP H.
  apply bind_inv in H as [(e & H & ->)|(a & w1 & o1 & o2 & H1 & H2 & ->)].
  - apply (Hm w _ _ _ HP H).
  - apply (Hk a w1 _ _ _ (Hm w _ _ _ HP H1) H2).
Qed.

Lemma hoare_keeps {A} I (m : M A) : hoare I m (fun _ => I) I ↔ Keeps I m.
Proof.
  split.
  - intros Hm w r w' out HI H. specialize (Hm w r w' out HI H). by destruct r.
  - intros Hm w r w' out HI H. specialize (Hm w r w' out HI H). by destruct r.
Qed.

Lemma hoare_weaken {A} (P P' : World → Prop) (m : M A) (Q Q' : A → World → Prop)
    (E E' : World → Prop) :
  hoare P' m Q' E' → (∀ w, P w → P' w) → (∀ a w, Q' a w → Q a w) → (∀ w, E' w → E w) →
  hoare P m Q E.
Proof.
  intros Hm HP HQ HE w r w' out Hw H. specialize (Hm w r w' out (HP w Hw) H).
  destruct r; auto.
Qed.

(** A query returns what the tables hold when it has run. *)
Lemma hoare_select {A} P (q : Db.tables → A) :
  (∀ w faults, P w → P (withDb w (db w) faults)) →
  hoare P (select q) (fun a w => P w ∧ a = q (db w)) P.
Proof.
  intros Hskip w r w' out HP H. apply select_inv in H as (_ & -> & [->| ->]).
  - by apply Hskip.
  - split; [by apply Hskip|done].
Qed.

Lemma hoare_gets {A} P (f : World → A) E : hoare P (gets f) (fun a w => P w ∧ a = f w) E.
Proof. intros w r w' out HP [= <- <- <-]. done. Qed.

(** ** A group that has a profile row is never recomputed *)

Lemma groupProfileIs_db g p w w' : db w' = db w → groupProfileIs g p w → groupProfileIs g p w'.
Proof. unfold groupProfileIs. by intros ->. Qed.

(** With a row in place the scheduler never answers true, whatever the
    database does: the count it compares with is the one it has just read. *)
Lemma group_shouldUpdateProfile_with_row g p :
  hoare (groupProfileIs g p) (GroupAIProfileService.shouldUpdateProfile g)
        (fun due w => groupProfileIs g p w ∧ due = false) (groupProfileIs g p).
Proof.
  intros w r w' out HI H. unfold groupProfileIs in HI.
  unfold GroupAIProfileService.shouldUpdateProfile,
    GroupAIProfileService.getGroupStyleProfile in H.
  run_inv; simpl in *; unfold groupProfileIs; simpl; try done; try congruence.
  split; [done|]. apply Z.leb_gt. unfold GroupAIProfileService.UPDATE_INTERVAL. lia.
Qed.

Lemma head_filter_map_other {A} (P : A → Prop) `{!∀ x, Decision (P x)}
    (Q : A → Prop) `{!∀ x, Decision (Q x)} (row : A) rows :
  ¬ P row → (∀ x, Q x → ¬ P x) →
  head (filter P ((fun x => if decide (Q x) then row else x) <$> rows))
  = head (filter P rows).
Proof.
  intros Hrow HQ. f_equal. induction rows as [|x rows IH]; [done|]. csimpl.
  destruct (decide (Q x)) as [Hq|Hq].
  - rewrite !filter_cons_False by auto. done.
  - destruct (decide (P x)).
    + rewrite !filter_cons_True by done. by rewrite IH.
    + rewrite !filter_cons_False by done. done.
Qed.

Lemma head_filter_snoc_other {A} (P : A → Prop) `{!∀ x, Decision (P x)} (row : A) rows :
  ¬ P row → head (filter P (rows ++ [row])) = head (filter P rows).
Proof.
  intros Hrow. by rewrite filter_app, filter_cons_False, filter_nil, app_nil_r.
Qed.

Lemma keeps_updateGroupStyleProfile_other `{StyleAnalyzer} g p g' :
  g' ≠ g → Keeps (groupProfileIs g p) (GroupAIProfileService.updateGroupStyleProfile g').
Proof.
  intros Hne. unfold GroupAIProfileService.updateGroupStyleProfile.
  apply keeps_bind; [by apply keeps_select|]. intros messages.
  destruct (analyzeGroupMessages messages) as [analysis contributions].
  keeps; try done; unfold groupProfileIs, GroupAIProfileService.storedProfile; simpl;
    intros w faults <-.
  - apply (head_filter_snoc_other (fun x => Db.gsp_groupId x = g)). simpl. congruence.
  - apply (head_filter_map_other (fun x => Db.gsp_groupId x = g)
             (fun x => Db.gsp_groupId x = g')); simpl; congruence.
Qed.


Lemma keeps_after_group_schedule {B} g p g' (k : bool → M B) :
  (∀ due, (due = true → g' ≠ g) → Keeps (groupProfileIs g p) (k due)) →
  Keeps (groupProfileIs g p) (bind (GroupAIProfileService.shouldUpdateProfile g') k).
Proof.
  intros Hk. destruct (decide (g' = g)) as [->|Hne].
  - apply hoare_keeps.
    apply (hoare_bind _ _ _ (fun due w => groupProfileIs g p w ∧ due = false)).
    + apply group_shouldUpdateProfile_with_row.
    + intros due w r w' out [HI ->] Hrun.
      assert (Hkeeps : Keeps (groupProfileIs g p) (k false)) by (by apply Hk).
      specialize (Hkeeps w r w' out HI Hrun). by destruct r.
  - apply keeps_bind; [|by intros due; apply Hk].
    unfold GroupAIProfileService.shouldUpdateProfile,
      GroupAIProfileService.getGroupStyleProfile.
    keeps; done.
Qed.

Lemma setUserOnline_db u s w : db (RedisService.setUserOnline u s w) = db w.
Proof. by destruct (setUserOnline_withRedis u s w) as [r ->]. Qed.

Lemma setUserOffline_db u w : db (RedisService.setUserOffline u w) = db w.
Proof. by destruct (setUserOffline_withRedis u w) as [r ->]. Qed.

Lemma handlers_keep_groupProfile `{StyleAnalyzer} g p client :
  Keeps (groupProfileIs g p) (Gateway.handleConnection client)
  ∧ Keeps (groupProfileIs g p) (Gateway.handleDisconnect client)
  ∧ (∀ toUserId content,
       Keeps (groupProfileIs g p) (Gateway.handleMessageSend client toUserId content))
  ∧ (∀ userIds, Keeps (groupProfileIs g p) (Gateway.handleCheckStatus client userIds))
  ∧ (∀ content, Keeps (groupProfileIs g p) (Gateway.handleAIFriendMessage client content))
  ∧ (∀ groupId content,
       Keeps (groupProfileIs g p) (Gateway.handleGroupMessageSend client groupId content))
  ∧ (∀ groupId content,
       Keeps (groupProfileIs g p) (Gateway.handleGroupAIMention client groupId content))
  ∧ (∀ task, Keeps (groupProfileIs g p) (Gateway.runTask task)).
Proof.
  split_and!; intros.
  - unfold Gateway.handleConnection, getSession. keeps; try done.
    apply keeps_modify. intros w. apply groupProfileIs_db, setUserOnline_db.
  - unfold Gateway.handleDisconnect. keeps; try done.
    apply keeps_modify. intros w. apply groupProfileIs_db, setUserOffline_db.
  - unfold Gateway.handleMessageSend. unfold_services. keeps; done.
  - unfold Gateway.handleCheckStatus. keeps; done.
  - unfold Gateway.handleAIFriendMessage. unfold_services. keeps; done.
  - unfold Gateway.handleGroupMessageSend. unfold_services. keeps; done.
  - unfold Gateway.handleGroupAIMention.
    destruct (Socket.authenticated client); [|apply keeps_ret].
    apply keeps_tryCatch; [|intros e; apply keeps_emit].
    apply keeps_bind; [unfold GroupsService.isUserInGroup; keeps; done|].
    intros isMember. destruct (negb isMember); [apply keeps_emit|].
    apply keeps_after_group_schedule. intros due Hdue.
    apply keeps_bind.
    { destruct due; [|apply keeps_ret].
      apply keeps_bind; [|intros ?; apply keeps_ret].
      by apply keeps_updateGroupStyleProfile_other, Hdue. }
    intros _.
    unfold GroupsService.getGroupMembers, GroupAIService.generateGroupAIResponseStream,
      GroupAIService.hasMinimumData, GroupAIProfileService.getGroupStyleProfile,
      GroupAIService.sendGroupAIMessage, GroupMessageService.sendGroupMessage,
      streamOrApologise.
    keeps; done.
  - unfold Gateway.runTask. apply keeps_tryCatch; [|intros e; apply keeps_ret].
    destruct task as [userId|groupId].
    + unfold StyleProfileService.shouldUpdateProfile,
        StyleProfileService.updateStyleProfile, StyleProfileService.getStyleProfile.
      keeps; done.
    + apply keeps_after_group_schedule. intros due Hdue.
      destruct due; [|apply keeps_ret].
      apply keeps_bind; [|intros ?; apply keeps_ret].
      by apply keeps_updateGroupStyleProfile_other, Hdue.
Qed.

Lemma react_keeps_groupProfile `{StyleAnalyzer} g p w ev :
  groupProfileIs g p w → groupProfileIs g p (react w ev).
Proof.
  intros HI.
  destruct ev as [c|c|c to content|c ids|c content|c g' content|c g' content|task|now];
    simpl; try (apply keeps_run; [|done]).
  - apply (handlers_keep_groupProfile g p c).
  - apply (handlers_keep_groupProfile g p c).
  - apply (handlers_keep_groupProfile g p c).
  - apply (handlers_keep_groupProfile g p c).
  - apply (handlers_keep_groupProfile g p c).
  - apply (handlers_keep_groupProfile g p c).
  - apply (handlers_keep_groupProfile g p c).
  - apply (handlers_keep_groupProfile g p aliceSocket).
  - done.
Qed.

(** X9.  Once a group has a row in [group_style_profiles], no sequence of
    gateway events (handlers running one at a time, with any database
    faults and provider answers) ever changes that row: the scheduler
    answers false for such a group, so neither the background recompute of
    [group:message:send] nor the recompute before [group:ai:mention]
    happens, and nothing else in the gateway writes the table. *)
Theorem group_profile_never_recomputed `{StyleAnalyzer} evs w g p
    (Hrow : GroupAIProfileService.storedProfile g (db w) = Some p) :
  GroupAIProfileService.storedProfile g (db (reactAll evs w)) = Some p.
Proof.
  revert w Hrow. induction evs as [|ev evs IH]; intros w Hrow; [done|].
  simpl. apply IH. by apply react_keeps_groupProfile.
Qed.

Lemma group_profile_never_recomputed_witness :
  GroupAIProfileService.storedProfile "g" (db lateGroup)
    = Some (Db.GroupStyleProfile "g" 0 [] Db.emptyAnalysis None 0)
  ∧ GroupAIProfileService.storedProfile "g"
      (db (@reactAll emptyAnalyzer groupChatter lateGroup))
    = Some (Db.GroupStyleProfile "g" 0 [] Db.emptyAnalysis None 0).
Proof.
  split; [reflexivity|].
  apply (@group_profile_never_recomputed emptyAnalyzer groupChatter lateGroup "g" _ eq_refl).
Defined.

(** ** The primary keys of the profile tables *)

Lemma keys_replace {A K} `{EqDecision K} (key : A → K) k (row : A) (rows : list A) :
  key row = k →
  key <$> ((fun p => if decide (key p = k) then row else p) <$> rows) = key <$> rows.
Proof.
  intros Hrow. induction rows as [|p rows IH]; [done|]. csimpl. rewrite IH.
  f_equal. destruct (decide (key p = k)); congruence.
Qed.

Lemma keys_snoc_fresh {A K} `{EqDecision K} (key : A → K) k (row : A) (rows : list A) :
  key row = k → take 1 (filter (fun p => key p = k) rows) = [] →
  NoDup (key <$> rows) → NoDup (key <$> (rows ++ [row])).
Proof.
  intros Hrow Hnone Hnodup. rewrite fmap_app. apply NoDup_app. split; [done|].
  split; [|apply NoDup_singleton].
  intros x Hx Hx'. apply list_elem_of_singleton in Hx'. subst x.
  apply list_elem_of_fmap in Hx as (p & Hp & Hin).
  assert (Hf : p ∈ filter (fun p => key p = k) rows).
  { apply list_elem_of_filter. split; congruence. }
  destruct (filter (fun p => key p = k) rows); [by apply not_elem_of_nil in Hf|done].
Qed.

Lemma profileKeysUnique_db w w' : db w' = db w → profileKeysUnique w → profileKeysUnique w'.
Proof. unfold profileKeysUnique. by intros ->. Qed.

Lemma hoare_of_keeps {A} I (m : M A) : Keeps I m → hoare I m (fun _ => I) I.
Proof. apply hoare_keeps. Qed.

Lemma keeps_updateStyleProfile_keys `{StyleAnalyzer} u :
  Keeps profileKeysUnique (StyleProfileService.updateStyleProfile u).
Proof.
  unfold StyleProfileService.updateStyleProfile.
  apply keeps_bind; [by apply keeps_select|]. intros direct.
  apply keeps_bind; [by apply keeps_select|]. intros inGroups.
  apply hoare_keeps.
  eapply hoare_bind; [by apply hoare_select|]. intros existing.
  eapply hoare_bind; [apply hoare_gets|]. intros now.
  intros w r w' out [[[Hu Hg] ->] ->] Hrun.
  destruct (take 1 _) as [|p0 rest] eqn:Hex;
    apply statement_inv in Hrun as (_ & [[-> ->]|[-> ->]]); try done.
  all: split; [|done]; simpl.
  - by apply (keys_snoc_fresh Db.sp_userId u).
  - by rewrite (keys_replace Db.sp_userId u).
Qed.

Lemma keeps_updateGroupStyleProfile_keys `{StyleAnalyzer} g :
  Keeps profileKeysUnique (GroupAIProfileService.updateGroupStyleProfile g).
Proof.
  unfold GroupAIProfileService.updateGroupStyleProfile.
  apply keeps_bind; [by apply keeps_select|]. intros messages.
  destruct (analyzeGroupMessages messages) as [analysis contributions].
  apply keeps_bind; [keeps; done|]. intros found.
  apply hoare_keeps.
  eapply hoare_bind; [by apply hoare_select|]. intros existing.
  eapply hoare_bind; [apply hoare_gets|]. intros now.
  intros w r w' out [[[Hu Hg] ->] ->] Hrun.
  destruct (take 1 _) as [|p0 rest] eqn:Hex;
    apply statement_inv in Hrun as (_ & [[-> ->]|[-> ->]]); try done.
  all: split; [done|]; simpl.
  - by apply (keys_snoc_fresh Db.gsp_groupId g).
  - by rewrite (keys_replace Db.gsp_groupId g).
Qed.

Lemma handlers_keep_profileKeys `{StyleAnalyzer} client :
  Keeps profileKeysUnique (Gateway.handleConnection client)
  ∧ Keeps profileKeysUnique (Gateway.handleDisconnect client)
  ∧ (∀ toUserId content,
       Keeps profileKeysUnique (Gateway.handleMessageSend client toUserId content))
  ∧ (∀ userIds, Keeps profileKeysUnique (Gateway.handleCheckStatus client userIds))
  ∧ (∀ content, Keeps profileKeysUnique (Gateway.handleAIFriendMessage client content))
  ∧ (∀ groupId content,
       Keeps profileKeysUnique (Gateway.handleGroupMessageSend client groupId content))
  ∧ (∀ groupId content,
       Keeps profileKeysUnique (Gateway.handleGroupAIMention client groupId content))
  ∧ (∀ task, Keeps profileKeysUnique (Gateway.runTask task)).
Proof.
  split_and!; intros.
  - unfold Gateway.handleConnection, getSession. keeps; try done.
    apply keeps_modify. intros w. apply profileKeysUnique_db, setUserOnline_db.
  - unfold Gateway.handleDisconnect. keeps; try done.
    apply keeps_modify. intros w. apply profileKeysUnique_db, setUserOffline_db.
  - unfold Gateway.handleMessageSend. unfold_services. keeps; done.
  - unfold Gateway.handleCheckStatus. keeps; done.
  - unfold Gateway.handleAIFriendMessage. unfold_services. keeps; done.
  - unfold Gateway.handleGroupMessageSend. unfold_services. keeps; done.
  - unfold Gateway.handleGroupAIMention.
    destruct (Socket.authenticated client); [|apply keeps_ret].
    apply keeps_tryCatch; [|intros e; apply keeps_emit].
    apply keeps_bind; [unfold GroupsService.isUserInGroup; keeps; done|].
    intros isMember. destruct (negb isMember); [apply keeps_emit|].
    apply keeps_bind.
    { unfold GroupAIProfileService.shouldUpdateProfile,
        GroupAIProfileService.getGroupStyleProfile. keeps; done. }
    intros due. apply keeps_bind.
    { destruct due; [|apply keeps_ret].
      apply keeps_bind; [|intros ?; apply keeps_ret].
      apply keeps_updateGroupStyleProfile_keys. }
    intros _.
    unfold GroupsService.getGroupMembers, GroupAIService.generateGroupAIResponseStream,
      GroupAIService.hasMinimumData, GroupAIProfileService.getGroupStyleProfile,
      GroupAIService.sendGroupAIMessage, GroupMessageService.sendGroupMessage,
      streamOrApologise.
    keeps; done.
  - unfold Gateway.runTask. apply keeps_tryCatch; [|intros e; apply keeps_ret].
    destruct task as [userId|groupId].
    + apply keeps_bind.
      { unfold StyleProfileService.shouldUpdateProfile,
          StyleProfileService.getStyleProfile. keeps; done. }
      intros due. destruct due; [|apply keeps_ret].
      apply keeps_bind; [|intros ?; apply keeps_ret].
      apply keeps_updateStyleProfile_keys.
    + apply keeps_bind.
      { unfold GroupAIProfileService.shouldUpdateProfile,
          GroupAIProfileService.getGroupStyleProfile. keeps; done. }
      intros due. destruct due; [|apply keeps_ret].
      apply keeps_bind; [|intros ?; apply keeps_ret].
      apply keeps_updateGroupStyleProfile_keys.
Qed.

(** X10.  The gateway never creates a second profile row for a user or for
    a group: if the keys of [style_profiles] and [group_style_profiles] are
    unique, they are still unique after any sequence of gateway events,
    whatever statements fail on the way. *)
Theorem profile_keys_stay_unique `{StyleAnalyzer} evs w
    (Hunique : profileKeysUnique w) :
  profileKeysUnique (reactAll evs w).
Proof.
  revert w Hunique. induction evs as [|ev evs IH]; intros w Hunique; [done|].
  simpl. apply IH.
  destruct ev as [c|c|c to content|c ids|c content|c g' content|c g' content|task|now];
    simpl; try (apply keeps_run; [|done]).
  - apply (handlers_keep_profileKeys c).
  - apply (handlers_keep_profileKeys c).
  - apply (handlers_keep_profileKeys c).
  - apply (handlers_keep_profileKeys c).
  - apply (handlers_keep_profileKeys c).
  - apply (handlers_keep_profileKeys c).
  - apply (handlers_keep_profileKeys c).
  - apply (handlers_keep_profileKeys aliceSocket).
  - done.
Qed.

Lemma profile_keys_stay_unique_witness :
  profileKeysUnique nineNoProfile
  ∧ profileKeysUnique (@reactAll emptyAnalyzer tenthMessage nineNoProfile).
Proof.
  assert (Hunique : profileKeysUnique nineNoProfile) by (split; constructor).
  split; [exact Hunique|].
  apply (@profile_keys_stay_unique emptyAnalyzer tenthMessage nineNoProfile Hunique).
Defined.

(** ** A group whose row has no prompt *)

Lemma groupRowAndProvider_ext g p replies calls w w' :
  db w' = db w → openaiReplies w' = openaiReplies w → openaiCalls w' = openaiCalls w →
  groupRowAndProvider g p replies calls w → groupRowAndProvider g p replies calls w'.
Proof.
  unfold groupRowAndProvider, groupProfileIs, providerIs. by intros -> -> ->.
Qed.

Lemma keeps_generate_without_prompt g p replies calls msg :
  JS.truthyOpt (Db.gsp_stylePrompt p) = false →
  Keeps (groupRowAndProvider g p replies calls)
        (GroupAIService.generateGroupAIResponseStream g msg).
Proof.
  intros Hprompt w r w' out [HI HP] Hrun. unfold groupProfileIs in HI.
  unfold GroupAIService.generateGroupAIResponseStream, GroupAIService.hasMinimumData,
    GroupAIProfileService.getGroupStyleProfile in Hrun.
  run_inv; simpl in *;
    try (apply (groupRowAndProvider_ext g p replies calls w); done).
  all: exfalso; rewrite HI in *; simplify_eq; simpl in *.
  all: match goal with
       | Hs : Db.gsp_stylePrompt _ = Some _, Hp : JS.truthyOpt _ = false |- _ =>
           rewrite Hs in Hp; simpl in Hp
       end.
  all: congruence.
Qed.

Lemma keeps_schedule_with_row {B} g p replies calls (k : bool → M B) :
  Keeps (groupRowAndProvider g p replies calls) (k false) →
  Keeps (groupRowAndProvider g p replies calls)
        (bind (GroupAIProfileService.shouldUpdateProfile g) k).
Proof.
  intros Hk w r w' out [HI HP] Hrun.
  apply bind_inv in Hrun as [(e & Hrun & _)|(due & w1 & o1 & o2 & H1 & H2 & _)].
  - split.
    + apply (group_shouldUpdateProfile_with_row g p w _ _ _ HI Hrun).
    + assert (Hkeep : Keeps (providerIs replies calls)
                (GroupAIProfileService.shouldUpdateProfile g)).
      { unfold GroupAIProfileService.shouldUpdateProfile,
          GroupAIProfileService.getGroupStyleProfile. keeps; done. }
      apply (Hkeep w _ _ _ HP Hrun).
  - destruct (group_shouldUpdateProfile_with_row g p w _ _ _ HI H1) as [HI1 ->].
    assert (Hkeep : Keeps (providerIs replies calls)
              (GroupAIProfileService.shouldUpdateProfile g)).
    { unfold GroupAIProfileService.shouldUpdateProfile,
        GroupAIProfileService.getGroupStyleProfile. keeps; done. }
    apply (Hk w1 r w' o2); [|done]. split; [done|]. apply (Hkeep w _ _ _ HP H1).
Qed.

Lemma handleGroupAIMention_without_prompt `{StyleAnalyzer} g p replies calls client content :
  JS.truthyOpt (Db.gsp_stylePrompt p) = false →
  Keeps (groupRowAndProvider g p replies calls)
        (Gateway.handleGroupAIMention client g content).
Proof.
  intros Hprompt. unfold Gateway.handleGroupAIMention.
  destruct (Socket.authenticated client); [|apply keeps_ret].
  apply keeps_tryCatch; [|intros e; apply keeps_emit].
  apply keeps_bind; [unfold GroupsService.isUserInGroup; keeps; done|].
  intros isMember. destruct (negb isMember); [apply keeps_emit|].
  apply keeps_schedule_with_row.
  apply keeps_bind; [apply keeps_ret|]. intros _.
  apply keeps_bind; [unfold GroupsService.getGroupMembers; keeps; done|].
  intros groupMembers. apply keeps_bind; [apply keeps_gets|]. intros now.
  apply keeps_bind; [apply keeps_emitToMembers|]. intros _.
  apply keeps_bind; [by apply keeps_generate_without_prompt|]. intros chunks.
  unfold GroupAIService.sendGroupAIMessage, GroupMessageService.sendGroupMessage.
  keeps; done.
Qed.

Lemma reactAll_keeps_groupProfile `{StyleAnalyzer} evs w g p :
  groupProfileIs g p w → groupProfileIs g p (reactAll evs w).
Proof.
  revert w. induction evs as [|ev evs IH]; intros w Hrow; [done|].
  simpl. apply IH. by apply react_keeps_groupProfile.
Qed.

(** X11.  A group whose profile row has no prompt (as
    [resetGroupStyleProfile] leaves it) never gets one
    through the gateway, so the provider is never consulted for it: after
    any sequence of gateway events, a [group:ai:mention] for that group
    leaves the provider's call log and pending replies as they were. *)
Theorem group_without_prompt_never_asks_provider `{StyleAnalyzer} evs w g p client content
    (Hrow : GroupAIProfileService.storedProfile g (db w) = Some p)
    (Hprompt : JS.truthyOpt (Db.gsp_stylePrompt p) = false) :
  let before := reactAll evs w in
  let after := react before (GroupAIMention client g content) in
  openaiCalls after = openaiCalls before
  ∧ openaiReplies after = openaiReplies before
  ∧ GroupAIProfileService.storedProfile g (db after) = Some p.
Proof.
  intros before after. subst after. simpl.
  assert (Hbefore : groupRowAndProvider g p (openaiReplies before) (openaiCalls before)
                      before).
  { split; [by apply reactAll_keeps_groupProfile|done]. }
  destruct (keeps_run _ _ before
              (handleGroupAIMention_without_prompt g p _ _ client content Hprompt)
              Hbefore) as [Hrow' [Hreplies Hcalls]].
  done.
Qed.

Lemma group_without_prompt_never_asks_provider_witness :
  openaiCalls (@react emptyAnalyzer (@reactAll emptyAnalyzer groupChatter lateGroup)
                 (GroupAIMention aliceSocket "g" "@AI again"))
  = openaiCalls (@reactAll emptyAnalyzer groupChatter lateGroup).
Proof.
  destruct (@group_without_prompt_never_asks_provider emptyAnalyzer groupChatter lateGroup
              "g" _ aliceSocket "@AI again" eq_refl eq_refl) as [Hcalls _].
  exact Hcalls.
Defined.

(** ** What counts towards a recompute *)

Lemma userCurrentCount_insertMessage from to text ai t now u :
  userCurrentCount (Db.insertMessage from to text ai t now).2 u
  = (userCurrentCount t u + if decide (from = u ∧ ai = false) then 1 else 0)%Z.
Proof.
  unfold userCurrentCount, StyleProfileService.sentDirect, StyleProfileService.sentInGroups.
  simpl. rewrite filter_app, length_app. destruct (decide _) as [Hd|Hd].
  - rewrite filter_cons_True by done. simpl. lia.
  - rewrite filter_cons_False by done. simpl. lia.
Qed.

Lemma userCurrentCount_insertGroupMessage g from text ai mentions t now u :
  userCurrentCount (Db.insertGroupMessage g from text ai mentions t now).2 u
  = (userCurrentCount t u + if decide (from = u ∧ ai = false) then 1 else 0)%Z.
Proof.
  unfold userCurrentCount, StyleProfileService.sentDirect, StyleProfileService.sentInGroups.
  simpl. rewrite filter_app, length_app. destruct (decide _) as [Hd|Hd].
  - rewrite filter_cons_True by done. simpl. lia.
  - rewrite filter_cons_False by done. simpl. lia.
Qed.

Lemma groupCurrentCount_insertGroupMessage g from text ai mentions t now g' :
  groupCurrentCount (Db.insertGroupMessage g from text ai mentions t now).2 g'
  = (groupCurrentCount t g' + if decide (g = g' ∧ ai = false) then 1 else 0)%Z.
Proof.
  unfold groupCurrentCount, GroupAIProfileService.eligible.
  simpl. rewrite filter_app, length_app. destruct (decide _) as [Hd|Hd].
  - rewrite filter_cons_True by done. simpl. lia.
  - rewrite filter_cons_False by done. simpl. lia.
Qed.

Lemma countsAre_db u g n m w w' :
  Db.messages (db w') = Db.messages (db w) →
  Db.groupMessages (db w') = Db.groupMessages (db w) →
  countsAre u g n m w → countsAre u g n m w'.
Proof.
  unfold countsAre, userCurrentCount, groupCurrentCount, StyleProfileService.sentDirect,
    StyleProfileService.sentInGroups, GroupAIProfileService.eligible.
  by intros -> ->.
Qed.

Lemma keeps_counts_updateGroupStyleProfile `{StyleAnalyzer} u g n m g' :
  Keeps (countsAre u g n m) (GroupAIProfileService.updateGroupStyleProfile g').
Proof.
  unfold GroupAIProfileService.updateGroupStyleProfile.
  apply keeps_bind; [by apply keeps_select|]. intros messages.
  destruct (analyzeGroupMessages messages) as [analysis contributions].
  keeps; try done; intros w faults; by apply countsAre_db.
Qed.

Lemma handleGroupAIMention_keeps_counts `{StyleAnalyzer} u g n m client g' content :
  Keeps (countsAre u g n m) (Gateway.handleGroupAIMention client g' content).
Proof.
  unfold Gateway.handleGroupAIMention.
  destruct (Socket.authenticated client); [|apply keeps_ret].
  apply keeps_tryCatch; [|intros e; apply keeps_emit].
  apply keeps_bind; [unfold GroupsService.isUserInGroup; keeps; done|].
  intros isMember. destruct (negb isMember); [apply keeps_emit|].
  apply keeps_bind.
  { unfold GroupAIProfileService.shouldUpdateProfile,
      GroupAIProfileService.getGroupStyleProfile. keeps; done. }
  intros due. apply keeps_bind.
  { destruct due; [|apply keeps_ret].
    apply keeps_bind; [|intros ?; apply keeps_ret].
    apply keeps_counts_updateGroupStyleProfile. }
  intros _.
  unfold GroupsService.getGroupMembers, GroupAIService.generateGroupAIResponseStream,
    GroupAIService.hasMinimumData, GroupAIProfileService.getGroupStyleProfile,
    GroupAIService.sendGroupAIMessage, GroupMessageService.sendGroupMessage,
    streamOrApologise.
  keeps; try done.
  intros w faults [Hu Hg]. unfold countsAre. cbn [db withDb].
  rewrite userCurrentCount_insertGroupMessage, groupCurrentCount_insertGroupMessage.
  rewrite !decide_False by (by intros [_ ?]). split; lia.
Qed.

Lemma tryCatch_bind_ok {A B} (m : M A) (k : A → M B) h w a w1 :
  m w = (inr a, w1, []) → tryCatch (bind m k) h w = tryCatch (k a) h w1.
Proof.
  intros Hm. unfold tryCatch, bind. rewrite Hm.
  destruct (k a w1) as [[[e|b] w2] o2]; [|done]. by destruct (h e w2) as [[r w3] o3].
Qed.

Lemma tryCatch_bind_throw {A B} (m : M A) (k : A → M B) h w e w1 :
  m w = (inl e, w1, []) → tryCatch (bind m k) h w = h e w1.
Proof.
  intros Hm. unfold tryCatch, bind. rewrite Hm. by destruct (h e w1) as [[r w3] o3].
Qed.

Lemma countsAre_insert_generated u g n m from to text w faults :
  countsAre u g n m w →
  countsAre u g n m
    (withDb w (Db.insertMessage from to text true (db w) (clock w)).2 faults).
Proof.
  intros [Hu Hg]. unfold countsAre. cbn [db withDb].
  rewrite userCurrentCount_insertMessage. rewrite decide_False by (by intros [_ ?]).
  split; [lia|done].
Qed.

(** X12.  Replies of the two agents never count towards a recompute.  A
    [group:ai:mention] changes no user's and no group's eligible count,
    whatever happens on the way.  An [ai-friend:message] from user [u]
    raises the count of [u] by one exactly when the user's own message is
    stored, and changes the count of nobody else, the companion account
    included. *)
Theorem agent_replies_do_not_count `{StyleAnalyzer} client content g w :
  (∀ v g', userCurrentCount (db (react w (GroupAIMention client g content))) v
           = userCurrentCount (db w) v
           ∧ groupCurrentCount (db (react w (GroupAIMention client g content))) g'
             = groupCurrentCount (db w) g')
  ∧ (∀ u v, Socket.authenticated client = Some u →
       userCurrentCount (db (react w (AIFriendMessage client content))) v
       = (userCurrentCount (db w) v
          + if decide (u = v) then (if nextFault w then 0 else 1) else 0)%Z).
Proof.
  split.
  - intros v g'. simpl.
    apply (keeps_run _ _ w (handleGroupAIMention_keeps_counts v g' _ _ client g content)).
    done.
  - intros u v Hauth. simpl. unfold Gateway.handleAIFriendMessage, run. rewrite Hauth.
    unfold ChatService.sendMessage at 1. destruct (nextFault w) eqn:Hf.
    + rewrite (tryCatch_bind_throw _ _ _ _ _ _ (statement_throws _ w Hf)). simpl.
      destruct (decide (u = v)); lia.
    + rewrite (tryCatch_bind_ok _ _ _ _ _ _ (statement_next _ w Hf)).
      match goal with |- context [tryCatch ?body ?h ?w3] =>
        assert (Hkeeps : Keeps (countsAre v g (userCurrentCount (db w3) v)
                                  (groupCurrentCount (db w3) g)) (tryCatch body h));
        [|pose proof (keeps_run _ _ w3 Hkeeps (conj eq_refl eq_refl)) as [Hcount _]]
      end.
      { unfold_services. keeps; try done.
        intros w0 faults. apply countsAre_insert_generated. }
      unfold run in Hcount. destruct (tryCatch _ _ _) as [[r w4] o4].
      cbn [fst] in Hcount |- *. rewrite Hcount. cbn [db withDb]. rewrite userCurrentCount_insertMessage.
      destruct (decide (u = v)) as [->|Hne].
      * by rewrite decide_True.
      * by rewrite decide_False by (by intros [? _]).
Qed.

(** ** The life of a user's style profile *)

Lemma sendMessage_ok from to text ai w :
  dbFaults w = [] →
  ChatService.sendMessage from to text ai w
  = (inr (Db.insertMessage from to text ai (db w) (clock w)).1,
     withDb w (Db.insertMessage from to text ai (db w) (clock w)).2 [], []).
Proof. intros Hdb. unfold ChatService.sendMessage. by rewrite statement_ok. Qed.

Lemma sendAll_ok u sent w :
  dbFaults w = [] →
  dbFaults (sendAll u sent w) = []
  ∧ storedUserProfile (db (sendAll u sent w)) u = storedUserProfile (db w) u
  ∧ userCurrentCount (db (sendAll u sent w)) u
    = (userCurrentCount (db w) u + Z.of_nat (length sent))%Z.
Proof.
  revert w. induction sent as [|[to text] sent IH]; intros w Hdb.
  { simpl. split_and!; try done. lia. }
  change (sendAll u ((to, text) :: sent) w)
    with (sendAll u sent (run (ChatService.sendMessage u to text false) w).1).
  unfold run. rewrite sendMessage_ok by done. cbn [fst].
  destruct (IH (withDb w (Db.insertMessage u to text false (db w) (clock w)).2 []) eq_refl)
    as (Hdb' & Hstored & Hcount).
  split_and!; [done|by rewrite Hstored|].
  rewrite Hcount. cbn [db withDb]. rewrite userCurrentCount_insertMessage.
  rewrite decide_True by done. cbn [length]. lia.
Qed.

(** X13.  On a healthy database a recompute stores, as the user's only
    profile row read back by [getStyleProfile], the number of the user's
    eligible messages and a non-empty prompt.  From then on the scheduler
    answers false until the user has sent ten further messages, and true
    from the tenth on. *)
Theorem recompute_then_due_after_ten `{StyleAnalyzer} w u (Hdb : dbFaults w = []) :
  ∃ row w1,
    StyleProfileService.updateStyleProfile u w = (inr row, w1, [])
    ∧ StyleProfileService.getStyleProfile u w1 = (inr (Some row), w1, [])
    ∧ Db.sp_messageCount row = userCurrentCount (db w) u
    ∧ JS.truthyOpt (Db.sp_stylePrompt row) = true
    ∧ ∀ sent,
        StyleProfileService.shouldUpdateProfile u (sendAll u sent w1)
        = (inr (bool_decide (10 ≤ length sent)), sendAll u sent w1, []).
Proof.
  destruct (updateStyleProfile_ok w u Hdb)
    as (row & w1 & Hrun & Hcount & Hprompt & Hstored & Hsame & Hdb1).
  exists row, w1. split_and!; try done.
  - by rewrite getStyleProfile_ok, Hstored.
  - intros sent. destruct (sendAll_ok u sent w1 Hdb1) as (Hdb2 & Hstored2 & Hcount2).
    rewrite user_shouldUpdateProfile_ok, Hstored2, Hstored, Hcount2, Hsame, Hcount by done.
    repeat f_equal. destruct (bool_decide_reflect (10 ≤ length sent)).
    + apply Z.leb_le. lia.
    + apply Z.leb_gt. lia.
Qed.

Lemma recompute_then_due_after_ten_witness :
  dbFaults nineNoProfile = []
  ∧ ∃ row w1,
      @StyleProfileService.updateStyleProfile emptyAnalyzer "u" nineNoProfile
      = (inr row, w1, [])
      ∧ Db.sp_messageCount row = 9%Z.
Proof.
  split; [reflexivity|].
  destruct (@recompute_then_due_after_ten emptyAnalyzer nineNoProfile "u" eq_refl)
    as (row & w1 & Hrun & _ & Hcount & _).
  exists row, w1. split; [exact Hrun|]. rewrite Hcount. reflexivity.
Defined.

(** What the promise started by a direct message does once it runs. *)
Lemma runTask_user_ok `{StyleAnalyzer} w u :
  dbFaults w = [] →
  ∃ w1,
    Gateway.runTask (StyleUpdate u) w = (inr tt, w1, [])
    ∧ dbFaults w1 = []
    ∧ Db.messages (db w1) = Db.messages (db w)
    ∧ Db.groupMessages (db w1) = Db.groupMessages (db w)
    ∧ match storedUserProfile (db w) u with
      | Some p =>
          if (Db.sp_messageCount p + 10 <=? userCurrentCount (db w) u)%Z
          then ∃ row, storedUserProfile (db w1) u = Some row
                      ∧ Db.sp_messageCount row = userCurrentCount (db w) u
                      ∧ JS.truthyOpt (Db.sp_stylePrompt row) = true
          else w1 = w
      | None => ∃ row, storedUserProfile (db w1) u = Some row
                       ∧ Db.sp_messageCount row = userCurrentCount (db w) u
                       ∧ JS.truthyOpt (Db.sp_stylePrompt row) = true
      end.
Proof.
  intros Hdb. unfold Gateway.runTask, tryCatch. unfold bind at 1.
  rewrite user_shouldUpdateProfile_ok by done.
  assert (Hupdate : ∃ w1,
    (let* _ := StyleProfileService.updateStyleProfile u in ret tt) w = (inr tt, w1, [])
    ∧ dbFaults w1 = []
    ∧ Db.messages (db w1) = Db.messages (db w)
    ∧ Db.groupMessages (db w1) = Db.groupMessages (db w)
    ∧ ∃ row, storedUserProfile (db w1) u = Some row
             ∧ Db.sp_messageCount row = userCurrentCount (db w) u
             ∧ JS.truthyOpt (Db.sp_stylePrompt row) = true).
  { destruct (updateStyleProfile_ok w u Hdb)
      as (row & w1 & Hrun & Hcount & Hprompt & Hstored & Hsame & Hdb1).
    exists w1. unfold bind. rewrite Hrun. split_and!; try done.
    - assert (Hk : Keeps (fun w' => Db.messages (db w') = Db.messages (db w))
                     (StyleProfileService.updateStyleProfile u)).
      { unfold StyleProfileService.updateStyleProfile. keeps; done. }
      by apply (Hk w _ _ _ eq_refl Hrun).
    - assert (Hk : Keeps (fun w' => Db.groupMessages (db w') = Db.groupMessages (db w))
                     (StyleProfileService.updateStyleProfile u)).
      { unfold StyleProfileService.updateStyleProfile. keeps; done. }
      by apply (Hk w _ _ _ eq_refl Hrun).
    - eauto. }
  destruct (storedUserProfile (db w) u) as [p|]; simpl.
  - destruct (Db.sp_messageCount p + 10 <=? userCurrentCount (db w) u)%Z; simpl.
    + destruct Hupdate as (w1 & -> & ?). by exists w1.
    + exists w. split_and!; done.
  - destruct Hupdate as (w1 & -> & ?). by exists w1.
Qed.

(** X14.  On a healthy database, a direct message from [u] followed by the
    promise it started: when [u] has no profile row, or has one and the
    message is at least the tenth since the recorded count, the row read
    back afterwards records the user's eligible messages, the new one
    included, with a non-empty prompt; otherwise the row is left as it
    was. *)
Theorem direct_message_then_background_recompute `{StyleAnalyzer} client u toUserId content w
    (Hauth : Socket.authenticated client = Some u)
    (Hdb : dbFaults w = []) :
  let after := reactAll [MessageSend client toUserId content; TaskRuns (StyleUpdate u)] w in
  userCurrentCount (db after) u = (userCurrentCount (db w) u + 1)%Z
  ∧ match storedUserProfile (db w) u with
    | Some p =>
        if (Db.sp_messageCount p + 9 <=? userCurrentCount (db w) u)%Z
        then ∃ row, storedUserProfile (db after) u = Some row
                    ∧ Db.sp_messageCount row = (userCurrentCount (db w) u + 1)%Z
                    ∧ JS.truthyOpt (Db.sp_stylePrompt row) = true
        else storedUserProfile (db after) u = Some p
    | None => ∃ row, storedUserProfile (db after) u = Some row
                     ∧ Db.sp_messageCount row = (userCurrentCount (db w) u + 1)%Z
                     ∧ JS.truthyOpt (Db.sp_stylePrompt row) = true
    end.
Proof.
  intros after. subst after. unfold reactAll. simpl.
  rewrite (handleMessageSend_trace _ _ _ _ _ Hauth).
  assert (nextFault w = false) as -> by (unfold nextFault; by rewrite Hdb).
  cbn [fst]. rewrite Hdb. cbn [tail].
  set (w1 := withBackground _ _).
  assert (Hdb1 : dbFaults w1 = []) by done.
  assert (Hcount1 : userCurrentCount (db w1) u = (userCurrentCount (db w) u + 1)%Z).
  { subst w1. cbn [db withDb withBackground]. rewrite userCurrentCount_insertMessage.
    by rewrite decide_True. }
  assert (Hstored1 : storedUserProfile (db w1) u = storedUserProfile (db w) u) by done.
  destruct (runTask_user_ok w1 u Hdb1) as (w2 & Hrun & _ & Hm & Hg & Hrow).
  unfold run. rewrite Hrun. cbn [fst]. split.
  - rewrite <- Hcount1. unfold userCurrentCount, StyleProfileService.sentDirect,
      StyleProfileService.sentInGroups. by rewrite Hm, Hg.
  - rewrite Hstored1, Hcount1 in Hrow.
    destruct (storedUserProfile (db w) u) as [p|]; [|done].
    replace (Db.sp_messageCount p + 9 <=? userCurrentCount (db w) u)%Z
      with (Db.sp_messageCount p + 10 <=? userCurrentCount (db w) u + 1)%Z.
    2: { destruct (Z.leb_spec (Db.sp_messageCount p + 9) (userCurrentCount (db w) u));
         [apply Z.leb_le|apply Z.leb_gt]; lia. }
    destruct (Db.sp_messageCount p + 10 <=? userCurrentCount (db w) u + 1)%Z; [done|].
    by rewrite Hrow.
Qed.

Lemma direct_message_then_background_recompute_witness :
  userCurrentCount (db (@reactAll emptyAnalyzer tenthMessage nineNoProfile)) "u" = 10%Z
  ∧ ∃ row, storedUserProfile (db (@reactAll emptyAnalyzer tenthMessage nineNoProfile)) "u"
           = Some row
           ∧ Db.sp_messageCount row = 10%Z.
Proof.
  destruct (@direct_message_then_background_recompute emptyAnalyzer uSocket "u" "friend"
              "tenth" nineNoProfile eq_refl eq_refl) as [Hcount (row & Hrow & Hn & _)].
  split; [exact Hcount|]. exists row. split; [exact Hrow|exact Hn].
Defined.

(** ** Resetting what was learned *)

Lemma fmap_replace_absent {A} (P : A → Prop) `{!∀ x, Decision (P x)} (row : A)
    (rows : list A) :
  head (filter P rows) = None →
  (fun p => if decide (P p) then row else p) <$> rows = rows.
Proof.
  induction rows as [|p rows IH]; [done|]. csimpl. destruct (decide (P p)).
  - by rewrite filter_cons_True.
  - rewrite filter_cons_False by done. intros Hnone. by rewrite IH.
Qed.

Lemma head_filter_replace_present {A} (P : A → Prop) `{!∀ x, Decision (P x)} (row p : A)
    (rows : list A) :
  P row → head (filter P rows) = Some p →
  head (filter P ((fun p => if decide (P p) then row else p) <$> rows)) = Some row.
Proof.
  intros Hrow Hp. apply head_filter_replace; [done|]. by destruct (filter P rows).
Qed.

Lemma withStyleProfiles_same t : Db.withStyleProfiles t (Db.styleProfiles t) = t.
Proof. by destruct t. Qed.

Lemma withGroupStyleProfiles_same t :
  Db.withGroupStyleProfiles t (Db.groupStyleProfiles t) = t.
Proof. by destruct t. Qed.

(** X15.  On a healthy database [resetStyleProfile] creates no row for a
    user who has none (it changes nothing).  For a user who has one it
    leaves count 0 and an empty prompt, touches nobody else's row, and the
    companion then answers with the canned "still learning" text without
    calling the provider.  Nothing is forgotten for good: the next promise
    started by a message recomputes the profile from all the user's
    messages as soon as there are ten of them. *)
Theorem resetStyleProfile_then_relearn `{StyleAnalyzer} w u (Hdb : dbFaults w = []) :
  ∃ w1,
    StyleProfileService.resetStyleProfile u w = (inr tt, w1, [])
    ∧ dbFaults w1 = []
    ∧ (∀ v, v ≠ u → storedUserProfile (db w1) v = storedUserProfile (db w) v)
    ∧ userCurrentCount (db w1) u = userCurrentCount (db w) u
    ∧ (storedUserProfile (db w) u = None → w1 = w)
    ∧ (is_Some (storedUserProfile (db w) u) →
         storedUserProfile (db w1) u
         = Some (Db.StyleProfile u 0 Db.emptyAnalysis (Some "") (clock w))
         ∧ (∀ msg, cannedOnly (AIFriendService.generateAIResponseStream u msg) w1
                              AIFriendService.STILL_LEARNING)
         ∧ ∃ w2, Gateway.runTask (StyleUpdate u) w1 = (inr tt, w2, [])
                 ∧ if (10 <=? userCurrentCount (db w) u)%Z
                   then ∃ row, storedUserProfile (db w2) u = Some row
                               ∧ Db.sp_messageCount row = userCurrentCount (db w) u
                               ∧ JS.truthyOpt (Db.sp_stylePrompt row) = true
                   else w2 = w1).
Proof.
  unfold StyleProfileService.resetStyleProfile. rewrite statement_ok by done.
  eexists. split; [reflexivity|]. cbn [fst snd].
  set (reset := Db.StyleProfile u 0 Db.emptyAnalysis (Some "") (clock w)).
  set (w1 := withDb w _ []).
  assert (Hdb1 : dbFaults w1 = []) by done.
  assert (Hcount : userCurrentCount (db w1) u = userCurrentCount (db w) u) by done.
  split_and!; try done.
  - intros v Hv. subst w1. unfold storedUserProfile. cbn [db withDb].
    apply (head_filter_map_other (fun p => Db.sp_userId p = v)
             (fun p => Db.sp_userId p = u)); simpl; congruence.
  - intros Hnone. subst w1. unfold storedUserProfile in Hnone.
    rewrite (fmap_replace_absent (fun p => Db.sp_userId p = u)) by done.
    rewrite withStyleProfiles_same. by apply withDb_same.
  - intros [p Hp].
    assert (Hstored : storedUserProfile (db w1) u = Some reset).
    { subst w1. unfold storedUserProfile. cbn [db withDb].
      by apply (head_filter_replace_present (fun p => Db.sp_userId p = u) reset p). }
    split_and!; [done| |].
    + intros msg. unfold cannedOnly.
      rewrite generateAIResponseStream_ok, Hstored by done. simpl. eauto.
    + destruct (runTask_user_ok w1 u Hdb1) as (w2 & Hrun & _ & _ & _ & Hrow).
      exists w2. split; [done|]. rewrite Hstored, Hcount in Hrow. simpl in Hrow.
      done.
Qed.

Lemma resetStyleProfile_then_relearn_witness :
  dbFaults twelveWithProfile = []
  ∧ ∃ w1 w2 row,
      StyleProfileService.resetStyleProfile "u" twelveWithProfile = (inr tt, w1, [])
      ∧ @Gateway.runTask emptyAnalyzer (StyleUpdate "u") w1 = (inr tt, w2, [])
      ∧ storedUserProfile (db w2) "u" = Some row
      ∧ Db.sp_messageCount row = 12%Z.
Proof.
  split; [reflexivity|].
  destruct (@resetStyleProfile_then_relearn emptyAnalyzer twelveWithProfile "u" eq_refl)
    as (w1 & Hreset & _ & _ & _ & _ & Hrow).
  destruct (Hrow (ex_intro _ _ eq_refl)) as (_ & _ & w2 & Htask & Hdue).
  change (userCurrentCount (db twelveWithProfile) "u") with 12%Z in Hdue.
  simpl in Hdue. destruct Hdue as (row & Hstored & Hcount & _).
  exists w1, w2, row. split_and!; done.
Defined.


(** ** The group's profile: recompute and reset *)

Lemma mapM_select_ok {A B} (q : A → Db.tables → B) xs w :
  dbFaults w = [] →
  mapM (fun x => select (q x)) xs w = (inr ((fun x => q x (db w)) <$> xs), w, []).
Proof.
  intros Hdb. induction xs as [|x xs IH]; [reflexivity|].
  simpl. unfold bind at 1. rewrite select_ok by done.
  unfold bind at 1. rewrite IH. reflexivity.
Qed.

Lemma updateGroupStyleProfile_ok `{StyleAnalyzer} w g :
  dbFaults w = [] →
  ∃ row w1,
    GroupAIProfileService.updateGroupStyleProfile g w = (inr row, w1, [])
    ∧ Db.gsp_messageCount row = groupCurrentCount (db w) g
    ∧ Db.gsp_memberContributions row
      = (analyzeGroupMessages (GroupAIProfileService.eligible g (db w))).2
    ∧ JS.truthyOpt (Db.gsp_stylePrompt row) = true
    ∧ GroupAIProfileService.storedProfile g (db w1) = Some row
    ∧ groupCurrentCount (db w1) g = groupCurrentCount (db w) g
    ∧ dbFaults w1 = [].
Proof.
  intros Hdb. unfold GroupAIProfileService.updateGroupStyleProfile.
  unfold bind at 1. rewrite select_ok by done.
  destruct (analyzeGroupMessages (GroupAIProfileService.eligible g (db w)))
    as [analysis contributions] eqn:Han.
  unfold bind at 1. rewrite mapM_select_ok by done.
  unfold bind at 1. rewrite select_ok by done.
  unfold bind at 1. unfold gets at 1.
  destruct (filter (fun p => Db.gsp_groupId p = g) (Db.groupStyleProfiles (db w)))
    as [|p0 rest] eqn:Hrows; simpl.
  - rewrite statement_ok by done. eexists _, _. split; [reflexivity|].
    simpl. split_and!; try done.
    unfold GroupAIProfileService.storedProfile. simpl.
    by apply (head_filter_snoc (fun p => Db.gsp_groupId p = g)).
  - rewrite statement_ok by done. eexists _, _. split; [reflexivity|].
    simpl. split_and!; try done.
    unfold GroupAIProfileService.storedProfile. simpl.
    apply (head_filter_replace (fun p => Db.gsp_groupId p = g)); [done|].
    by rewrite Hrows.
Qed.

(** X16.  On a healthy database a group recompute stores, as the group's
    row, the number of the group's eligible messages, the contributions the
    analysis found and a non-empty prompt.  The group then has its minimum
    data exactly when that number is at least 20, and from now on the
    scheduler answers false. *)
Theorem updateGroupStyleProfile_records_live_count `{StyleAnalyzer} w g
    (Hdb : dbFaults w = []) :
  ∃ row w1,
    GroupAIProfileService.updateGroupStyleProfile g w = (inr row, w1, [])
    ∧ GroupAIProfileService.storedProfile g (db w1) = Some row
    ∧ Db.gsp_messageCount row = groupCurrentCount (db w) g
    ∧ Db.gsp_memberContributions row
      = (analyzeGroupMessages (GroupAIProfileService.eligible g (db w))).2
    ∧ JS.truthyOpt (Db.gsp_stylePrompt row) = true
    ∧ GroupAIService.hasMinimumData g w1
      = (inr (20 <=? groupCurrentCount (db w) g)%Z, w1, [])
    ∧ GroupAIProfileService.shouldUpdateProfile g w1 = (inr false, w1, []).
Proof.
  destruct (updateGroupStyleProfile_ok w g Hdb)
    as (row & w1 & Hrun & Hcount & Hcontrib & Hprompt & Hstored & Hsame & Hdb1).
  exists row, w1. split_and!; try done.
  - by rewrite group_hasMinimumData_ok, Hstored, Hsame.
  - by apply (group_recompute_never_due w1 g row).
Qed.

Lemma updateGroupStyleProfile_records_live_count_witness :
  dbFaults staleGroupProfile = []
  ∧ ∃ row w1,
      @GroupAIProfileService.updateGroupStyleProfile emptyAnalyzer "g" staleGroupProfile
      = (inr row, w1, [])
      ∧ Db.gsp_messageCount row = 21%Z.
Proof.
  split; [reflexivity|].
  destruct (@updateGroupStyleProfile_records_live_count emptyAnalyzer staleGroupProfile "g"
              eq_refl) as (row & w1 & Hrun & _ & Hcount & _).
  exists row, w1. split; [exact Hrun|]. rewrite Hcount. reflexivity.
Defined.

(** X17.  On a healthy database [resetGroupStyleProfile] leaves the group's
    row with count 0 and an empty prompt, and that is final: after any
    later gateway events the row is still the reset one, and a mention of
    the agent in the group does not reach the provider. *)
Theorem resetGroupStyleProfile_is_final `{StyleAnalyzer} w g p evs client content
    (Hdb : dbFaults w = [])
    (Hrow : GroupAIProfileService.storedProfile g (db w) = Some p) :
  ∃ w1,
    resetGroupStyleProfile g w = (inr tt, w1, [])
    ∧ let reset := Db.GroupStyleProfile g 0 [] Db.emptyAnalysis (Some "") (clock w) in
      let before := reactAll evs w1 in
      let after := react before (GroupAIMention client g content) in
      GroupAIProfileService.storedProfile g (db w1) = Some reset
      ∧ GroupAIProfileService.storedProfile g (db before) = Some reset
      ∧ GroupAIProfileService.storedProfile g (db after) = Some reset
      ∧ openaiCalls after = openaiCalls before.
Proof.
  unfold resetGroupStyleProfile. rewrite statement_ok by done.
  eexists. split; [reflexivity|]. cbn [fst snd].
  set (reset := Db.GroupStyleProfile g 0 [] Db.emptyAnalysis (Some "") (clock w)).
  set (w1 := withDb w _ []). set (before := reactAll evs w1).
  assert (Hstored : groupProfileIs g reset w1).
  { subst w1. unfold groupProfileIs, GroupAIProfileService.storedProfile.
    cbn [db withDb]. simpl.
    by apply (head_filter_replace_present (fun p => Db.gsp_groupId p = g) reset p). }
  assert (Hbefore : groupProfileIs g reset before)
    by (by apply reactAll_keeps_groupProfile).
  assert (Hboth : groupRowAndProvider g reset (openaiReplies before) (openaiCalls before)
                    before) by done.
  destruct (keeps_run _ _ before
              (handleGroupAIMention_without_prompt g reset _ _ client content eq_refl)
              Hboth) as [Hafter [_ Hcalls]].
  split_and!; done.
Qed.

Lemma resetGroupStyleProfile_is_final_witness :
  dbFaults learnedGroup = []
  ∧ (∃ p, GroupAIProfileService.storedProfile "g" (db learnedGroup) = Some p)
  ∧ ∃ w1, resetGroupStyleProfile "g" learnedGroup = (inr tt, w1, [])
          ∧ openaiCalls (@react emptyAnalyzer w1 (GroupAIMention aliceSocket "g" "@AI hi"))
            = openaiCalls w1.
Proof.
  split; [reflexivity|]. split; [by eexists|].
  destruct (@resetGroupStyleProfile_is_final emptyAnalyzer learnedGroup "g" _ []
              aliceSocket "@AI hi" eq_refl eq_refl) as (w1 & Hreset & _ & _ & _ & Hcalls).
  exists w1. split; [exact Hreset|exact Hcalls].
Defined.

(** ** Senders who are not members *)

Lemma isUserInGroup_absent w g u :
  nextFault w = false →
  (∀ m, m ∈ Db.groupMembers (db w) → ¬ (Db.mb_groupId m = g ∧ Db.mb_userId m = u)) →
  GroupsService.isUserInGroup g u w = (inr false, advance w, []).
Proof.
  intros Hf Hout. unfold GroupsService.isUserInGroup. rewrite select_next by done.
  repeat f_equal. unfold GroupsService.membersOf.
  destruct (filter _ (filter _ _)) as [|m ms] eqn:Hrows; [done|].
  assert (Hm : m ∈ filter (fun m => Db.mb_userId m = u)
                 (filter (fun m => Db.mb_groupId m = g) (Db.groupMembers (db w)))).
  { rewrite Hrows. apply list_elem_of_here. }
  apply list_elem_of_filter in Hm as [Hu Hm].
  apply list_elem_of_filter in Hm as [Hg Hm]. by destruct (Hout m Hm).
Qed.

(** X18.  When the membership query succeeds and finds no row of the sender
    in the group, [group:message:send] and [group:ai:mention] each answer
    with exactly one error event to the sender and do nothing else: no
    message is stored, no member is notified, no recompute is started and
    the provider is not called. *)
Theorem non_member_is_turned_away `{StyleAnalyzer} client u g content w
    (Hauth : Socket.authenticated client = Some u)
    (Hquery : nextFault w = false)
    (Hout : ∀ m, m ∈ Db.groupMembers (db w) →
                 ¬ (Db.mb_groupId m = g ∧ Db.mb_userId m = u)) :
  Gateway.handleGroupMessageSend client g content w
  = (inr tt, advance w,
     [Emit (ToClient (Socket.id client)) "group:message:error"
           (ErrorMsg "You are not a member of this group")])
  ∧ Gateway.handleGroupAIMention client g content w
    = (inr tt, advance w,
       [Emit (ToClient (Socket.id client)) "group:ai:error"
             (ErrorMsg "You are not a member of this group")])
  ∧ db (advance w) = db w
  ∧ background (advance w) = background w
  ∧ openaiCalls (advance w) = openaiCalls w.
Proof.
  assert (Hno : GroupsService.isUserInGroup g u w = (inr false, advance w, [])).
  { by apply isUserInGroup_absent. }
  split_and!; try done.
  - unfold Gateway.handleGroupMessageSend. rewrite Hauth.
    unfold tryCatch. unfold bind at 1. rewrite Hno. reflexivity.
  - unfold Gateway.handleGroupAIMention. rewrite Hauth.
    unfold tryCatch. unfold bind at 1. rewrite Hno. reflexivity.
Qed.

Lemma non_member_is_turned_away_witness :
  Socket.authenticated (Socket.Make "s4" (SessionOf "dave") (Some "dave") true) = Some "dave"
  ∧ nextFault groupWorld = false
  ∧ (run (Gateway.handleGroupMessageSend
            (Socket.Make "s4" (SessionOf "dave") (Some "dave") true) "g" "hello")
         groupWorld).2
    = [Emit (ToClient "s4") "group:message:error"
            (ErrorMsg "You are not a member of this group")].
Proof.
  split; [reflexivity|]. split; [reflexivity|].
  assert (Hout : ∀ m, m ∈ Db.groupMembers (db groupWorld) →
                      ¬ (Db.mb_groupId m = "g" ∧ Db.mb_userId m = "dave")).
  { intros m Hin [_ Hu].
    change (Db.groupMembers (db groupWorld))
      with [Db.GroupMember "m1" "g" "alice" true 0 false; bobRow;
            Db.GroupMember "m3" "g" "carol" false 0 false] in Hin.
    repeat (apply elem_of_cons in Hin as [->|Hin]; [by vm_compute in Hu|]).
    by apply not_elem_of_nil in Hin. }
  destruct (@non_member_is_turned_away emptyAnalyzer
              (Socket.Make "s4" (SessionOf "dave") (Some "dave") true) "dave" "g" "hello"
              groupWorld eq_refl eq_refl Hout) as (Hsend & _).
  unfold run. rewrite Hsend. reflexivity.
Defined.

(** ** The group agent before it may generate *)

(** X19.  On a healthy database the group generator yields exactly one
    canned chunk and does not call the provider when the group has no
    profile row or fewer than 20 eligible messages at the time of the
    mention ("still learning"), or has both but no rendered prompt ("still
    analyzing").  The count that matters is the live one, not the one
    recorded in the row. *)
Theorem generateGroupAIResponseStream_canned w g msg (Hdb : dbFaults w = []) :
  (GroupAIProfileService.storedProfile g (db w) = None
   ∨ (groupCurrentCount (db w) g < 20)%Z →
     cannedOnly (GroupAIService.generateGroupAIResponseStream g msg) w
                GroupAIService.STILL_LEARNING)
  ∧ (∀ p, GroupAIProfileService.storedProfile g (db w) = Some p →
       (20 ≤ groupCurrentCount (db w) g)%Z →
       JS.truthyOpt (Db.gsp_stylePrompt p) = false →
       cannedOnly (GroupAIService.generateGroupAIResponseStream g msg) w
                  GroupAIService.STILL_ANALYZING).
Proof.
  split.
  - intros Hlow. unfold cannedOnly. rewrite generateGroupAIResponseStream_ok by done.
    destruct (GroupAIProfileService.storedProfile g (db w)) as [p|]; [|eauto].
    destruct Hlow as [|Hlow]; [done|].
    assert ((20 <=? groupCurrentCount (db w) g)%Z = false) as ->
      by (apply Z.leb_gt; lia).
    eauto.
  - intros p Hp Hcount Hprompt. unfold cannedOnly.
    rewrite generateGroupAIResponseStream_ok, Hp by done.
    assert ((20 <=? groupCurrentCount (db w) g)%Z = true) as ->
      by (apply Z.leb_le; lia).
    destruct (Db.gsp_stylePrompt p) as [prompt|]; [|eauto].
    simpl in Hprompt. rewrite Hprompt. eauto.
Qed.

Lemma generateGroupAIResponseStream_canned_witness :
  dbFaults staleGroupProfile = []
  ∧ cannedOnly (GroupAIService.generateGroupAIResponseStream "g" "@AI hi")
               staleGroupProfile GroupAIService.STILL_ANALYZING.
Proof.
  split; [reflexivity|].
  destruct (generateGroupAIResponseStream_canned staleGroupProfile "g" "@AI hi" eq_refl)
    as [_ Hprompt].
  apply (Hprompt _ eq_refl); [|reflexivity].
  change (groupCurrentCount (db staleGroupProfile) "g") with 21%Z. lia.
Defined.

(** ** Reading a conversation *)

Lemma sorted_desc_take_drop {A} (key : A → Z) (rows : list A) n a b :
  Sorted (fun a b => (desc key a ≤ desc key b)%Z) rows →
  a ∈ take n rows → b ∈ drop n rows → (key b ≤ key a)%Z.
Proof.
  intros Hsorted Ha Hb.
  assert (Htrans : Transitive (fun a b : A => (desc key a ≤ desc key b)%Z)).
  { intros x y z ? ?. lia. }
  apply Sorted_StronglySorted in Hsorted; [|done].
  rewrite <- (take_drop n rows) in Hsorted.
  pose proof (StronglySorted_app_1_elem_of _ _ _ a b Hsorted Ha Hb) as Hle.
  unfold desc in Hle. lia.
Qed.

Lemma sorted_weaken {A} (R R' : relation A) (rows : list A) :
  (∀ a b, R a b → R' a b) → Sorted R rows → Sorted R' rows.
Proof.
  intros HR. induction 1 as [|a rows Hs IH Hhd]; constructor; [done|].
  destruct Hhd; constructor. by apply HR.
Qed.

Lemma sorted_desc_reverse {A} (key : A → Z) (rows : list A) :
  Sorted (fun a b => (desc key a ≤ desc key b)%Z) rows →
  Sorted (fun a b => (key a ≤ key b)%Z) (reverse rows).
Proof.
  intros Hsorted. apply Sorted_reverse in Hsorted.
  eapply sorted_weaken; [|exact Hsorted]. unfold flip, desc. intros a b. lia.
Qed.

Lemma sorted_take {A} (R : relation A) (rows : list A) n :
  Sorted R rows → Sorted R (take n rows).
Proof.
  revert n. induction rows as [|a rows IH]; intros n Hs; [by rewrite take_nil|].
  destruct n as [|n]; [constructor|]. simpl.
  apply Sorted_inv in Hs as [Hs Hhd]. constructor; [by apply IH|].
  destruct rows as [|b rows]; [by destruct n|]. destruct n; [constructor|].
  apply HdRel_inv in Hhd. by constructor.
Qed.


Lemma between_sym u1 u2 m : ChatQueries.between u1 u2 m ↔ ChatQueries.between u2 u1 m.
Proof. unfold ChatQueries.between. tauto. Qed.

(** X20.  When its query succeeds, [getConversation] returns at most
    [limit] messages (50 when no limit is given), all of them exchanged
    between the two users, oldest first; they are the most recent ones of
    the conversation, in that every message of the conversation that is
    left out is no newer than any message returned.  With the two users
    swapped the query selects the same rows, so that, the database
    ordering them alike, it gives the same answer. *)
Theorem getConversation_latest_in_order `{RowOrder} userId1 userId2 limit w
    (Hquery : nextFault w = false) :
  ∃ conversation,
    ChatQueries.getConversation userId1 userId2 limit w
    = (inr conversation, advance w, [])
    ∧ length conversation ≤ default 50 limit
    ∧ (∀ m, m ∈ conversation →
         m ∈ Db.messages (db w) ∧ ChatQueries.between userId1 userId2 m)
    ∧ Sorted (fun a b => (Db.timestamp a ≤ Db.timestamp b)%Z) conversation
    ∧ (∀ m m', m ∈ conversation → m' ∈ Db.messages (db w) →
         ChatQueries.between userId1 userId2 m' → m' ∉ conversation →
         (Db.timestamp m' ≤ Db.timestamp m)%Z)
    ∧ ChatQueries.getConversation userId2 userId1 limit w
      = (inr conversation, advance w, []).
Proof.
  unfold ChatQueries.getConversation. unfold bind. rewrite !select_next by done.
  set (rows := filter (ChatQueries.between userId1 userId2) (Db.messages (db w))).
  set (sorted := orderBy (desc Db.timestamp) rows).
  set (n := default ChatQueries.DEFAULT_LIMIT limit).
  assert (Hperm : sorted ≡ₚ rows) by apply orderBy_Permutation.
  assert (Hsorted : Sorted (fun a b => (desc Db.timestamp a ≤ desc Db.timestamp b)%Z)
                      sorted) by apply orderBy_Sorted.
  eexists. split; [reflexivity|]. split_and!.
  - rewrite length_reverse, length_take. unfold n, ChatQueries.DEFAULT_LIMIT. lia.
  - intros m Hm. rewrite elem_of_reverse in Hm.
    apply elem_of_take in Hm as (i & Hi & _). apply list_elem_of_lookup_2 in Hi.
    rewrite Hperm in Hi. apply list_elem_of_filter in Hi as [? ?]. done.
  - apply sorted_desc_reverse. by apply sorted_take.
  - intros m m' Hm Hm' Hbetween Hout. rewrite elem_of_reverse in Hm.
    assert (Hin : m' ∈ sorted).
    { rewrite Hperm. apply list_elem_of_filter. done. }
    rewrite <- (take_drop n sorted) in Hin. apply elem_of_app in Hin as [Hin|Hin].
    + destruct Hout. by rewrite elem_of_reverse.
    + by apply (sorted_desc_take_drop Db.timestamp sorted n).
  - simpl. repeat f_equal. apply list_filter_iff. intros m. apply between_sym.
Qed.

Lemma getConversation_latest_in_order_witness :
  nextFault smallTalk = false
  ∧ ∃ conversation,
      @ChatQueries.getConversation mergeSortOrder "alice" "bob" (Some 2) smallTalk
      = (inr conversation, advance smallTalk, [])
      ∧ length conversation ≤ 2.
Proof.
  split; [reflexivity|].
  destruct (@getConversation_latest_in_order mergeSortOrder "alice" "bob" (Some 2) smallTalk
              eq_refl) as (conversation & Hrun & Hlen & _).
  exists conversation. split; [exact Hrun|exact Hlen].
Defined.


(** ** Read receipts of direct messages *)

Lemma getUnreadCount_ok w u :
  dbFaults w = [] →
  ChatQueries.getUnreadCount u w
  = (inr (Z.of_nat (length (ChatQueries.unread u (db w)))), w, []).
Proof.
  intros Hdb. unfold ChatQueries.getUnreadCount, bind. rewrite select_ok by done.
  simpl. repeat f_equal. unfold ChatQueries.orZero.
  destruct (Z.eqb_spec (Z.of_nat (length (ChatQueries.unread u (db w)))) 0); lia.
Qed.

Lemma fmap_update_absent {A} (P : A → Prop) `{!∀ x, Decision (P x)} (f : A → A)
    (rows : list A) :
  filter P rows = [] → (fun p => if decide (P p) then f p else p) <$> rows = rows.
Proof.
  induction rows as [|p rows IH]; [done|]. csimpl. destruct (decide (P p)).
  - by rewrite filter_cons_True.
  - rewrite filter_cons_False by done. intros Hnone. by rewrite IH.
Qed.

Lemma filter_nil_absent {A} (P : A → Prop) `{!∀ x, Decision (P x)} (rows : list A) :
  (∀ r, r ∈ rows → ¬ P r) → filter P rows = [].
Proof.
  intros Hnone. destruct (filter P rows) as [|r rs] eqn:Hrows; [done|].
  assert (Hr : r ∈ filter P rows) by (rewrite Hrows; apply list_elem_of_here).
  apply list_elem_of_filter in Hr as [HP Hr]. by destruct (Hnone r Hr).
Qed.

Lemma withMessages_same t : ChatQueries.withMessages t (Db.messages t) = t.
Proof. by destruct t. Qed.

Lemma elem_of_fmap_update {A} (P : A → Prop) `{!∀ x, Decision (P x)} (f : A → A)
    (rows : list A) row :
  row ∈ rows → P row → f row ∈ (fun p => if decide (P p) then f p else p) <$> rows.
Proof.
  intros Hin Hrow. apply list_elem_of_fmap. exists row. by rewrite decide_True.
Qed.

Lemma unread_after_read u messageId (rows : list Db.message) m :
  NoDup (Db.id <$> rows) → m ∈ rows → Db.id m = messageId →
  Z.of_nat (length (filter (fun m => Db.toUserId m = u ∧ Db.isRead m = false)
     ((fun m => if decide (Db.id m = messageId) then ChatQueries.read m else m) <$> rows)))
  = (Z.of_nat (length (filter (fun m => Db.toUserId m = u ∧ Db.isRead m = false) rows))
     - if decide (Db.toUserId m = u ∧ Db.isRead m = false) then 1 else 0)%Z.
Proof.
  intros Hnodup Hin Hid. induction rows as [|r rows IH]; [by apply not_elem_of_nil in Hin|].
  csimpl in Hnodup. apply NoDup_cons in Hnodup as [Hfresh Hnodup]. csimpl.
  apply elem_of_cons in Hin as [<-|Hin].
  - rewrite decide_True by done.
    rewrite (filter_cons_False _ (ChatQueries.read m)) by (by intros [_ ?]).
    rewrite (fmap_update_absent (fun m => Db.id m = messageId)).
    2: { apply filter_nil_absent. intros r Hr Heq. apply Hfresh.
         apply list_elem_of_fmap. exists r. split; [congruence|done]. }
    destruct (decide (Db.toUserId m = u ∧ Db.isRead m = false)).
    + rewrite filter_cons_True by done. simpl. lia.
    + rewrite filter_cons_False by done. lia.
  - assert (Hne : Db.id r ≠ messageId).
    { intros Heq. apply Hfresh. apply list_elem_of_fmap. exists m. split; [congruence|done]. }
    rewrite decide_False by done.
    destruct (decide (Db.toUserId r = u ∧ Db.isRead r = false)).
    + rewrite !filter_cons_True by done. simpl length. rewrite !Nat2Z.inj_succ.
      rewrite IH by done. lia.
    + rewrite !filter_cons_False by done. by apply IH.
Qed.

(** X21.  [markAsRead], when its statement succeeds: for an id that no
    message has, it throws [NotFoundException] and the table is left as it
    was; for the id of a stored message it marks that message read and
    returns.  Message ids being unique, the recipient's unread count then
    drops by one if the message was unread and stays the same if it was
    read already, and nobody else's count changes.  The method takes no
    user: reading is not tied to the recipient. *)
Theorem markAsRead_updates_unread_count w messageId (Hdb : dbFaults w = []) :
  ((∀ m, m ∈ Db.messages (db w) → Db.id m ≠ messageId) →
     ChatQueries.markAsRead messageId w
     = (inl (NotFoundException ("Message with ID " +:+ messageId +:+ " not found")), w, []))
  ∧ (∀ m, m ∈ Db.messages (db w) → Db.id m = messageId →
       NoDup (Db.id <$> Db.messages (db w)) →
       ∃ w1,
         ChatQueries.markAsRead messageId w = (inr tt, w1, [])
         ∧ dbFaults w1 = []
         ∧ ChatQueries.read m ∈ Db.messages (db w1)
         ∧ ∀ u, ∃ n1 n,
             ChatQueries.getUnreadCount u w = (inr n, w, [])
             ∧ ChatQueries.getUnreadCount u w1 = (inr n1, w1, [])
             ∧ n1 = (n - if decide (Db.toUserId m = u ∧ Db.isRead m = false)
                         then 1 else 0)%Z).
Proof.
  split.
  - intros Hnone. unfold ChatQueries.markAsRead, bind. rewrite statement_ok by done.
    cbn [fst snd].
    assert (Hrows : filter (fun m => Db.id m = messageId) (Db.messages (db w)) = []).
    { apply filter_nil_absent. intros r Hr Heq. by destruct (Hnone r Hr). }
    rewrite Hrows. simpl.
    rewrite (fmap_update_absent (fun m => Db.id m = messageId)) by done.
    by rewrite withMessages_same, withDb_same.
  - intros m Hm Hid Hkeys. unfold ChatQueries.markAsRead, bind.
    rewrite statement_ok by done. cbn [fst snd].
    destruct (filter (fun m => Db.id m = messageId) (Db.messages (db w)))
      as [|m0 ms] eqn:Hrows.
    { assert (Hin : m ∈ filter (fun m => Db.id m = messageId) (Db.messages (db w)))
        by (by apply list_elem_of_filter).
      rewrite Hrows in Hin. by apply not_elem_of_nil in Hin. }
    simpl. eexists. split; [reflexivity|]. split_and!; [done| |].
    + simpl. by apply (elem_of_fmap_update (fun m => Db.id m = messageId)).
    + intros u. eexists _, _. rewrite !getUnreadCount_ok by done.
      split; [reflexivity|]. split; [reflexivity|].
      unfold ChatQueries.unread. cbn [db withDb ChatQueries.withMessages Db.messages].
      by apply unread_after_read.
Qed.

Lemma markAsRead_updates_unread_count_witness :
  dbFaults smallTalk = []
  ∧ ChatQueries.markAsRead "9" smallTalk
    = (inl (NotFoundException "Message with ID 9 not found"), smallTalk, []).
Proof.
  split; [reflexivity|].
  destruct (markAsRead_updates_unread_count smallTalk "9" eq_refl) as [Hnone _].
  apply Hnone. intros m Hm.
  change (Db.messages (db smallTalk))
    with [Db.Message "1" "alice" "bob" "hi" 10 false false;
          Db.Message "2" "bob" "alice" "hello" 20 false false;
          Db.Message "3" "carol" "alice" "ping" 25 false false;
          Db.Message "4" "alice" "bob" "how are you" 30 false false] in Hm.
  repeat (apply elem_of_cons in Hm as [->|Hm]; [discriminate|]).
  by apply not_elem_of_nil in Hm.
Defined.

(** X22.  Storing a direct message raises the unread count of its
    recipient by one and leaves everyone else's count as it was, whoever
    wrote the message, the companion included. *)
Theorem sendMessage_raises_unread_count w from to text ai u (Hdb : dbFaults w = []) :
  ∃ message w1,
    ChatService.sendMessage from to text ai w = (inr message, w1, [])
    ∧ Db.isRead message = false
    ∧ ChatQueries.getUnreadCount u w1
      = (inr (Z.of_nat (length (ChatQueries.unread u (db w)))
              + if decide (to = u) then 1 else 0)%Z, w1, []).
Proof.
  rewrite sendMessage_ok by done. eexists _, _. split; [reflexivity|].
  split; [done|]. rewrite getUnreadCount_ok by done. repeat f_equal.
  unfold ChatQueries.unread. cbn [db withDb]. simpl.
  rewrite filter_app, length_app. destruct (decide (to = u)).
  - rewrite (filter_cons_True _ _ []) by done. simpl. lia.
  - rewrite (filter_cons_False _ _ []) by (by intros [? _]). simpl. lia.
Qed.

Lemma sendMessage_raises_unread_count_witness :
  dbFaults smallTalk = []
  ∧ ∃ message w1,
      ChatService.sendMessage "bob" "alice" "fine" false smallTalk = (inr message, w1, [])
      ∧ ChatQueries.getUnreadCount "alice" w1 = (inr 3%Z, w1, []).
Proof.
  split; [reflexivity|].
  destruct (sendMessage_raises_unread_count smallTalk "bob" "alice" "fine" false "alice"
              eq_refl) as (message & w1 & Hsend & _ & Hcount).
  exists message, w1. split; [exact Hsend|exact Hcount].
Defined.

(** ** Paging through a group's messages *)

Lemma getGroupMessages_next `{RowOrder} g limit before w :
  nextFault w = false →
  GroupMessageQueries.getGroupMessages g limit before w
  = (inr (reverse (take (default 50 limit)
            (orderBy (desc Db.gm_timestamp)
               (filter (GroupMessageQueries.selected g before)
                       (Db.groupMessages (db w)))))), advance w, []).
Proof.
  intros Hf. unfold GroupMessageQueries.getGroupMessages, bind.
  by rewrite select_next.
Qed.

Lemma page_elem `{RowOrder} {A} (key : A → Z) (P : A → Prop) `{!∀ x, Decision (P x)}
    (rows : list A) n m :
  m ∈ reverse (take n (orderBy (desc key) (filter P rows))) → m ∈ rows ∧ P m.
Proof.
  rewrite elem_of_reverse. intros Hm.
  apply elem_of_take in Hm as (i & Hi & _). apply list_elem_of_lookup_2 in Hi.
  rewrite orderBy_Permutation in Hi. apply list_elem_of_filter in Hi as [? ?]. done.
Qed.

Lemma page_sorted `{RowOrder} {A} (key : A → Z) (rows : list A) n :
  Sorted (fun a b => (key a ≤ key b)%Z) (reverse (take n (orderBy (desc key) rows))).
Proof. apply sorted_desc_reverse, sorted_take, orderBy_Sorted. Qed.

Lemma page_latest `{RowOrder} {A} (key : A → Z) (rows : list A) n m m' :
  m ∈ reverse (take n (orderBy (desc key) rows)) → m' ∈ rows →
  m' ∉ reverse (take n (orderBy (desc key) rows)) → (key m' ≤ key m)%Z.
Proof.
  rewrite !elem_of_reverse. intros Hm Hm' Hout.
  assert (Hin : m' ∈ orderBy (desc key) rows) by (by rewrite orderBy_Permutation).
  rewrite <- (take_drop n (orderBy (desc key) rows)) in Hin.
  apply elem_of_app in Hin as [Hin|Hin]; [done|].
  apply (sorted_desc_take_drop key (orderBy (desc key) rows) n); [|done..].
  apply orderBy_Sorted.
Qed.

Lemma sorted_head_least {A} (key : A → Z) (rows : list A) first m :
  Sorted (fun a b => (key a ≤ key b)%Z) rows → head rows = Some first → m ∈ rows →
  (key first ≤ key m)%Z.
Proof.
  intros Hsorted Hhead Hm. destruct rows as [|r rows]; [done|]. injection Hhead as ->.
  apply Sorted_StronglySorted in Hsorted; [|intros x y z ? ?; lia].
  apply StronglySorted_inv in Hsorted as [_ Hall].
  apply elem_of_cons in Hm as [->|Hm]; [lia|].
  rewrite Forall_forall in Hall. by apply Hall.
Qed.

(** X23.  When its query succeeds, [getGroupMessages] returns at most
    [limit] messages (50 by default) of the group, oldest first, all
    strictly older than [before] when that bound is given, and the most
    recent ones there are under the bound.  Asking again with [before] set
    to the timestamp of the first message of a page gives a page all of
    whose messages are strictly older than every message of the first
    one: no message is served twice. *)
Theorem getGroupMessages_pages `{RowOrder} g limit before w
    (Hquery : nextFault w = false) :
  ∃ page,
    GroupMessageQueries.getGroupMessages g limit before w = (inr page, advance w, [])
    ∧ length page ≤ default 50 limit
    ∧ (∀ m, m ∈ page →
         m ∈ Db.groupMessages (db w) ∧ Db.gm_groupId m = g
         ∧ ∀ bound, before = Some bound → (Db.gm_timestamp m < bound)%Z)
    ∧ Sorted (fun a b => (Db.gm_timestamp a ≤ Db.gm_timestamp b)%Z) page
    ∧ (∀ m m', m ∈ page → m' ∈ Db.groupMessages (db w) →
         GroupMessageQueries.selected g before m' → m' ∉ page →
         (Db.gm_timestamp m' ≤ Db.gm_timestamp m)%Z)
    ∧ (∀ first, head page = Some first →
         ∃ older,
           GroupMessageQueries.getGroupMessages g limit (Some (Db.gm_timestamp first)) w
           = (inr older, advance w, [])
           ∧ ∀ m m', m ∈ older → m' ∈ page →
               (Db.gm_timestamp m < Db.gm_timestamp m')%Z).
Proof.
  rewrite getGroupMessages_next by done. eexists. split; [reflexivity|].
  split_and!.
  - rewrite length_reverse, length_take. lia.
  - intros m Hm. apply page_elem in Hm as [Hin [Hg Hb]]. split_and!; try done.
    intros bound ->. done.
  - apply page_sorted.
  - intros m m' Hm Hm' Hsel Hout.
    apply (page_latest Db.gm_timestamp
             (filter (GroupMessageQueries.selected g before) (Db.groupMessages (db w)))
             (default 50 limit)); [done| |done].
    by apply list_elem_of_filter.
  - intros first Hfirst. rewrite getGroupMessages_next by done.
    eexists. split; [reflexivity|]. intros m m' Hm Hm'.
    apply page_elem in Hm as [_ [_ Hb]]. simpl in Hb.
    pose proof (sorted_head_least Db.gm_timestamp _ first m' (page_sorted _ _ _)
                  Hfirst Hm') as Hle.
    lia.
Qed.

Lemma getGroupMessages_pages_witness :
  nextFault busyGroup = false
  ∧ ∃ page,
      @GroupMessageQueries.getGroupMessages mergeSortOrder "g" (Some 2) None busyGroup
      = (inr page, advance busyGroup, [])
      ∧ length page ≤ 2.
Proof.
  split; [reflexivity|].
  destruct (@getGroupMessages_pages mergeSortOrder "g" (Some 2) None busyGroup eq_refl)
    as (page & Hrun & Hlen & _).
  exists page. split; [exact Hrun|exact Hlen].
Defined.

(** ** The ids of the group agents *)

Lemma startsWith_app prefix s : GroupAIIds.startsWith prefix (prefix +:+ s) = true.
Proof.
  induction prefix as [|a prefix IH]; [done|].
  change (String a prefix +:+ s) with (String a (prefix +:+ s)). simpl.
  by rewrite decide_True.
Qed.

Lemma startsWith_split prefix s :
  GroupAIIds.startsWith prefix s = true →
  s = prefix +:+ GroupAIIds.slice (String.length prefix) s.
Proof.
  revert s. induction prefix as [|a prefix IH]; intros s Hs; [by destruct s|].
  destruct s as [|b s]; [done|]. simpl in Hs.
  destruct (decide (a = b)) as [->|]; [|done].
  change (String b prefix +:+ ?t) with (String b (prefix +:+ t)). simpl.
  f_equal. by apply IH.
Qed.

(** X24.  The id of a group's agent and the group id determine each other:
    [extractGroupIdFromAIUserId] answers [g] for exactly one user id, the
    one [getGroupAIUserId] makes for [g] (also when [g] itself contains
    the prefix), and answers null for every id that does not start with
    the prefix, on which [isGroupAIMember] is false. *)
Theorem group_agent_id_round_trip userId groupId :
  (GroupAIIds.extractGroupIdFromAIUserId userId = Some groupId
   ↔ userId = GroupAIInitService.getGroupAIUserId groupId)
  ∧ GroupAIIds.isGroupAIMember (GroupAIInitService.getGroupAIUserId groupId) = true
  ∧ (GroupAIIds.extractGroupIdFromAIUserId userId = None
     ↔ GroupAIIds.isGroupAIMember userId = false).
Proof.
  unfold GroupAIIds.extractGroupIdFromAIUserId, GroupAIIds.isGroupAIMember,
    GroupAIInitService.getGroupAIUserId.
  assert (Hremove : ∀ s, GroupAIIds.startsWith "group-ai-" s = true →
            GroupAIIds.removeFirst "group-ai-" s
            = GroupAIIds.slice (String.length "group-ai-") s).
  { intros s Hs. destruct s; unfold GroupAIIds.removeFirst; by rewrite Hs. }
  split_and!.
  - split.
    + destruct (GroupAIIds.startsWith "group-ai-" userId) eqn:Hs; [|done].
      simpl. intros [= <-]. rewrite (Hremove _ Hs). by apply startsWith_split.
    + intros ->. reflexivity.
  - apply startsWith_app.
  - destruct (GroupAIIds.startsWith "group-ai-" userId); simpl; split; done.
Qed.

(** ** Mentions *)

Lemma unique_NoDup_aux (seen xs : list string) :
  NoDup seen →
  NoDup (foldl (fun seen x => if decide (x ∈ seen) then seen else seen ++ [x]) seen xs)
  ∧ ∀ x, x ∈ foldl (fun seen x => if decide (x ∈ seen) then seen else seen ++ [x]) seen xs
         ↔ x ∈ seen ∨ x ∈ xs.
Proof.
  revert seen. induction xs as [|y xs IH]; intros seen Hseen; simpl.
  { split; [done|]. intros x. rewrite elem_of_nil. tauto. }
  destruct (decide (y ∈ seen)) as [Hy|Hy].
  - destruct (IH seen Hseen) as [Hnodup Hmem]. split; [done|].
    intros x. rewrite Hmem, elem_of_cons. split; [tauto|].
    intros [?|[->|?]]; tauto.
  - assert (Hseen' : NoDup (seen ++ [y])).
    { apply NoDup_app. split_and!; [done| |apply NoDup_singleton].
      intros x Hx Hx'. apply list_elem_of_singleton in Hx'. by subst. }
    destruct (IH _ Hseen') as [Hnodup Hmem]. split; [done|].
    intros x. rewrite Hmem, elem_of_app, list_elem_of_singleton, elem_of_cons. tauto.
Qed.

Lemma unique_spec xs :
  NoDup (GroupMessageService.unique xs) ∧ ∀ x, x ∈ GroupMessageService.unique xs ↔ x ∈ xs.
Proof.
  destruct (unique_NoDup_aux [] xs (NoDup_nil_2)) as [Hnodup Hmem].
  split; [done|]. intros x. unfold GroupMessageService.unique. rewrite Hmem.
  rewrite elem_of_nil. tauto.
Qed.

Lemma allWordChars_snoc name a :
  allWordChars (name +:+ String a "")
  = allWordChars name && GroupMessageService.isWordChar a.
Proof.
  induction name as [|b name IH].
  - simpl. by rewrite andb_true_r.
  - change (String b name +:+ String a "") with (String b (name +:+ String a "")).
    simpl. rewrite IH. by rewrite andb_assoc.
Qed.

Lemma truthy_snoc name a : JS.truthy (name +:+ String a "") = true.
Proof. by destruct name. Qed.

Lemma flush_wordName cur name :
  (∀ n, cur = Some n → allWordChars n = true) →
  name ∈ GroupMessageService.flush cur → wordName name.
Proof.
  intros Hcur Hin. destruct cur as [n|]; [|by apply not_elem_of_nil in Hin].
  simpl in Hin. destruct (JS.truthy n) eqn:Ht; [|by apply not_elem_of_nil in Hin].
  apply list_elem_of_singleton in Hin as ->. split; [done|]. by apply Hcur.
Qed.

Lemma scanMentions_wordName s cur name :
  (∀ n, cur = Some n → allWordChars n = true) →
  name ∈ GroupMessageService.scanMentions s cur → wordName name.
Proof.
  revert cur. induction s as [|a s IH]; intros cur Hcur Hin; simpl in Hin.
  { by apply (flush_wordName cur). }
  assert (Hat : ∀ n, GroupMessageService.afterAt a = Some n → allWordChars n = true).
  { intros n. unfold GroupMessageService.afterAt. destruct (decide _); by intros [= <-]. }
  destruct cur as [n|].
  - destruct (GroupMessageService.isWordChar a) eqn:Hw.
    + apply (IH (Some (n +:+ String a ""))); [|done].
      intros ? [= <-]. rewrite allWordChars_snoc, Hw, (Hcur n eq_refl). done.
    + apply elem_of_app in Hin as [Hin|Hin].
      * by apply (flush_wordName (Some n)).
      * by apply (IH (GroupMessageService.afterAt a)).
  - by apply (IH (GroupMessageService.afterAt a)).
Qed.

Lemma string_app_assoc (s t u : string) : (s +:+ t) +:+ u = s +:+ (t +:+ u).
Proof.
  induction s as [|a s IH]; [done|].
  change (String a s +:+ t) with (String a (s +:+ t)).
  change (String a (s +:+ t) +:+ u) with (String a ((s +:+ t) +:+ u)).
  by rewrite IH.
Qed.

Lemma scanMentions_occurs s cur name :
  name ∈ GroupMessageService.scanMentions s cur →
  ∃ before rest, pending cur s = before +:+ "@" +:+ name +:+ rest ∧ wordEnds rest.
Proof.
  revert cur. induction s as [|a s IH]; intros cur Hin; simpl in Hin.
  { destruct cur as [n|]; [|by apply not_elem_of_nil in Hin]. simpl in Hin.
    destruct (JS.truthy n); [|by apply not_elem_of_nil in Hin].
    apply list_elem_of_singleton in Hin as ->. by exists "", "". }
  assert (Hnext : name ∈ GroupMessageService.scanMentions s (GroupMessageService.afterAt a) →
            ∃ before rest, String a s = before +:+ "@" +:+ name +:+ rest ∧ wordEnds rest).
  { intros Hn. apply IH in Hn as (before & rest & Heq & Hends).
    unfold GroupMessageService.afterAt in Heq. destruct (decide (a = "@"%char)) as [->|].
    - exists before, rest. split; [|done]. rewrite <- Heq. done.
    - exists (String a before), rest. split; [|done]. simpl in Heq. by rewrite Heq. }
  destruct cur as [n|]; [|by apply Hnext].
  destruct (GroupMessageService.isWordChar a) eqn:Hw.
  - apply IH in Hin as (before & rest & Heq & Hends). exists before, rest.
    split; [|done]. rewrite <- Heq. unfold pending.
    by rewrite (string_app_assoc n (String a "") s).
  - apply elem_of_app in Hin as [Hin|Hin].
    + simpl in Hin. destruct (JS.truthy n); [|by apply not_elem_of_nil in Hin].
      apply list_elem_of_singleton in Hin as ->. exists "", (String a s).
      split; [done|]. simpl. done.
    + apply Hnext in Hin as (before & rest & Heq & Hends).
      exists ("@" +:+ n +:+ before), rest. split; [|done].
      unfold pending. rewrite Heq.
      change (("@" +:+ n +:+ before) +:+ ?t) with ("@" +:+ ((n +:+ before) +:+ t)).
      by rewrite (string_app_assoc n before).
Qed.

(** X25.  [extractMentions] never lists a name twice, and every name it
    lists is a non-empty run of word characters (letters, digits and
    underscore) that stands in the content right after an [@] and ends
    where the content ends or goes on with another kind of character. *)
Theorem extractMentions_distinct_words content :
  NoDup (GroupMessageService.extractMentions content)
  ∧ ∀ name, name ∈ GroupMessageService.extractMentions content →
      wordName name
      ∧ ∃ before rest, content = before +:+ "@" +:+ name +:+ rest ∧ wordEnds rest.
Proof.
  unfold GroupMessageService.extractMentions.
  destruct (unique_spec (GroupMessageService.scanMentions content None)) as [Hnodup Hmem].
  split; [done|]. intros name Hin. apply Hmem in Hin. split.
  - by apply (scanMentions_wordName content None).
  - by apply (scanMentions_occurs content None).
Qed.

Lemma scanMentions_prefix prefix cur :
  ∃ found cur', ∀ s,
    GroupMessageService.scanMentions (prefix +:+ s) cur
    = found ++ GroupMessageService.scanMentions s cur'.
Proof.
  revert cur. induction prefix as [|a prefix IH]; intros cur.
  { exists [], cur. by intros s. }
  destruct cur as [n|].
  - destruct (GroupMessageService.isWordChar a) eqn:Hw.
    + destruct (IH (Some (n +:+ String a ""))) as (found & cur' & Hs).
      exists found, cur'. intros s.
      change (String a prefix +:+ s) with (String a (prefix +:+ s)). simpl.
      by rewrite Hw.
    + destruct (IH (GroupMessageService.afterAt a)) as (found & cur' & Hs).
      exists (GroupMessageService.flush (Some n) ++ found), cur'. intros s.
      change (String a prefix +:+ s) with (String a (prefix +:+ s)). simpl.
      rewrite Hw, Hs. by rewrite app_assoc.
  - destruct (IH (GroupMessageService.afterAt a)) as (found & cur' & Hs).
    exists found, cur'. intros s.
    change (String a prefix +:+ s) with (String a (prefix +:+ s)). by simpl.
Qed.

Lemma scanMentions_name name rest read :
  allWordChars name = true → wordEnds rest → JS.truthy (read +:+ name) = true →
  (read +:+ name) ∈ GroupMessageService.scanMentions (name +:+ rest) (Some read).
Proof.
  revert read. induction name as [|a name IH]; intros read Hname Hends Hread.
  - assert (Hr : read +:+ "" = read).
    { clear. induction read as [|b read IH]; [done|].
      change (String b read +:+ "") with (String b (read +:+ "")). by rewrite IH. }
    rewrite Hr in *. change ("" +:+ rest) with rest.
    destruct rest as [|b rest]; simpl.
    + rewrite Hread. apply list_elem_of_here.
    + simpl in Hends. rewrite Hends, Hread. apply list_elem_of_here.
  - simpl in Hname. apply andb_true_iff in Hname as [Ha Hname].
    change (String a name +:+ rest) with (String a (name +:+ rest)). simpl. rewrite Ha.
    assert (Heq : read +:+ String a name = (read +:+ String a "") +:+ name).
    { clear. induction read as [|b read IH]; [done|].
      change (String b read +:+ ?t) with (String b (read +:+ t)).
      change ((String b (read +:+ String a "")) +:+ name)
        with (String b ((read +:+ String a "") +:+ name)). by rewrite IH. }
    rewrite Heq. apply IH; [done..|]. rewrite <- Heq. done.
Qed.

(** X26.  [extractMentions] misses nothing: wherever the content holds an
    [@] followed by a non-empty run of word characters that ends at a
    character which is not one, or at the end of the content, that run is
    among the mentions. *)
Theorem extractMentions_finds_every_mention before name rest
    (Hname : wordName name) (Hends : wordEnds rest) :
  name ∈ GroupMessageService.extractMentions (before +:+ "@" +:+ name +:+ rest).
Proof.
  destruct Hname as [Hnonempty Hword].
  unfold GroupMessageService.extractMentions. apply unique_spec.
  destruct (scanMentions_prefix before None) as (found & cur' & Hs). rewrite Hs.
  apply elem_of_app. right.
  change ("@" +:+ name +:+ rest) with (String "@" (name +:+ rest)).
  assert (Hin : name ∈ GroupMessageService.scanMentions (name +:+ rest) (Some "")).
  { by apply (scanMentions_name name rest ""). }
  destruct cur' as [n|]; simpl.
  - apply elem_of_app. by right.
  - done.
Qed.

Lemma extractMentions_finds_every_mention_witness :
  wordName "bob_2" ∧ wordEnds ", are you there?"
  ∧ "bob_2" ∈ GroupMessageService.extractMentions "hi @bob_2, are you there?".
Proof.
  assert (Hname : wordName "bob_2") by (split; reflexivity).
  assert (Hends : wordEnds ", are you there?") by reflexivity.
  split; [exact Hname|]. split; [exact Hends|].
  apply (extractMentions_finds_every_mention "hi " "bob_2" ", are you there?" Hname Hends).
Defined.

(** ** The group analysis: weighting and contributions *)

Lemma insertByTimestamp_Permutation m sorted :
  GroupAIStyleAnalysisService.insertByTimestamp m sorted ≡ₚ m :: sorted.
Proof.
  induction sorted as [|first rest IH]; simpl; [done|].
  destruct (Db.gm_timestamp first <=? Db.gm_timestamp m)%Z; [|done].
  rewrite IH. apply Permutation_swap.
Qed.

Lemma insertByTimestamp_Sorted m sorted :
  Sorted (fun a b => (Db.gm_timestamp a ≤ Db.gm_timestamp b)%Z) sorted →
  Sorted (fun a b => (Db.gm_timestamp a ≤ Db.gm_timestamp b)%Z)
         (GroupAIStyleAnalysisService.insertByTimestamp m sorted).
Proof.
  induction sorted as [|first rest IH]; intros Hsorted; simpl.
  { by repeat constructor. }
  apply Sorted_inv in Hsorted as [Hrest Hhd].
  destruct (Z.leb_spec (Db.gm_timestamp first) (Db.gm_timestamp m)) as [Hle|Hlt].
  - constructor; [by apply IH|].
    destruct rest as [|second rest]; simpl.
    + by constructor.
    + destruct (Db.gm_timestamp second <=? Db.gm_timestamp m)%Z; constructor; [|done].
      by apply HdRel_inv in Hhd.
  - constructor; [by constructor|]. constructor. lia.
Qed.

Lemma sortByTimestamp_spec messages :
  GroupAIStyleAnalysisService.sortByTimestamp messages ≡ₚ messages
  ∧ Sorted (fun a b => (Db.gm_timestamp a ≤ Db.gm_timestamp b)%Z)
           (GroupAIStyleAnalysisService.sortByTimestamp messages).
Proof.
  unfold GroupAIStyleAnalysisService.sortByTimestamp.
  induction messages as [|m messages IH] using rev_ind; [by split; [|constructor]|].
  rewrite foldl_snoc. destruct IH as [Hperm Hsorted]. split.
  - rewrite insertByTimestamp_Permutation, Hperm. by rewrite Permutation_cons_append.
  - by apply insertByTimestamp_Sorted.
Qed.

Lemma weight_bounds index length :
  1 ≤ GroupAIStyleAnalysisService.weight index length ≤ 3.
Proof.
  unfold GroupAIStyleAnalysisService.weight.
  repeat match goal with |- context [if ?c then _ else _] => destruct c end; lia.
Qed.

(** Of ten messages the oldest five are pushed once, the next three twice
    and the last two three times. *)
Example weight_of_ten :
  (fun index => GroupAIStyleAnalysisService.weight index 10) <$> seq 0 10
  = [1; 1; 1; 1; 1; 2; 2; 2; 3; 3].
Proof. vm_compute. reflexivity. Qed.

Lemma pushWeighted_spec length index sorted :
  ∃ extra,
    GroupAIStyleAnalysisService.pushWeighted length index sorted ≡ₚ sorted ++ extra
    ∧ (∀ m, m ∈ extra → m ∈ sorted)
    ∧ List.length extra ≤ 2 * List.length sorted.
Proof.
  revert index. induction sorted as [|first rest IH]; intros index; simpl.
  { exists []. split_and!; [done|done|simpl; lia]. }
  destruct (IH (S index)) as (extra & Hperm & Hmem & Hlen).
  pose proof (weight_bounds index length) as Hw.
  destruct (GroupAIStyleAnalysisService.weight index length) as [|k]; [lia|].
  exists (replicate k first ++ extra). split_and!.
  - simpl. f_equiv. rewrite Hperm.
    rewrite !(assoc_L (++)). f_equiv. apply Permutation_app_comm.
  - intros m. rewrite elem_of_app, elem_of_replicate, elem_of_cons.
    intros [[-> _]|?]; [by left|right; by apply Hmem].
  - rewrite length_app, length_replicate. lia.
Qed.

Lemma pushWeighted_elem_of length index sorted m :
  m ∈ GroupAIStyleAnalysisService.pushWeighted length index sorted → m ∈ sorted.
Proof.
  destruct (pushWeighted_spec length index sorted) as (extra & Hperm & Hmem & _).
  rewrite Hperm, elem_of_app. intros [?|?]; [done|by apply Hmem].
Qed.

Lemma pushWeighted_Sorted length index sorted :
  StronglySorted (fun a b => (Db.gm_timestamp a ≤ Db.gm_timestamp b)%Z) sorted →
  StronglySorted (fun a b => (Db.gm_timestamp a ≤ Db.gm_timestamp b)%Z)
                 (GroupAIStyleAnalysisService.pushWeighted length index sorted).
Proof.
  revert index. induction sorted as [|first rest IH]; intros index Hsorted; simpl.
  { constructor. }
  apply StronglySorted_inv in Hsorted as [Hrest Hall].
  specialize (IH (S index) Hrest).
  assert (Hlater : Forall (fun b => (Db.gm_timestamp first ≤ Db.gm_timestamp b)%Z)
                     (GroupAIStyleAnalysisService.pushWeighted length (S index) rest)).
  { apply Forall_forall. intros m Hm. apply pushWeighted_elem_of in Hm.
    rewrite Forall_forall in Hall. by apply Hall. }
  induction (GroupAIStyleAnalysisService.weight index length) as [|k IHk]; simpl; [done|].
  constructor; [done|]. apply Forall_app. split; [|done].
  apply Forall_forall. intros m Hm. apply elem_of_replicate in Hm as [-> _]. lia.
Qed.

(** X27.  The recency weighting of the group analysis loses no message and
    invents none: the weighted list is the messages it was given together
    with further copies of some of them, in all at most twice as many
    copies as there are messages, so it is at most three times as long;
    and it is in timestamp order, oldest first. *)
Theorem applyRecencyWeighting_keeps_every_message messages :
  let weighted := GroupAIStyleAnalysisService.applyRecencyWeighting messages in
  (∃ copies, weighted ≡ₚ messages ++ copies
             ∧ (∀ m, m ∈ copies → m ∈ messages)
             ∧ length copies ≤ 2 * length messages)
  ∧ Sorted (fun a b => (Db.gm_timestamp a ≤ Db.gm_timestamp b)%Z) weighted.
Proof.
  intros weighted. subst weighted. unfold GroupAIStyleAnalysisService.applyRecencyWeighting.
  destruct (sortByTimestamp_spec messages) as [Hperm Hsorted].
  set (sorted := GroupAIStyleAnalysisService.sortByTimestamp messages) in *.
  destruct (pushWeighted_spec (length sorted) 0 sorted) as (copies & Hw & Hmem & Hlen).
  split.
  - exists copies. split_and!.
    + by rewrite Hw, Hperm.
    + intros m Hm. rewrite <- Hperm. by apply Hmem.
    + by rewrite <- Hperm.
  - apply StronglySorted_Sorted, pushWeighted_Sorted, Sorted_StronglySorted; [|done].
    intros a b c. lia.
Qed.

Lemma totalContributions_insert contributions userId count :
  totalContributions (<[userId := count]> contributions)
  = (count - default 0 (contributions !! userId) + totalContributions contributions)%Z.
Proof.
  unfold totalContributions.
  assert (Hfresh : ∀ (c : gmap string Z) n, c !! userId = None →
            map_fold (fun _ count total => (count + total)%Z) 0%Z (<[userId := n]> c)
            = (n + map_fold (fun _ count total => (count + total)%Z) 0%Z c)%Z).
  { intros c n Hc. apply (map_fold_insert_L (fun _ count total => (count + total)%Z));
      [|done]. intros. lia. }
  destruct (contributions !! userId) as [old|] eqn:Hold; simpl.
  - rewrite <- (insert_delete_eq contributions userId count).
    rewrite <- (insert_delete_id contributions userId old Hold) at 2.
    rewrite !Hfresh by apply lookup_delete_eq. lia.
  - rewrite Hfresh by done. lia.
Qed.

Lemma calculateMemberContributions_snoc messages m :
  GroupAIStyleAnalysisService.calculateMemberContributions (messages ++ [m])
  = <[Db.gm_fromUserId m :=
        (default 0 (GroupAIStyleAnalysisService.calculateMemberContributions messages
                      !! Db.gm_fromUserId m) + 1)%Z]>
      (GroupAIStyleAnalysisService.calculateMemberContributions messages).
Proof. unfold GroupAIStyleAnalysisService.calculateMemberContributions. by rewrite foldl_snoc. Qed.

Lemma calculateMemberContributions_spec messages :
  (∀ userId,
     GroupAIStyleAnalysisService.calculateMemberContributions messages !! userId
     = match writtenBy userId messages with
       | [] => None
       | written => Some (Z.of_nat (length written))
       end)
  ∧ totalContributions (GroupAIStyleAnalysisService.calculateMemberContributions messages)
    = Z.of_nat (length messages).
Proof.
  induction messages as [|m messages [IHlookup IHtotal]] using rev_ind; [done|].
  rewrite calculateMemberContributions_snoc. split.
  - intros userId. unfold writtenBy. rewrite filter_app, filter_cons, filter_nil.
    destruct (decide (Db.gm_fromUserId m = userId)) as [<-|Hother].
    + rewrite lookup_insert_eq, IHlookup. unfold writtenBy.
      destruct (filter _ messages) as [|first written]; [done|].
      simpl. f_equal. rewrite length_app. simpl. lia.
    + rewrite lookup_insert_ne by done. rewrite IHlookup. unfold writtenBy.
      by rewrite app_nil_r.
  - rewrite totalContributions_insert, IHtotal, length_app. simpl. lia.
Qed.

(** X28.  The [memberContributions] of a group analysis count the messages
    as they were given, not as they were weighted: a member who wrote [n]
    of them, [n] at least one, has the count [n]; a user who wrote none
    has no entry; and the counts add up to the number of messages. *)
Theorem memberContributions_count_every_message_once analyzeMessages messages :
  let contributions :=
    (GroupAIStyleAnalysisService.analyzeGroupMessages analyzeMessages messages).2 in
  (∀ userId, contributions !! userId
             = match writtenBy userId messages with
               | [] => None
               | written => Some (Z.of_nat (length written))
               end)
  ∧ totalContributions contributions = Z.of_nat (length messages).
Proof.
  intros contributions.
  assert (Heq : contributions
                = GroupAIStyleAnalysisService.calculateMemberContributions messages).
  { subst contributions. by destruct messages. }
  rewrite Heq. apply calculateMemberContributions_spec.
Qed.

(** ** Membership requests *)

Lemma dbHoare_ret {A} t (a : A) (Q : A → Db.tables → Prop) E : Q a t → dbHoare t (ret a) Q E.
Proof. intros HQ w r w' out Hw [= <- <- <-]. by rewrite Hw. Qed.

Lemma dbHoare_throw {A} t e (Q : A → Db.tables → Prop) (E : Db.tables → Prop) :
  E t → dbHoare t (throw e) Q E.
Proof. intros HE w r w' out Hw [= <- <- <-]. by rewrite Hw. Qed.

Lemma dbHoare_bind {A B} t (m : M A) (k : A → M B) R Q E :
  dbHoare t m R E → (∀ a t', R a t' → dbHoare t' (k a) Q E) → dbHoare t (bind m k) Q E.
Proof.
  intros Hm Hk w r w' out Hw H.
  apply bind_inv in H as [(e & H & ->)|(a & w1 & o1 & o2 & H1 & H2 & ->)].
  - apply (Hm w _ _ _ Hw H).
  - apply (Hk a (db w1) (Hm w _ _ _ Hw H1) w1 r w' o2 eq_refl H2).
Qed.

Lemma dbHoare_statement {A} t (q : Db.tables → Z → A * Db.tables)
    (Q : A → Db.tables → Prop) (E : Db.tables → Prop) :
  E t → (∀ now, Q (q t now).1 (q t now).2) → dbHoare t (statement q) Q E.
Proof.
  intros HE HQ w r w' out Hw H.
  apply statement_inv in H as (_ & [[-> ->]|[-> ->]]); simpl.
  - by rewrite Hw.
  - rewrite Hw. apply HQ.
Qed.

Lemma dbHoare_select_bind {A B} t (q : Db.tables → A) (k : A → M B) Q (E : Db.tables → Prop) :
  E t → dbHoare t (k (q t)) Q E → dbHoare t (bind (select q) k) Q E.
Proof.
  intros HE Hk. apply (dbHoare_bind _ _ _ (fun a t' => a = q t ∧ t' = t)).
  - by apply dbHoare_statement.
  - by intros a t' [-> ->].
Qed.

Lemma dbHoare_statement_bind {A B} t (q : Db.tables → Z → A * Db.tables) (k : A → M B) Q
    (E : Db.tables → Prop) :
  E t → (∀ now, dbHoare (q t now).2 (k (q t now).1) Q E) →
  dbHoare t (bind (statement q) k) Q E.
Proof.
  intros HE Hk.
  apply (dbHoare_bind _ _ _ (fun a t' => ∃ now, a = (q t now).1 ∧ t' = (q t now).2)).
  - apply dbHoare_statement; [done|]. intros now. by exists now.
  - intros a t' (now & -> & ->). apply Hk.
Qed.

Lemma dbHoare_keeps {A} (J : Db.tables → Prop) (m : M A) :
  (∀ t, J t → dbHoare t m (fun _ => J) J) → Keeps (fun w => J (db w)) m.
Proof.
  intros Hm w r w' out HJ H. specialize (Hm (db w) HJ w r w' out eq_refl H).
  by destruct r.
Qed.

(** *** The tables, row by row *)

Lemma filter_nonempty {A} (P : A → Prop) `{!∀ x, Decision (P x)} (rows : list A) :
  filter P rows ≠ [] ↔ ∃ x, x ∈ rows ∧ P x.
Proof.
  split.
  - destruct (filter P rows) as [|x found] eqn:Hf; [done|]. intros _.
    assert (Hx : x ∈ filter P rows) by (rewrite Hf; apply list_elem_of_here).
    apply list_elem_of_filter in Hx as [? ?]. eauto.
  - intros (x & Hx & HP) Hnil.
    by apply (filter_nil_not_elem_of P rows x Hnil HP).
Qed.

Lemma filter_empty {A} (P : A → Prop) `{!∀ x, Decision (P x)} (rows : list A) :
  filter P rows = [] ↔ ∀ x, x ∈ rows → ¬ P x.
Proof.
  split.
  - intros Hnil x Hx HP. by apply (filter_nil_not_elem_of P rows x Hnil HP).
  - intros Hnone. destruct (filter P rows) as [|x found] eqn:Hf; [done|].
    assert (Hx : x ∈ filter P rows) by (rewrite Hf; apply list_elem_of_here).
    apply list_elem_of_filter in Hx as [HP Hx]. by destruct (Hnone x Hx).
Qed.

Lemma hasAdminIfAny_rows g t :
  hasAdminIfAny g t
  ↔ (∀ r, r ∈ Db.groupMembers t → Db.mb_groupId r ≠ g)
    ∨ (∃ r, r ∈ Db.groupMembers t ∧ Db.mb_groupId r = g ∧ Db.mb_isAdmin r = true).
Proof.
  unfold hasAdminIfAny, GroupsService.membersOf, GroupMembership.admins.
  by rewrite filter_empty, filter_nonempty.
Qed.

Lemma isAdmin_rows g u t :
  GroupMembership.adminRows g u t ≠ []
  ↔ ∃ r, r ∈ Db.groupMembers t ∧ Db.mb_groupId r = g ∧ Db.mb_userId r = u
         ∧ Db.mb_isAdmin r = true.
Proof. unfold GroupMembership.adminRows. by rewrite filter_nonempty. Qed.

Lemma unique_rows {A B} (f : A → B) (rows : list A) x y :
  NoDup (f <$> rows) → x ∈ rows → y ∈ rows → f x = f y → x = y.
Proof.
  induction rows as [|z rows IH]; intros Hnodup Hx Hy Hf; [by apply not_elem_of_nil in Hx|].
  rewrite fmap_cons in Hnodup. apply NoDup_cons in Hnodup as [Hz Hnodup].
  apply elem_of_cons in Hx as [->|Hx]; apply elem_of_cons in Hy as [->|Hy].
  - done.
  - destruct Hz. rewrite Hf. by apply list_elem_of_fmap_2.
  - destruct Hz. rewrite <- Hf. by apply list_elem_of_fmap_2.
  - by apply IH.
Qed.

(** A group with more than one admin row has an admin other than [u]. *)
Lemma another_admin g u t :
  membershipsUnique t →
  GroupMembership.admins g t ≠ [] → length (GroupMembership.admins g t) ≠ 1 →
  ∃ r, r ∈ Db.groupMembers t ∧ Db.mb_groupId r = g ∧ Db.mb_isAdmin r = true
       ∧ Db.mb_userId r ≠ u.
Proof.
  intros Hunique Hsome Hmany.
  assert (Hsub : NoDup (memberPair <$> GroupMembership.admins g t)).
  { apply (sublist_NoDup _ _ Hunique). apply fmap_sublist, sublist_filter. }
  assert (Hin : ∀ r, r ∈ GroupMembership.admins g t →
            r ∈ Db.groupMembers t ∧ Db.mb_groupId r = g ∧ Db.mb_isAdmin r = true).
  { intros r Hr. apply list_elem_of_filter in Hr. tauto. }
  destruct (GroupMembership.admins g t) as [|a [|b rest]]; [done|done|].
  destruct (Hin a) as (Ha & Hga & Haa); [apply list_elem_of_here|].
  destruct (Hin b) as (Hb & Hgb & Hab); [apply list_elem_of_further, list_elem_of_here|].
  destruct (decide (Db.mb_userId a = u)) as [Hau|Hau]; [|by exists a].
  exists b. split_and!; [done..|]. intros Hbu.
  rewrite !fmap_cons in Hsub. apply NoDup_cons in Hsub as [Hne _].
  apply Hne. unfold memberPair at 1. rewrite Hga, Hau, <- Hgb, <- Hbu.
  apply list_elem_of_here.
Qed.

Lemma wellRunTables_insert g g0 u0 by_ t now :
  wellRunTables g t →
  (∀ r, r ∈ Db.groupMembers t → ¬ (Db.mb_groupId r = g0 ∧ Db.mb_userId r = u0)) →
  GroupMembership.adminRows g0 by_ t ≠ [] →
  wellRunTables g (GroupMembership.insertMember g0 u0 t now).2.
Proof.
  intros [Hunique Hadmin] Hfresh Hby. split.
  - unfold membershipsUnique. simpl. rewrite fmap_app. apply NoDup_app.
    split_and!; [done| |apply NoDup_singleton].
    intros pair Hpair Hnew. apply list_elem_of_singleton in Hnew as ->.
    apply list_elem_of_fmap in Hpair as (r & Hr & Hin).
    apply (Hfresh r Hin). unfold memberPair in Hr. simpl in Hr. by injection Hr as <- <-.
  - apply hasAdminIfAny_rows. simpl.
    apply hasAdminIfAny_rows in Hadmin as [Hnone|(r & Hr & Hg & Ha)].
    + apply isAdmin_rows in Hby as (r & Hr & Hg & _ & Ha). left.
      intros r' Hr'. apply elem_of_app in Hr' as [Hr'|Hr']; [by apply Hnone|].
      apply list_elem_of_singleton in Hr' as ->. simpl. intros <-. by apply (Hnone r).
    + right. exists r. rewrite elem_of_app. tauto.
Qed.

Lemma wellRunTables_delete g g0 u t now :
  wellRunTables g t → (g = g0 → mayLeave g0 u t) →
  wellRunTables g (GroupMembership.deleteMember g0 u t now).2.
Proof.
  intros [Hunique Hadmin] Hleave. split.
  - unfold membershipsUnique. simpl.
    apply (sublist_NoDup _ _ Hunique), fmap_sublist, sublist_filter.
  - apply hasAdminIfAny_rows. simpl.
    destruct (decide (g = g0)) as [->|Hne].
    + destruct (Hleave eq_refl) as [(r & Hr & Hg & Ha & Hu)|Honly].
      * right. exists r. split_and!; [|done..]. apply list_elem_of_filter. tauto.
      * left. intros r Hr Hg. apply list_elem_of_filter in Hr as [Hkeep Hr].
        apply Hkeep. split; [done|]. by apply Honly.
    + apply hasAdminIfAny_rows in Hadmin as [Hnone|(r & Hr & Hg & Ha)].
      * left. intros r Hr. apply list_elem_of_filter in Hr as [_ Hr]. by apply Hnone.
      * right. exists r. split_and!; [|done..]. apply list_elem_of_filter.
        split; [|done]. intros [Hg0 _]. congruence.
Qed.

Lemma wellRunTables_promote g id t :
  wellRunTables g t →
  wellRunTables g
    (GroupMembership.withGroupMembers t
       ((fun m => if decide (Db.mb_id m = id) then GroupMembership.promoted m else m)
          <$> Db.groupMembers t)).
Proof.
  intros [Hunique Hadmin]. split.
  - unfold membershipsUnique. simpl. rewrite <- list_fmap_compose.
    erewrite list_fmap_ext; [exact Hunique|].
    intros i m _. simpl. by destruct (decide _).
  - apply hasAdminIfAny_rows. simpl.
    apply hasAdminIfAny_rows in Hadmin as [Hnone|(r & Hr & Hg & Ha)].
    + left. intros r' Hr'. apply list_elem_of_fmap in Hr' as (r & -> & Hr).
      specialize (Hnone r Hr). by destruct (decide _).
    + right. exists (if decide (Db.mb_id r = id) then GroupMembership.promoted r else r).
      split_and!.
      * apply list_elem_of_fmap. by exists r.
      * by destruct (decide _).
      * by destruct (decide _).
Qed.

Lemma nonAdmin_is_other g0 u o t :
  membershipsUnique t → GroupMembership.adminRows g0 u t ≠ [] →
  o ∈ GroupMembership.nonAdmins g0 t → Db.mb_userId o ≠ u.
Proof.
  intros Hunique Hu Ho Hsame.
  apply isAdmin_rows in Hu as (r & Hr & Hg & Hru & Ha).
  apply list_elem_of_filter in Ho as [[Hgo Hao] Ho].
  assert (r = o) as ->; [|congruence].
  apply (unique_rows memberPair (Db.groupMembers t)); [done..|].
  unfold memberPair. congruence.
Qed.

Lemma mayLeave_not_admin g0 u t :
  hasAdminIfAny g0 t → GroupMembership.adminRows g0 u t = [] → mayLeave g0 u t.
Proof.
  intros Hadmin Hu. apply hasAdminIfAny_rows in Hadmin as [Hnone|(r & Hr & Hg & Ha)].
  - right. intros r Hr Hg. by destruct (Hnone r Hr).
  - left. exists r. split_and!; [done..|]. intros Hru.
    unfold GroupMembership.adminRows in Hu. rewrite filter_empty in Hu.
    by apply (Hu r Hr).
Qed.

Lemma mayLeave_many_admins g0 u t :
  membershipsUnique t → GroupMembership.adminRows g0 u t ≠ [] →
  length (GroupMembership.admins g0 t) ≠ 1 → mayLeave g0 u t.
Proof.
  intros Hunique Hu Hmany. left. apply another_admin; [done| |done].
  apply isAdmin_rows in Hu as (r & Hr & Hg & _ & Ha).
  apply filter_nonempty. eauto.
Qed.

Lemma mayLeave_alone g0 u t :
  GroupMembership.adminRows g0 u t ≠ [] →
  length (GroupMembership.admins g0 t) = 1 → GroupMembership.nonAdmins g0 t = [] →
  mayLeave g0 u t.
Proof.
  intros Hu Hone Hnone. right. intros r Hr Hg.
  apply isAdmin_rows in Hu as (a & Ha & Hga & Hau & Haa).
  assert (Hain : a ∈ GroupMembership.admins g0 t) by (apply list_elem_of_filter; tauto).
  assert (Hrin : r ∈ GroupMembership.admins g0 t).
  { apply list_elem_of_filter. split; [|done]. split; [done|].
    unfold GroupMembership.nonAdmins in Hnone. rewrite filter_empty in Hnone.
    specialize (Hnone r Hr). destruct (Db.mb_isAdmin r); [done|]. by destruct Hnone. }
  destruct (GroupMembership.admins g0 t) as [|x [|y rest]]; [done| |done].
  apply list_elem_of_singleton in Hain, Hrin. congruence.
Qed.

Lemma mayLeave_promoted g0 u o t :
  o ∈ Db.groupMembers t → Db.mb_groupId o = g0 → Db.mb_userId o ≠ u →
  mayLeave g0 u
    (GroupMembership.withGroupMembers t
       ((fun m => if decide (Db.mb_id m = Db.mb_id o) then GroupMembership.promoted m else m)
          <$> Db.groupMembers t)).
Proof.
  intros Ho Hg Hu. left. exists (GroupMembership.promoted o). split_and!; [|done..].
  simpl. apply list_elem_of_fmap. exists o. by rewrite decide_True.
Qed.

(** *** The three methods keep the groups well run *)

Lemma bind_assoc {A B C} (m : M A) (k : A → M B) (k' : B → M C) w :
  bind (bind m k) k' w = bind m (fun a => bind (k a) k') w.
Proof.
  unfold bind. destruct (m w) as [[[e|a] w1] o1]; [done|].
  destruct (k a w1) as [[[e|b] w2] o2]; [done|].
  destruct (k' b w2) as [[r w3] o3]. by rewrite app_assoc.
Qed.

Lemma dbHoare_bind_assoc {A B C} t (m : M A) (k : A → M B) (k' : B → M C) Q E :
  dbHoare t (bind m (fun a => bind (k a) k')) Q E → dbHoare t (bind (bind m k) k') Q E.
Proof. intros Hm w r w' out Hw H. rewrite bind_assoc in H. by apply (Hm w r w' out Hw). Qed.

Lemma dbHoare_ret_bind {A B} t (a : A) (k : A → M B) Q E :
  dbHoare t (k a) Q E → dbHoare t (bind (ret a) k) Q E.
Proof.
  intros Hk. apply (dbHoare_bind _ _ _ (fun a' t' => a' = a ∧ t' = t)).
  - by apply dbHoare_ret.
  - by intros a' t' [-> ->].
Qed.

Ltac db_step :=
  match goal with
  | |- dbHoare _ (bind (bind _ _) _) _ _ => apply dbHoare_bind_assoc
  | |- dbHoare _ (bind (ret _) _) _ _ => apply dbHoare_ret_bind
  | |- dbHoare _ (bind (select _) _) _ _ => apply dbHoare_select_bind; [done|]
  | |- dbHoare _ (ret _) _ _ => apply dbHoare_ret
  | |- dbHoare _ (throw _) _ _ => apply dbHoare_throw; [done]
  end.

Lemma isUserInGroup_rows g u t :
  filter (fun m => Db.mb_userId m = u) (GroupsService.membersOf g t) = [] →
  ∀ r, r ∈ Db.groupMembers t → ¬ (Db.mb_groupId r = g ∧ Db.mb_userId r = u).
Proof.
  intros Hnone r Hr [Hg Hu]. rewrite filter_empty in Hnone. apply (Hnone r); [|done].
  apply list_elem_of_filter. done.
Qed.

Lemma addMember_wellRun g user g0 u0 by_ t :
  wellRunTables g t →
  dbHoare t (GroupMembership.addMember user g0 u0 by_) (fun _ => wellRunTables g)
          (wellRunTables g).
Proof.
  intros HJ. unfold GroupMembership.addMember, GroupMembership.isUserAdmin,
    GroupMembership.findGroup, GroupsService.isUserInGroup.
  db_step. destruct (GroupMembership.adminRows g0 by_ t) as [|a admins] eqn:Hby; simpl.
  { by db_step. }
  db_step. destruct (head _); [|by db_step].
  db_step. destruct (head _); [|by db_step].
  db_step. destruct (filter _ (GroupsService.membersOf g0 t)) as [|m ms] eqn:Hin;
    [|by db_step].
  apply dbHoare_statement_bind; [done|]. intros now. db_step.
  apply (wellRunTables_insert g g0 u0 by_); [done| |by rewrite Hby].
  by apply isUserInGroup_rows.
Qed.

Lemma removeMember_wellRun g g0 u0 by_ t :
  wellRunTables g t →
  dbHoare t (GroupMembership.removeMember g0 u0 by_) (fun _ => wellRunTables g)
          (wellRunTables g).
Proof.
  intros HJ. unfold GroupMembership.removeMember, GroupMembership.isUserAdmin,
    GroupMembership.findGroup, GroupsService.isUserInGroup.
  db_step. destruct (GroupMembership.adminRows g0 by_ t) as [|a admins] eqn:Hby; simpl.
  { by db_step. }
  db_step. destruct (head _); [|by db_step].
  db_step. destruct (filter _ (GroupsService.membersOf g0 t)) as [|m ms] eqn:Hin; simpl.
  { by db_step. }
  db_step. destruct (GroupMembership.adminRows g0 u0 t) as [|b admins'] eqn:Hu0.
  - db_step. apply dbHoare_statement_bind; [done|]. intros now. db_step.
    apply wellRunTables_delete; [done|]. intros ->. left.
    assert (Hby' : GroupMembership.adminRows g0 by_ t ≠ []) by by rewrite Hby.
    apply isAdmin_rows in Hby' as (r & Hr & Hg & Hru & Ha).
    exists r. split_and!; [done..|]. intros Hsame.
    unfold GroupMembership.adminRows in Hu0. rewrite filter_empty in Hu0.
    apply (Hu0 r Hr). split_and!; congruence.
  - do 2 db_step. db_step.
    destruct (bool_decide_reflect (length (GroupMembership.admins g0 t) = 1)) as [Hone|Hmany].
    { by db_step. }
    apply dbHoare_statement_bind; [done|]. intros now. db_step.
    apply wellRunTables_delete; [done|]. intros _.
    apply mayLeave_many_admins; [by destruct HJ|by rewrite Hu0|done].
Qed.

Lemma transferAdminIfNeeded_ready `{RowOrder} g g0 u t :
  wellRunTables g t → GroupMembership.adminRows g0 u t ≠ [] →
  dbHoare t (GroupMembership.transferAdminIfNeeded g0)
          (fun _ t' => wellRunTables g t' ∧ (g = g0 → mayLeave g0 u t'))
          (wellRunTables g).
Proof.
  intros HJ Hu. unfold GroupMembership.transferAdminIfNeeded.
  db_step.
  destruct (bool_decide_reflect (length (GroupMembership.admins g0 t) = 1)) as [Hone|Hmany].
  2: { db_step. split; [done|]. intros _.
       apply mayLeave_many_admins; [by destruct HJ|done..]. }
  db_step.
  destruct (head (orderBy Db.mb_joinedAt (GroupMembership.nonAdmins g0 t)))
    as [oldestMember|] eqn:Hhead.
  - assert (Hold : oldestMember ∈ GroupMembership.nonAdmins g0 t).
    { rewrite <- (orderBy_Permutation Db.mb_joinedAt). by apply head_Some_elem_of. }
    apply dbHoare_statement; [done|]. intros _. simpl. split.
    + by apply wellRunTables_promote.
    + intros _. pose proof (nonAdmin_is_other g0 u oldestMember t (proj1 HJ) Hu Hold).
      apply list_elem_of_filter in Hold as [[Hg _] Hin].
      by apply mayLeave_promoted.
  - db_step. split; [done|]. intros _. apply mayLeave_alone; [done..|].
    apply head_None in Hhead. apply Permutation_nil_r.
    by rewrite <- Hhead, orderBy_Permutation.
Qed.

Lemma leaveGroup_wellRun `{RowOrder} g g0 u t :
  wellRunTables g t →
  dbHoare t (GroupMembership.leaveGroup g0 u) (fun _ => wellRunTables g) (wellRunTables g).
Proof.
  intros HJ. unfold GroupMembership.leaveGroup, GroupMembership.isUserAdmin,
    GroupMembership.findGroup, GroupsService.isUserInGroup.
  db_step. destruct (head _); [|by db_step].
  db_step. destruct (filter _ (GroupsService.membersOf g0 t)) as [|m ms] eqn:Hin; simpl.
  { by db_step. }
  db_step.
  apply (dbHoare_bind _ _ _ (fun _ t' => wellRunTables g t' ∧ (g = g0 → mayLeave g0 u t'))).
  - destruct (GroupMembership.adminRows g0 u t) as [|a admins] eqn:Hu.
    + db_step. split; [done|]. intros ->. apply mayLeave_not_admin; [by destruct HJ|done].
    + apply transferAdminIfNeeded_ready; [done|by rewrite Hu].
  - intros _ t' [HJ' Hleave]. apply dbHoare_statement_bind; [done|]. intros now. db_step.
    by apply wellRunTables_delete.
Qed.

(** X29.  Adding, removing and leaving keep a group well run.  If nobody is
    a member of any group twice and the group [g] has an admin unless it
    has no member at all, then the same holds after any sequence of
    [addMember], [removeMember] and [leaveGroup] requests, by whomever and
    for whatever groups, however the database sorts rows of equal age and
    whichever statements fail on the way. *)
Theorem membership_requests_keep_an_admin `{RowOrder} user requests g w
    (Hwell : wellRun g w) :
  wellRun g (foldl (GroupMembership.serve user) w requests).
Proof.
  revert w Hwell. induction requests as [|request requests IH]; intros w Hwell; [done|].
  simpl. apply IH. unfold wellRun in *.
  destruct request as [g0 u0 by_|g0 u0 by_|g0 u0]; simpl.
  - apply (keeps_run (fun w => wellRunTables g (db w))); [|done].
    apply dbHoare_keeps. intros t. apply addMember_wellRun.
  - apply (keeps_run (fun w => wellRunTables g (db w))); [|done].
    apply dbHoare_keeps. intros t. apply removeMember_wellRun.
  - apply (keeps_run (fun w => wellRunTables g (db w))); [|done].
    apply dbHoare_keeps. intros t. apply leaveGroup_wellRun.
Qed.

Lemma membership_requests_keep_an_admin_witness :
  wellRun "g" threeMembers
  ∧ wellRun "g"
      (foldl (@GroupMembership.serve mergeSortOrder ["alice"; "bob"; "carol"; "dave"])
             threeMembers aliceLeaves).
Proof.
  assert (Hwell : wellRun "g" threeMembers).
  { split.
    - apply (bool_decide_unpack _). by vm_compute.
    - right. by vm_compute. }
  split; [exact Hwell|].
  apply (@membership_requests_keep_an_admin mergeSortOrder
           ["alice"; "bob"; "carol"; "dave"] aliceLeaves "g" threeMembers Hwell).
Defined.

(** *** Leaving, on a healthy database *)

Lemma dbReturns_ret {A} t (a : A) (Q : A → Db.tables → Prop) : Q a t → dbReturns t (ret a) Q.
Proof. intros HQ w Hw Hdb. exists a, w. by rewrite Hw. Qed.

Lemma dbReturns_bind {A B} t (m : M A) (k : A → M B) R Q :
  dbReturns t m R → (∀ a t', R a t' → dbReturns t' (k a) Q) → dbReturns t (bind m k) Q.
Proof.
  intros Hm Hk w Hw Hdb. destruct (Hm w Hw Hdb) as (a & w1 & H1 & Hdb1 & HR).
  destruct (Hk a (db w1) HR w1 eq_refl Hdb1) as (b & w2 & H2 & Hdb2 & HQ).
  exists b, w2. unfold bind. by rewrite H1, H2.
Qed.

Lemma dbReturns_statement {A} t (q : Db.tables → Z → A * Db.tables)
    (Q : A → Db.tables → Prop) :
  (∀ now, Q (q t now).1 (q t now).2) → dbReturns t (statement q) Q.
Proof.
  intros HQ w Hw Hdb. rewrite statement_ok by done. eexists _, _.
  split; [done|]. split; [done|]. simpl. rewrite Hw. apply HQ.
Qed.

Lemma dbReturns_select_bind {A B} t (q : Db.tables → A) (k : A → M B) Q :
  dbReturns t (k (q t)) Q → dbReturns t (bind (select q) k) Q.
Proof.
  intros Hk. apply (dbReturns_bind _ _ _ (fun a t' => a = q t ∧ t' = t)).
  - by apply dbReturns_statement.
  - by intros a t' [-> ->].
Qed.

Lemma dbReturns_statement_bind {A B} t (q : Db.tables → Z → A * Db.tables) (k : A → M B) Q :
  (∀ now, dbReturns (q t now).2 (k (q t now).1) Q) → dbReturns t (bind (statement q) k) Q.
Proof.
  intros Hk.
  apply (dbReturns_bind _ _ _ (fun a t' => ∃ now, a = (q t now).1 ∧ t' = (q t now).2)).
  - apply dbReturns_statement. intros now. by exists now.
  - intros a t' (now & -> & ->). apply Hk.
Qed.

Lemma pairs_after_delete g u (f : Db.groupMember → Db.groupMember)
    (rows : list Db.groupMember) :
  (∀ m, memberPair (f m) = memberPair m) →
  memberPair <$> filter (fun m => ¬ (Db.mb_groupId m = g ∧ Db.mb_userId m = u)) (f <$> rows)
  = filter (fun pair => pair ≠ (g, u)) (memberPair <$> rows).
Proof.
  intros Hf. induction rows as [|m rows IH]; [done|].
  rewrite !fmap_cons, !filter_cons.
  assert (Hiff : ¬ (Db.mb_groupId (f m) = g ∧ Db.mb_userId (f m) = u)
                 ↔ memberPair m ≠ (g, u)).
  { rewrite <- (Hf m). unfold memberPair. split.
    - intros Hkeep [= Hg Hu]. by apply Hkeep.
    - intros Hne [Hg Hu]. apply Hne. by rewrite Hg, Hu. }
  destruct (decide (¬ (Db.mb_groupId (f m) = g ∧ Db.mb_userId (f m) = u))) as [Hkeep|Hgo];
    destruct (decide (memberPair m ≠ (g, u))) as [Hne|Heq]; try tauto.
  by rewrite fmap_cons, Hf, IH.
Qed.

Lemma dbReturns_bind_assoc {A B C} t (m : M A) (k : A → M B) (k' : B → M C) Q :
  dbReturns t (bind m (fun a => bind (k a) k')) Q → dbReturns t (bind (bind m k) k') Q.
Proof. intros Hm w Hw Hdb. rewrite bind_assoc. by apply Hm. Qed.

Lemma dbReturns_ret_bind {A B} t (a : A) (k : A → M B) Q :
  dbReturns t (k a) Q → dbReturns t (bind (ret a) k) Q.
Proof.
  intros Hk. apply (dbReturns_bind _ _ _ (fun a' t' => a' = a ∧ t' = t)).
  - by apply dbReturns_ret.
  - by intros a' t' [-> ->].
Qed.

Ltac ok_step :=
  match goal with
  | |- dbReturns _ (bind (bind _ _) _) _ => apply dbReturns_bind_assoc
  | |- dbReturns _ (bind (ret _) _) _ => apply dbReturns_ret_bind
  | |- dbReturns _ (bind (select _) _) _ => apply dbReturns_select_bind
  | |- dbReturns _ (bind (statement _) _) _ => apply dbReturns_statement_bind; intros ?
  | |- dbReturns _ (ret _) _ => apply dbReturns_ret
  end.

Lemma pairs_after_leaving g u (rows : list Db.groupMember) :
  memberPair <$> filter (fun m => ¬ (Db.mb_groupId m = g ∧ Db.mb_userId m = u)) rows
  = filter (fun pair => pair ≠ (g, u)) (memberPair <$> rows).
Proof.
  rewrite <- (list_fmap_id rows) at 1. by apply (pairs_after_delete g u id).
Qed.

(** X30.  On a healthy database a member can always leave a group that
    exists.  Afterwards the memberships are the former ones without the
    leaver's, in their order.  When the leaver was not an admin, or not
    the only admin row of the group, no other row is touched.  When the
    leaver was the only admin, the group has other members and nobody is
    in a group twice, a member who had been in the group at least as
    long as every other non-admin is an admin afterwards. *)
Theorem leaveGroup_hands_over `{RowOrder} g u w
    (Hdb : dbFaults w = [])
    (Hgroup : ∃ row, row ∈ Db.groups (db w) ∧ Db.g_id row = g)
    (Hmember : ∃ r, r ∈ Db.groupMembers (db w) ∧ Db.mb_groupId r = g ∧ Db.mb_userId r = u)
    (Hunique : membershipsUnique (db w)) :
  ∃ w', GroupMembership.leaveGroup g u w = (inr (inr tt), w', [])
    ∧ othersStay g u (db w) (db w')
    ∧ (GroupMembership.adminRows g u (db w) = []
       ∨ length (GroupMembership.admins g (db w)) ≠ 1 →
       Db.groupMembers (db w')
       = filter (fun m => ¬ (Db.mb_groupId m = g ∧ Db.mb_userId m = u))
                (Db.groupMembers (db w)))
    ∧ (GroupMembership.adminRows g u (db w) ≠ [] →
       length (GroupMembership.admins g (db w)) = 1 →
       GroupMembership.nonAdmins g (db w) ≠ [] →
       ∃ a, a ∈ Db.groupMembers (db w') ∧ Db.mb_groupId a = g ∧ Db.mb_isAdmin a = true
            ∧ ∀ o, o ∈ GroupMembership.nonAdmins g (db w) →
                (Db.mb_joinedAt a ≤ Db.mb_joinedAt o)%Z).
Proof.
  set (t := db w) in *.
  cut (dbReturns t (GroupMembership.leaveGroup g u) (fun a t' =>
         a = inr tt
         ∧ othersStay g u t t'
         ∧ (GroupMembership.adminRows g u t = [] ∨ length (GroupMembership.admins g t) ≠ 1 →
            Db.groupMembers t'
            = filter (fun m => ¬ (Db.mb_groupId m = g ∧ Db.mb_userId m = u))
                     (Db.groupMembers t))
         ∧ (GroupMembership.adminRows g u t ≠ [] →
            length (GroupMembership.admins g t) = 1 →
            GroupMembership.nonAdmins g t ≠ [] →
            ∃ a, a ∈ Db.groupMembers t' ∧ Db.mb_groupId a = g ∧ Db.mb_isAdmin a = true
                 ∧ ∀ o, o ∈ GroupMembership.nonAdmins g t →
                     (Db.mb_joinedAt a ≤ Db.mb_joinedAt o)%Z))).
  { intros Hrun. destruct (Hrun w eq_refl Hdb) as (a & w' & Hw' & _ & -> & Hrest).
    by exists w'. }
  clearbody t. clear w Hdb.
  unfold GroupMembership.leaveGroup, GroupMembership.isUserAdmin,
    GroupMembership.findGroup, GroupsService.isUserInGroup.
  ok_step. destruct (head _) as [row|] eqn:Hrow.
  2: { apply head_None in Hrow. destruct Hgroup as (row & Hin & Hg).
       by destruct (filter_nil_not_elem_of _ _ row Hrow Hg). }
  ok_step.
  destruct (filter _ (GroupsService.membersOf g t)) as [|m ms] eqn:Hin; simpl.
  { destruct Hmember as (r & Hr & Hg & Hu). by destruct (isUserInGroup_rows g u t Hin r Hr). }
  ok_step. destruct (GroupMembership.adminRows g u t) as [|a admins] eqn:Hadmin.
  { do 2 ok_step. ok_step. split_and!; [done| |done|done].
    unfold othersStay. simpl. apply pairs_after_leaving. }
  unfold GroupMembership.transferAdminIfNeeded. do 2 ok_step.
  destruct (bool_decide_reflect (length (GroupMembership.admins g t) = 1)) as [Hone|Hmany].
  2: { do 2 ok_step. ok_step. split_and!; [done| |done|done].
       unfold othersStay. simpl. apply pairs_after_leaving. }
  do 2 ok_step.
  destruct (head (orderBy Db.mb_joinedAt (GroupMembership.nonAdmins g t)))
    as [oldestMember|] eqn:Hhead.
  - do 2 ok_step. ok_step. split_and!; [done| | |].
    + unfold othersStay. simpl. apply pairs_after_delete. intros r. by destruct (decide _).
    + intros [?|?]; done.
    + intros _ _ _.
      assert (Hold : oldestMember ∈ GroupMembership.nonAdmins g t).
      { rewrite <- (orderBy_Permutation Db.mb_joinedAt). by apply head_Some_elem_of. }
      assert (Hother : Db.mb_userId oldestMember ≠ u).
      { apply (nonAdmin_is_other g u oldestMember t); [done|by rewrite Hadmin|done]. }
      exists (GroupMembership.promoted oldestMember). simpl. split_and!.
      * apply list_elem_of_filter. split; [simpl; tauto|].
        apply list_elem_of_fmap. exists oldestMember. rewrite decide_True by done.
        split; [done|]. apply list_elem_of_filter in Hold. tauto.
      * apply list_elem_of_filter in Hold. tauto.
      * done.
      * intros o Ho.
        apply (sorted_head_least Db.mb_joinedAt
                 (orderBy Db.mb_joinedAt (GroupMembership.nonAdmins g t)));
          [apply orderBy_Sorted|done|by rewrite orderBy_Permutation].
  - do 2 ok_step. ok_step. split_and!; [done| | |].
    + unfold othersStay. simpl. apply pairs_after_leaving.
    + intros [?|?]; done.
    + intros _ _ Hsome. apply head_None in Hhead. destruct Hsome.
      apply Permutation_nil_r. by rewrite <- Hhead, orderBy_Permutation.
Qed.

Lemma leaveGroup_hands_over_witness :
  ∃ w', @GroupMembership.leaveGroup mergeSortOrder "g" "alice" threeMembers
        = (inr (inr tt), w', [])
        ∧ othersStay "g" "alice" (db threeMembers) (db w').
Proof.
  assert (Hunique : membershipsUnique (db threeMembers)).
  { apply (bool_decide_unpack _). by vm_compute. }
  assert (Hgroup : ∃ row, row ∈ Db.groups (db threeMembers) ∧ Db.g_id row = "g").
  { exists (Db.Group "g" "friends"). split; [apply list_elem_of_here|done]. }
  assert (Hmember : ∃ r, r ∈ Db.groupMembers (db threeMembers)
                         ∧ Db.mb_groupId r = "g" ∧ Db.mb_userId r = "alice").
  { exists (Db.GroupMember "m1" "g" "alice" true 1 false).
    split; [apply list_elem_of_here|done]. }
  destruct (@leaveGroup_hands_over mergeSortOrder "g" "alice" threeMembers eq_refl
              Hgroup Hmember Hunique) as (w' & Hrun & Hstay & _).
  exists w'. split; [exact Hrun|exact Hstay].
Defined.
